(** * Boutique hotel finder: the filter-and-render engine

    A shallow embedding of the two variants of [HotelFinder] (the full
    one of [main.js] and the simplified, zone-only one) together with
    the properties of the filter predicate, the result header, the card
    markup, the debounce timers and the lazy image loader.

    Conventions of the embedding.
    - A JavaScript string is held as the bytes of its UTF-8 form, the
      form the catalog and the sources are stored in.  White space is
      the one of ECMAScript, in all of Unicode.  Case mappings are
      written out for the code points up to U+017F (Basic Latin, Latin-1
      Supplement and Latin Extended-A, the letters of Spanish text
      among them) and leave the letters of other scripts as they are; a
      statement that depends on the case of letters is made for text of
      that range.
      Lengths and positions count UTF-16 code units, as the source's
      do.  Strings are compared and sorted by their bytes, which is the
      order of the code units on the Basic Multilingual Plane.
    - Numbers read from the catalog ([nightlyRate], [rating], [rooms])
      and from the price control are integers ([Z]).
    - A property that may be missing on a record ([amenities],
      [nearbyAttractions]) is an [option]; reading [None] yields
      JavaScript's [undefined].
    - A computation that may raise is a [completion]. *)

From Stdlib Require Import ZArith NArith Ascii String DecimalString Lia Bool List.
From stdpp Require Import base list strings gmap sets.

Local Open Scope string_scope.

(** ** JavaScript strings *)

Module Js.

(** The value of a byte. *)
Definition code (c : ascii) : N := N_of_ascii c.

Definition between (lo hi n : N) : bool := (lo <=? n)%N && (n <=? hi)%N.

(** A byte that continues a character. *)
Definition isContinuation (c : ascii) : bool := between 128 191 (code c).

(** The first byte of a two-byte character from U+0080 to U+017F. *)
Definition isLatinLead (c : ascii) : bool := between 194 197 (code c).

(** The code point written by the two bytes [c d]. *)
Definition point2 (c d : ascii) : N :=
  ((code c - 192) * 64 + (code d - 128))%N.

(** The bytes of a code point below U+0800. *)
Definition encodePoint (p : N) : string :=
  if (p <? 128)%N then String (ascii_of_N p) EmptyString
  else String (ascii_of_N (192 + p / 64))
              (String (ascii_of_N (128 + p mod 64)) EmptyString).

Definition encodePoints (ps : list N) : string :=
  fold_right (fun p acc => encodePoint p ++ acc) EmptyString ps.

(** Lowercase mapping of the code points up to U+017F: the letters A to
    Z, the capitals of the Latin-1 Supplement (all of U+00C0 to U+00DE
    but the multiplication sign) and those of Latin Extended-A, of
    which U+0130 becomes an i followed by a combining dot. *)
Definition lowerPoint (p : N) : list N :=
  if between 65 90 p || (between 192 222 p && negb (p =? 215)%N) then [p + 32]%N
  else if (p =? 304)%N then [105; 775]%N
  else if (p =? 376)%N then [255]%N
  else if (between 256 303 p || between 306 311 p || between 330 375 p)
          && N.even p then [p + 1]%N
  else if (between 313 328 p || between 377 382 p) && N.odd p then [p + 1]%N
  else [p].

(** Uppercase mapping of the code points up to U+017F; the sharp s
    becomes two letters, and the micro sign, the y with diaeresis and
    the n preceded by an apostrophe leave the range. *)
Definition upperPoint (p : N) : list N :=
  if between 97 122 p || (between 224 254 p && negb (p =? 247)%N) then [p - 32]%N
  else if (p =? 181)%N then [924]%N
  else if (p =? 223)%N then [83; 83]%N
  else if (p =? 255)%N then [376]%N
  else if (p =? 305)%N then [73]%N
  else if (p =? 329)%N then [700; 78]%N
  else if (p =? 383)%N then [83]%N
  else if (between 257 303 p || between 307 311 p || between 331 375 p)
          && N.odd p then [p - 1]%N
  else if (between 314 328 p || between 378 382 p) && N.even p then [p - 1]%N
  else [p].

(** The two mappings on a character of one byte. *)
Definition lowerChar (c : ascii) : ascii :=
  let n := nat_of_ascii c in
  if (65 <=? n)%nat && (n <=? 90)%nat then ascii_of_nat (n + 32) else c.

Definition upperChar (c : ascii) : ascii :=
  let n := nat_of_ascii c in
  if (97 <=? n)%nat && (n <=? 122)%nat then ascii_of_nat (n - 32) else c.

(** [String.prototype.toLowerCase]: a character of one byte, or of two
    bytes up to U+017F, is replaced by its lowercase form; every other
    character is kept. *)
Fixpoint toLowerCase (s : string) : string :=
  match s with
  | EmptyString => EmptyString
  | String c t =>
      match t with
      | String d u =>
          if isLatinLead c && isContinuation d
          then encodePoints (lowerPoint (point2 c d)) ++ toLowerCase u
          else String (lowerChar c) (toLowerCase t)
      | EmptyString => String (lowerChar c) EmptyString
      end
  end.

(** White space and line terminators: the characters of one byte (tab
    to carriage return, and the space), the no-break space U+00A0, and
    those of three bytes (U+1680, U+2000 to U+200A, U+2028, U+2029,
    U+202F, U+205F, U+3000 and U+FEFF). *)
Definition isWhiteSpace (c : ascii) : bool :=
  let n := nat_of_ascii c in
  ((9 <=? n)%nat && (n <=? 13)%nat) || (n =? 32)%nat.

Definition isWhiteSpace2 (c d : ascii) : bool :=
  (code c =? 194)%N && (code d =? 160)%N.

Definition isWhiteSpace3 (c d e : ascii) : bool :=
  ((code c =? 225)%N && (code d =? 154)%N && (code e =? 128)%N)
  || ((code c =? 226)%N && (code d =? 128)%N
      && (between 128 138 (code e) || between 168 169 (code e)
          || (code e =? 175)%N))
  || ((code c =? 226)%N && (code d =? 129)%N && (code e =? 159)%N)
  || ((code c =? 227)%N && (code d =? 128)%N && (code e =? 128)%N)
  || ((code c =? 239)%N && (code d =? 187)%N && (code e =? 191)%N).

(** [s] is one character of white space. *)
Definition isWhiteSpaceChar (s : string) : bool :=
  match s with
  | String c EmptyString => isWhiteSpace c
  | String c (String d EmptyString) => isWhiteSpace2 c d
  | String c (String d (String e EmptyString)) => isWhiteSpace3 c d e
  | _ => false
  end.

Fixpoint trimStart (s : string) : string :=
  match s with
  | EmptyString => EmptyString
  | String c t =>
      if isWhiteSpace c then trimStart t
      else
        match t with
        | EmptyString => s
        | String d u =>
            if isWhiteSpace2 c d then trimStart u
            else
              match u with
              | EmptyString => s
              | String e v => if isWhiteSpace3 c d e then trimStart v else s
              end
        end
  end.

Fixpoint trimEnd (s : string) : string :=
  match s with
  | EmptyString => EmptyString
  | String c t =>
      let r := String c (trimEnd t) in
      if isWhiteSpaceChar r then EmptyString else r
  end.

(** [String.prototype.trim] *)
Definition trim (s : string) : string := trimEnd (trimStart s).

(** A string of white space only. *)
Fixpoint isBlank (s : string) : bool :=
  match s with
  | EmptyString => true
  | String c t =>
      if isWhiteSpace c then isBlank t
      else
        match t with
        | EmptyString => false
        | String d u =>
            if isWhiteSpace2 c d then isBlank u
            else
              match u with
              | EmptyString => false
              | String e v => isWhiteSpace3 c d e && isBlank v
              end
        end
  end.

(** A string of whole characters: every first byte is followed by the
    continuation bytes it announces. *)
Fixpoint wellFormed (s : string) : bool :=
  match s with
  | EmptyString => true
  | String c t =>
      if (code c <? 128)%N then wellFormed t
      else if between 194 223 (code c) then
        match t with
        | String d u => isContinuation d && wellFormed u
        | _ => false
        end
      else if between 224 239 (code c) then
        match t with
        | String d (String e u) =>
            isContinuation d && isContinuation e && wellFormed u
        | _ => false
        end
      else if between 240 244 (code c) then
        match t with
        | String d (String e (String f u)) =>
            isContinuation d && isContinuation e && isContinuation f
            && wellFormed u
        | _ => false
        end
      else false
  end.

(** Truthiness of a string: every string but the empty one. *)
Definition truthy (s : string) : bool :=
  match s with EmptyString => false | String _ _ => true end.

Fixpoint startsWith (s sub : string) {struct sub} : bool :=
  match sub, s with
  | EmptyString, _ => true
  | String _ _, EmptyString => false
  | String a sub', String b s' => Ascii.eqb a b && startsWith s' sub'
  end.

(** [String.prototype.includes] *)
Fixpoint includes (s sub : string) : bool :=
  startsWith s sub ||
  match s with
  | EmptyString => false
  | String _ t => includes t sub
  end.

(** [Array.prototype.join] *)
Fixpoint join (sep : string) (l : list string) : string :=
  match l with
  | [] => EmptyString
  | [x] => x
  | x :: t => x ++ sep ++ join sep t
  end.

(** [Array.prototype.includes] on an array of strings *)
Definition arrayIncludes (l : list string) (x : string) : bool :=
  existsb (String.eqb x) l.

(** [String.prototype.repeat] for a count already known to be natural *)
Fixpoint repeatString (s : string) (n : nat) : string :=
  match n with
  | O => EmptyString
  | S k => s ++ repeatString s k
  end.

(** [String.prototype.split] with a one-character separator; [cur] is
    the piece being read, in reverse. *)
Fixpoint splitAcc (sep : ascii) (cur : string) (s : string) : list string :=
  match s with
  | EmptyString => [String.rev cur]
  | String c t =>
      if Ascii.eqb c sep then String.rev cur :: splitAcc sep EmptyString t
      else splitAcc sep (String c cur) t
  end.

Definition split (sep : ascii) (s : string) : list string :=
  splitAcc sep EmptyString s.

(** Number of bytes of the character that [c] begins. *)
Definition width (c : ascii) : nat :=
  if (code c <? 192)%N then 1
  else if (code c <? 224)%N then 2
  else if (code c <? 240)%N then 3
  else 4.

(** The leading half of the surrogate pair of the four-byte character
    at the head of [s], written as the three bytes of its code. *)
Definition highSurrogate (s : string) : string :=
  match s with
  | String c (String d (String e (String f _))) =>
      let p := ((code c - 240) * 262144 + (code d - 128) * 4096
                + (code e - 128) * 64 + (code f - 128))%N in
      let hi := (55296 + (p - 65536) / 1024)%N in
      String (ascii_of_N 237)
        (String (ascii_of_N (128 + (hi / 64) mod 64))
           (String (ascii_of_N (128 + hi mod 64)) EmptyString))
  | _ => s
  end.

(** [String.prototype.substring(0, n)]: [n] counts UTF-16 code units,
    one for a character of up to three bytes and two for a character of
    four; a cut between the two leaves the leading half. *)
Fixpoint substringTo (n : nat) (s : string) : string :=
  match n, s with
  | O, _ => EmptyString
  | _, EmptyString => EmptyString
  | S k, String c _ =>
      if (width c <? 4)%nat
      then substring 0 (width c) s
           ++ substringTo k (substring (width c) (String.length s) s)
      else
        match k with
        | O => highSurrogate s
        | S k' =>
            substring 0 4 s
            ++ substringTo k' (substring 4 (String.length s) s)
        end
  end.

(** Decimal rendering of an integer, as a template literal does it. *)
Definition numberToString (z : Z) : string :=
  NilZero.string_of_int (Z.to_int z).

(** Digits of a natural number grouped by three with commas, least
    significant group last. *)
Fixpoint groupDigits (fuel : nat) (n : N) : string :=
  match fuel with
  | O => NilZero.string_of_uint (N.to_uint n)
  | S k =>
      if (n <? 1000)%N then NilZero.string_of_uint (N.to_uint n)
      else
        let low := NilZero.string_of_uint (N.to_uint (n mod 1000)) in
        groupDigits k (n / 1000) ++ "," ++
        repeatString "0" (3 - String.length low) ++ low
  end.

(** [Number.prototype.toLocaleString] in the locale the source assumes
    (it writes the default price as [$2,500]). *)
Definition toLocaleString (z : Z) : string :=
  let body := groupDigits (N.to_nat (N.log2 (Z.abs_N z))) (Z.abs_N z) in
  if (z <? 0)%Z then "-" ++ body else body.

Inductive Error := TypeError | RangeError | HttpError.

(** Outcome of evaluating an expression or a call. *)
Inductive completion (A : Type) : Type :=
  | Normal (a : A)
  | Throw (e : Error).
Arguments Normal {A} a.
Arguments Throw {A} e.

(** [Array.prototype.filter]: the callback runs on the elements from
    left to right, the kept ones are appended to the result in that
    order, and an exception of the callback ends the whole call. *)
Fixpoint arrayFilter {A : Type} (cb : A → completion bool) (l : list A)
  : completion (list A) :=
  match l with
  | [] => Normal []
  | x :: t =>
      match cb x with
      | Throw e => Throw e
      | Normal keep =>
          match arrayFilter cb t with
          | Throw e => Throw e
          | Normal r => Normal (if keep then x :: r else r)
          end
      end
  end.

(** [Array.prototype.map] with a callback that may raise. *)
Fixpoint arrayMap {A B : Type} (cb : A → completion B) (l : list A)
  : completion (list B) :=
  match l with
  | [] => Normal []
  | x :: t =>
      match cb x with
      | Throw e => Throw e
      | Normal y =>
          match arrayMap cb t with
          | Throw e => Throw e
          | Normal r => Normal (y :: r)
          end
      end
  end.

(** [[...new Set(l)]]: the distinct elements of [l], each at the place
    of its first occurrence.  [seen] is the set built so far. *)
Fixpoint setOfAcc (seen : list string) (l : list string) : list string :=
  match l with
  | [] => seen
  | x :: t =>
      if arrayIncludes seen x then setOfAcc seen t
      else setOfAcc (seen ++ [x]) t
  end.

Definition setOf (l : list string) : list string := setOfAcc [] l.

Fixpoint insertSorted (x : string) (l : list string) : list string :=
  match l with
  | [] => [x]
  | y :: t => if String.leb x y then x :: l else y :: insertSorted x t
  end.

(** [Array.prototype.sort] without a comparator, on an array of
    strings: ascending in the order of the code units.  The arrays the
    code sorts hold no duplicates, so the result does not depend on the
    sorting method. *)
Definition sort (l : list string) : list string :=
  fold_right insertSorted [] l.

End Js.

Import Js.

(** ** Data model *)

(** One entry of [hotels.json]. *)
Module hotel.
Record t : Type := make {
  id : string;
  name : string;
  region : string;
  macroZone : string;
  location : string;
  description : string;
  nightlyRate : Z;
  rating : Z;
  rooms : Z;
  image : string;
  amenities : option (list string);
  nearbyAttractions : option (list string)
}.
End hotel.

(** ** Markup produced by template literals

    A template literal is the sequence of its literal chunks and of its
    substitutions.  Each substitution records the record field it comes
    from, whether it sits in element content or inside an attribute
    value, and the encoder the source applies to it.  In the literal
    chunks the layout white space between tags is not reproduced and a
    double quote is written [~]; [html] restores it. *)

Module Markup.

Inductive Source :=
  | Id | Name | Location | Description | AmenityTag | Attraction
  | Image | Rating | Rate | Rooms | AmenityOverflow.

Inductive Position := Content | Attribute.

Inductive Encoding := Raw | HtmlEscaped | UriEncoded.

Inductive Part :=
  | Lit (s : string)
  | Interp (src : Source) (pos : Position) (enc : Encoding) (text : string).

Definition doubleQuote : ascii := ascii_of_nat 34.

Fixpoint html (s : string) : string :=
  match s with
  | EmptyString => EmptyString
  | String c t =>
      String (if Ascii.eqb c "~" then doubleQuote else c) (html t)
  end.

(** The no-break space U+00A0. *)
Definition nbsp : string :=
  String (ascii_of_N 194) (String (ascii_of_N 160) EmptyString).

(** [escapeHtml]: the text is stored as the text content of a fresh
    [div] and read back as markup.  Serializing a text node rewrites
    the ampersand, the two angle brackets and the no-break space, and
    nothing else (quotes are rewritten in attribute values only). *)
Fixpoint escapeHtml (text : string) : string :=
  match text with
  | EmptyString => EmptyString
  | String c t =>
      if Ascii.eqb c "&" then "&amp;" ++ escapeHtml t
      else if Ascii.eqb c "<" then "&lt;" ++ escapeHtml t
      else if Ascii.eqb c ">" then "&gt;" ++ escapeHtml t
      else
        match t with
        | String d u =>
            if isWhiteSpace2 c d then "&nbsp;" ++ escapeHtml u
            else String c (escapeHtml t)
        | EmptyString => String c EmptyString
        end
  end.

Definition hexDigit (n : nat) : ascii :=
  if (n <? 10)%nat then ascii_of_nat (48 + n) else ascii_of_nat (55 + n).

Definition uriUnreserved (c : ascii) : bool :=
  let n := nat_of_ascii c in
  ((65 <=? n)%nat && (n <=? 90)%nat) || ((97 <=? n)%nat && (n <=? 122)%nat) ||
  ((48 <=? n)%nat && (n <=? 57)%nat) ||
  existsb (Ascii.eqb c) ["-"; "_"; "."; "!"; "~"; "*"; "'"; "("; ")"]%char.

(** [encodeURIComponent] *)
Fixpoint encodeURIComponent (s : string) : string :=
  match s with
  | EmptyString => EmptyString
  | String c t =>
      (if uriUnreserved c then String c EmptyString
       else
         let n := nat_of_ascii c in
         String "%" (String (hexDigit (n / 16)) (String (hexDigit (n mod 16)) EmptyString)))
      ++ encodeURIComponent t
  end.

Definition raw (src : Source) (pos : Position) (v : string) : Part :=
  Interp src pos Raw v.

Definition escaped (src : Source) (pos : Position) (v : string) : Part :=
  Interp src pos HtmlEscaped (escapeHtml v).

Definition uriEncoded (src : Source) (pos : Position) (v : string) : Part :=
  Interp src pos UriEncoded (encodeURIComponent v).

Definition partText (p : Part) : string :=
  match p with
  | Lit s => html s
  | Interp _ _ _ text => text
  end.

(** The string a template evaluates to. *)
Definition render (ps : list Part) : string :=
  fold_right (fun p acc => partText p ++ acc) EmptyString ps.

End Markup.

Import Markup.


(** ** The full variant ([main.js]) *)

Module Full.

Module filters.
Record t : Type := make {
  search : string;
  region : string;
  maxPrice : Z;
  amenities : gset string
}.
End filters.

(** The configuration set by the constructor and by [resetFilters]. *)
Definition defaultFilters : filters.t :=
  filters.make EmptyString EmptyString 2500 ∅.

(** State of one [HotelFinder]: its own fields and the parts of the
    host document it writes.  [hotelsGrid] holds the markup of each card
    in [#hotels-grid], [announcements] the texts handed to the live
    region, oldest first. *)
Record App : Type := mkApp {
  hotels : list hotel.t;
  filteredHotels : list hotel.t;
  filters : filters.t;
  resultsCount : string;
  emptyStateHidden : bool;
  loadingHidden : bool;
  hotelsGrid : list (list Part);
  announcements : list string
}.

Definition setHotels (v : list hotel.t) (s : App) : App :=
  mkApp v (filteredHotels s) (filters s) (resultsCount s) (emptyStateHidden s)
        (loadingHidden s) (hotelsGrid s) (announcements s).

Definition setFilteredHotels (v : list hotel.t) (s : App) : App :=
  mkApp (hotels s) v (filters s) (resultsCount s) (emptyStateHidden s)
        (loadingHidden s) (hotelsGrid s) (announcements s).

Definition setFilters (v : filters.t) (s : App) : App :=
  mkApp (hotels s) (filteredHotels s) v (resultsCount s) (emptyStateHidden s)
        (loadingHidden s) (hotelsGrid s) (announcements s).

Definition setResultsCount (v : string) (s : App) : App :=
  mkApp (hotels s) (filteredHotels s) (filters s) v (emptyStateHidden s)
        (loadingHidden s) (hotelsGrid s) (announcements s).

Definition setHotelsGrid (v : list (list Part)) (s : App) : App :=
  mkApp (hotels s) (filteredHotels s) (filters s) (resultsCount s)
        (emptyStateHidden s) (loadingHidden s) v (announcements s).

(** [showLoading(show)] sets [aria-hidden] of [#loading] to [!show]. *)
Definition showLoading (show : bool) (s : App) : App :=
  mkApp (hotels s) (filteredHotels s) (filters s) (resultsCount s)
        (emptyStateHidden s) (negb show) (hotelsGrid s) (announcements s).

(** [showEmptyState(show)] sets [aria-hidden] of [#empty-state] to [!show]. *)
Definition showEmptyState (show : bool) (s : App) : App :=
  mkApp (hotels s) (filteredHotels s) (filters s) (resultsCount s)
        (negb show) (loadingHidden s) (hotelsGrid s) (announcements s).

Definition showError (message : string) (s : App) : App :=
  setResultsCount message s.

(** The constructor, on a host document whose result header reads
    [header] and whose indicators have the given [aria-hidden] values. *)
Definition construct (header : string) (emptyHidden loadHidden : bool) : App :=
  mkApp [] [] defaultFilters header emptyHidden loadHidden [] [].

(** *** Filter predicate *)

(** The text a search is matched against. *)
Definition searchTerms (h : hotel.t) : string :=
  join " "
    ([toLowerCase (hotel.name h); toLowerCase (hotel.location h);
      toLowerCase (hotel.region h); toLowerCase (hotel.description h)]
     ++ map toLowerCase (default [] (hotel.nearbyAttractions h))).

(** The callback [applyFilters] hands to [filter]. *)
Definition matches (f : filters.t) (h : hotel.t) : completion bool :=
  if truthy (filters.search f)
     && negb (includes (searchTerms h) (filters.search f))
  then Normal false
  else if truthy (filters.region f)
          && negb (String.eqb (hotel.region h) (filters.region f))
  then Normal false
  else if (hotel.nightlyRate h >? filters.maxPrice f)%Z
  then Normal false
  else if (0 <? size (filters.amenities f))%nat
  then
    match hotel.amenities h with
    | None => Throw TypeError
    | Some l =>
        if forallb (arrayIncludes l) (elements (filters.amenities f))
        then Normal true
        else Normal false
    end
  else Normal true.

(** *** Rendering *)

Definition translations : list (string * string) :=
  [("spa", "Spa"); ("restaurant", "Restaurante"); ("wifi", "WiFi");
   ("pool", "Piscina"); ("fitness", "Gimnasio"); ("concierge", "Concierge");
   ("room-service", "Servicio a la habitación");
   ("excursions", "Excursiones"); ("hiking", "Senderismo");
   ("wildlife-watching", "Observación de fauna");
   ("eco-tours", "Ecoturismo"); ("hot-springs", "Termas");
   ("wine-tasting", "Cata de vinos"); ("art-gallery", "Galería de arte");
   ("vineyard-tours", "Tours de viñedos"); ("private-guide", "Guía privado");
   ("4wd-vehicle", "Vehículo 4x4"); ("observatory", "Observatorio");
   ("astronomy-tours", "Tours astronómicos"); ("library", "Biblioteca");
   ("uma-bar", "Bar Uma"); ("horseback-riding", "Cabalgatas");
   ("kayaking", "Kayak"); ("bird-watching", "Observación de aves");
   ("local-culture", "Cultura local"); ("boat-tours", "Tours en bote");
   ("lake-activities", "Actividades lacustres");
   ("volcano-views", "Vistas a volcanes")].

(** What the page shows for the members every object literal
    inherits, which [translations[amenity]] finds as well: the built-in
    functions and, for [__proto__], the prototype itself.  Both uses of
    [formatAmenityName] turn its result into text ([textContent], in
    [escapeHtml] and in the label of a check box); the text of a
    built-in function is written the way V8 prints it. *)
Definition nativeFunction (name : string) : string :=
  "function " ++ name ++ "() { [native code] }".

Definition inherited : list (string * string) :=
  [("constructor", nativeFunction "Object");
   ("__defineGetter__", nativeFunction "__defineGetter__");
   ("__defineSetter__", nativeFunction "__defineSetter__");
   ("hasOwnProperty", nativeFunction "hasOwnProperty");
   ("__lookupGetter__", nativeFunction "__lookupGetter__");
   ("__lookupSetter__", nativeFunction "__lookupSetter__");
   ("isPrototypeOf", nativeFunction "isPrototypeOf");
   ("propertyIsEnumerable", nativeFunction "propertyIsEnumerable");
   ("toString", nativeFunction "toString");
   ("valueOf", nativeFunction "valueOf");
   ("__proto__", "[object Object]");
   ("toLocaleString", nativeFunction "toLocaleString")].

(** [word.charAt(0).toUpperCase() + word.slice(1)].  A first character
    of four bytes is two code units, of which [charAt(0)] is the first:
    it has no uppercase form and the word is left as it is. *)
Definition capitalize (word : string) : string :=
  match word with
  | EmptyString => EmptyString
  | String c t =>
      match t with
      | String d u =>
          if isLatinLead c && isContinuation d
          then encodePoints (upperPoint (point2 c d)) ++ u
          else String (upperChar c) t
      | EmptyString => String (upperChar c) EmptyString
      end
  end.

(** [formatAmenityName]: the translation of the tag, or else what the
    object literal inherits under that name, or else the tag with its
    words capitalized and separated by blanks. *)
Definition formatAmenityName (amenity : string) : string :=
  match List.find (fun kv => String.eqb (fst kv) amenity) translations with
  | Some kv => snd kv
  | None =>
      match List.find (fun kv => String.eqb (fst kv) amenity) inherited with
      | Some kv => snd kv
      | None => join " " (map capitalize (split "-" amenity))
      end
  end.

Definition countText (count : nat) : string :=
  if (count =? 0)%nat then "No se encontraron hoteles"
  else if (count =? 1)%nat then "1 hotel encontrado"
  else numberToString (Z.of_nat count) ++ " hoteles encontrados".

Definition announcementText (count : nat) : string :=
  if (count =? 0)%nat
  then "No hay hoteles que coincidan con tus filtros actuales"
  else if (count =? 1)%nat
  then "Se encontró 1 hotel que coincide con tus filtros"
  else "Se encontraron " ++ numberToString (Z.of_nat count)
       ++ " hoteles que coinciden con tus filtros".

(** [announceResults]: the text is appended to the document in a live
    region (its removal one second later is not part of the state). *)
Definition announceResults (count : nat) (s : App) : App :=
  mkApp (hotels s) (filteredHotels s) (filters s) (resultsCount s)
        (emptyStateHidden s) (loadingHidden s) (hotelsGrid s)
        (announcements s ++ [announcementText count]).

(** The star line; [repeat] raises on a negative count. *)
Definition stars (rating : Z) : completion string :=
  if (rating <? 0)%Z || (5 <? rating)%Z then Throw RangeError
  else Normal (repeatString "★" (Z.to_nat rating)
               ++ repeatString "☆" (Z.to_nat (5 - rating))).

Definition ratingText (rating : Z) : string :=
  numberToString rating ++ " de 5 estrellas".

Definition amenityTags (l : list string) : list Part :=
  (flat_map
    (fun amenity =>
       [Lit "<span class=~amenity-tag~ role=~listitem~>";
        escaped AmenityTag Content (formatAmenityName amenity);
        Lit "</span>"])
    (take 5 l)
  ++ (if (5 <? length l)%nat
      then [Lit "<span class=~amenity-tag~>+";
            raw AmenityOverflow Content
                (numberToString (Z.of_nat (length l) - 5));
            Lit " más</span>"]
      else []))%list.

Definition attractionItems (l : list string) : list Part :=
  flat_map (fun attr => [Lit "<li>"; escaped Attraction Content attr; Lit "</li>"]) l.

(** [createHotelCard]: the markup assigned to the card's [innerHTML].
    The attributes set through [setAttribute], the listeners and the
    registration of the image with the observer (see [Lazy]) are not
    part of the markup. *)
Definition createHotelCard (h : hotel.t) : completion (list Part) :=
  match stars (hotel.rating h) with
  | Throw e => Throw e
  | Normal st =>
      match hotel.amenities h with
      | None => Throw TypeError
      | Some am =>
          Normal
            ([Lit "<div class=~hotel-image~><img src=~data:image/svg+xml,%3Csvg xmlns='http://www.w3.org/2000/svg' width='800' height='600'%3E%3Crect width='100%25' height='100%25' fill='%23f0f2f5'/%3E%3C/svg%3E~ data-src=~";
              raw Image Attribute (hotel.image h);
              Lit "~ alt=~";
              raw Name Attribute (hotel.name h);
              Lit " - ";
              raw Location Attribute (hotel.location h);
              Lit "~ loading=~lazy~ width=~800~ height=~600~><div class=~hotel-rating~ aria-label=~";
              raw Rating Attribute (ratingText (hotel.rating h));
              Lit "~><span aria-hidden=~true~>";
              raw Rating Content st;
              Lit "</span><span class=~visually-hidden~>";
              raw Rating Content (ratingText (hotel.rating h));
              Lit "</span></div></div><div class=~hotel-content~><h3 id=~hotel-name-";
              raw Id Attribute (hotel.id h);
              Lit "~ class=~hotel-name~>";
              escaped Name Content (hotel.name h);
              Lit "</h3><p class=~hotel-location~><span aria-label=~Ubicación~>📍</span>";
              escaped Location Content (hotel.location h);
              Lit "</p><p class=~hotel-description~>";
              escaped Description Content (hotel.description h);
              Lit "</p><div class=~hotel-amenities~ role=~list~ aria-label=~Amenidades del hotel~>"]
             ++ amenityTags am
             ++ [Lit "</div>"]
             ++ match hotel.nearbyAttractions h with
                | Some l =>
                    ([Lit "<div class=~hotel-attractions~><h4>Lugares fantásticos cerca:</h4><ul>"]
                     ++ attractionItems l ++ [Lit "</ul></div>"])%list
                | None => []
                end
             ++ [Lit "<div class=~hotel-footer~><div class=~hotel-price~>$";
                 raw Rate Content (toLocaleString (hotel.nightlyRate h));
                 Lit "<span class=~hotel-price-label~>por noche</span></div><div class=~hotel-rooms~ aria-label=~Número de habitaciones~>";
                 raw Rooms Content (numberToString (hotel.rooms h));
                 Lit " habitaciones</div></div></div>"])%list
      end
  end.

(** [renderHotels] *)
Definition renderHotels (s : App) : App * completion unit :=
  let count := length (filteredHotels s) in
  let s1 := setResultsCount (countText count) s in
  if (count =? 0)%nat
  then (showEmptyState true (setHotelsGrid [] s1), Normal tt)
  else
    let s2 := showEmptyState false s1 in
    match arrayMap createHotelCard (filteredHotels s) with
    | Throw e => (s2, Throw e)
    | Normal cards => (announceResults count (setHotelsGrid cards s2), Normal tt)
    end.

(** [applyFilters] *)
Definition applyFilters (s : App) : App * completion unit :=
  match arrayFilter (matches (filters s)) (hotels s) with
  | Throw e => (s, Throw e)
  | Normal kept => renderHotels (setFilteredHotels kept s)
  end.

(** *** Start-up *)

(** What [fetch('hotels.json')] and [response.json()] deliver. *)
Inductive Response :=
  | Loaded (body : list hotel.t)
  | Failed.

(** [loadHotels] *)
Definition loadHotels (r : Response) (s : App) : App * completion unit :=
  let s1 := showLoading true s in
  match r with
  | Loaded body =>
      (showLoading false (setFilteredHotels body (setHotels body s1)), Normal tt)
  | Failed => (showLoading false s1, Throw HttpError)
  end.

(** [populateAmenitiesFilter] reads [amenities] of every record; only
    whether it completes is modelled. *)
Definition populateAmenitiesFilter (s : App) : completion unit :=
  if forallb (fun h => bool_decide (is_Some (hotel.amenities h))) (hotels s)
  then Normal tt else Throw TypeError.

Definition loadErrorMessage : string :=
  "Error al cargar hoteles. Por favor recarga la página.".

(** [init]: load, fill the controls, first render; any exception ends
    in [showError].  Of the steps between the load and the first render
    only [populateAmenitiesFilter] can raise on a record of the model. *)
Definition init (r : Response) (s : App) : App :=
  match loadHotels r s with
  | (s1, Throw _) => showError loadErrorMessage s1
  | (s1, Normal _) =>
      match populateAmenitiesFilter s1 with
      | Throw _ => showError loadErrorMessage s1
      | Normal _ =>
          match renderHotels s1 with
          | (s2, Throw _) => showError loadErrorMessage s2
          | (s2, Normal _) => s2
          end
      end
  end.

(** *** Handlers that recompute at once *)

(** [change] on the region selector, and a click on a destination card. *)
Definition onRegionChange (value : string) (s : App) : App * completion unit :=
  let f := filters s in
  applyFilters
    (setFilters (filters.make (filters.search f) value (filters.maxPrice f)
                              (filters.amenities f)) s).

(** [change] on an amenity check box. *)
Definition onAmenityChange (amenity : string) (checked : bool) (s : App)
  : App * completion unit :=
  let f := filters s in
  let am := if checked then {[ amenity ]} ∪ filters.amenities f
            else filters.amenities f ∖ {[ amenity ]} in
  applyFilters
    (setFilters (filters.make (filters.search f) (filters.region f)
                              (filters.maxPrice f) am) s).

(** [resetFilters] *)
Definition resetFilters (s : App) : App * completion unit :=
  applyFilters (setFilters defaultFilters s).

(** *** Debounced handlers and the host's timers

    Time is counted in milliseconds.  [timers] is the host's table of
    armed timers; [recomputations] lists, oldest first, the
    configuration read by every run of [applyFilters] started from a
    timer. *)

(** The two closures handed to [debounce]. *)
Inductive Callback := SearchCallback | FilterCallback.

Record Timer : Type := mkTimer {
  timerId : nat;
  due : nat;
  callback : Callback
}.

Record Runtime : Type := mkRuntime {
  app : App;
  searchInputValue : string;
  priceValue : string;
  searchDebounceTimer : option nat;
  filterDebounceTimer : option nat;
  timers : list Timer;
  nextTimerId : nat;
  clock : nat;
  recomputations : list filters.t
}.

Definition setApp (v : App) (r : Runtime) : Runtime :=
  mkRuntime v (searchInputValue r) (priceValue r) (searchDebounceTimer r)
            (filterDebounceTimer r) (timers r) (nextTimerId r) (clock r)
            (recomputations r).

Definition setTimers (v : list Timer) (r : Runtime) : Runtime :=
  mkRuntime (app r) (searchInputValue r) (priceValue r) (searchDebounceTimer r)
            (filterDebounceTimer r) v (nextTimerId r) (clock r)
            (recomputations r).

Definition setClock (v : nat) (r : Runtime) : Runtime :=
  mkRuntime (app r) (searchInputValue r) (priceValue r) (searchDebounceTimer r)
            (filterDebounceTimer r) (timers r) (nextTimerId r) v
            (recomputations r).

(** [setTimeout(func, delay)]: arms a timer and returns its id. *)
Definition setTimeout (func : Callback) (delay : nat) (r : Runtime)
  : nat * Runtime :=
  (nextTimerId r,
   mkRuntime (app r) (searchInputValue r) (priceValue r)
             (searchDebounceTimer r) (filterDebounceTimer r)
             (timers r ++ [mkTimer (nextTimerId r) (clock r + delay) func])
             (S (nextTimerId r)) (clock r) (recomputations r)).

(** [clearTimeout(id)]: disarms the timer if it is still armed; [None]
    is the initial [null]. *)
Definition clearTimeout (id : option nat) (r : Runtime) : Runtime :=
  match id with
  | None => r
  | Some n => setTimers (List.filter (fun t => negb (timerId t =? n)%nat) (timers r)) r
  end.

(** [debounce(func, delay, timerId)] *)
Definition debounce (func : Callback) (delay : nat) (name : string)
  (r : Runtime) : Runtime :=
  let onSearch := String.eqb name "search" in
  let r1 := clearTimeout (if onSearch then searchDebounceTimer r
                          else filterDebounceTimer r) r in
  let '(id, r2) := setTimeout func delay r1 in
  if onSearch
  then mkRuntime (app r2) (searchInputValue r2) (priceValue r2) (Some id)
                 (filterDebounceTimer r2) (timers r2) (nextTimerId r2)
                 (clock r2) (recomputations r2)
  else mkRuntime (app r2) (searchInputValue r2) (priceValue r2)
                 (searchDebounceTimer r2) (Some id) (timers r2)
                 (nextTimerId r2) (clock r2) (recomputations r2).

(** [input] on the search box: the box already holds [value]. *)
Definition onSearchInput (value : string) (r : Runtime) : Runtime :=
  debounce SearchCallback 300 "search"
    (mkRuntime (app r) value (priceValue r) (searchDebounceTimer r)
               (filterDebounceTimer r) (timers r) (nextTimerId r) (clock r)
               (recomputations r)).

(** [input] on the price range, whose value parses to [value]. *)
Definition onPriceInput (value : Z) (r : Runtime) : Runtime :=
  let f := filters (app r) in
  let a := setFilters (filters.make (filters.search f) (filters.region f)
                                    value (filters.amenities f)) (app r) in
  debounce FilterCallback 150 "filter"
    (mkRuntime a (searchInputValue r) ("$" ++ toLocaleString value)
               (searchDebounceTimer r) (filterDebounceTimer r) (timers r)
               (nextTimerId r) (clock r) (recomputations r)).

(** A run of [applyFilters] from a timer; an exception it raises is
    not caught by anyone and leaves the state as it is at that point. *)
Definition recompute (r : Runtime) : Runtime :=
  mkRuntime (fst (applyFilters (app r))) (searchInputValue r) (priceValue r)
            (searchDebounceTimer r) (filterDebounceTimer r) (timers r)
            (nextTimerId r) (clock r)
            (recomputations r ++ [filters (app r)]).

Definition runCallback (c : Callback) (r : Runtime) : Runtime :=
  match c with
  | SearchCallback =>
      let f := filters (app r) in
      recompute
        (setApp (setFilters
                   (filters.make (trim (toLowerCase (searchInputValue r)))
                                 (filters.region f) (filters.maxPrice f)
                                 (filters.amenities f)) (app r)) r)
  | FilterCallback => recompute r
  end.

(** The armed timer that fires next when the clock reaches [t]: the one
    with the least due time, the oldest among equals. *)
Fixpoint nextDue (t : nat) (l : list Timer) : option Timer :=
  match l with
  | [] => None
  | x :: rest =>
      match nextDue t rest with
      | Some y =>
          if (due x <=? t)%nat && (due x <=? due y)%nat then Some x else Some y
      | None => if (due x <=? t)%nat then Some x else None
      end
  end.

Fixpoint fire (fuel : nat) (t : nat) (r : Runtime) : Runtime :=
  match fuel with
  | O => r
  | S k =>
      match nextDue t (timers r) with
      | None => r
      | Some x =>
          fire k t
            (runCallback (callback x)
               (clearTimeout (Some (timerId x))
                  (setClock (Nat.max (clock r) (due x)) r)))
      end
  end.

(** [ms] milliseconds pass: every timer that falls due fires, in order.
    No callback arms a timer, so one round per armed timer is enough. *)
Definition advance (ms : nat) (r : Runtime) : Runtime :=
  setClock (clock r + ms) (fire (length (timers r)) (clock r + ms) r).

(** An input event on a debounced channel. *)
Inductive Input :=
  | SearchInput (value : string)
  | PriceInput (value : Z).

Definition onInput (i : Input) (r : Runtime) : Runtime :=
  match i with
  | SearchInput v => onSearchInput v r
  | PriceInput v => onPriceInput v r
  end.

Definition channelCallback (i : Input) : Callback :=
  match i with
  | SearchInput _ => SearchCallback
  | PriceInput _ => FilterCallback
  end.

(** The quiescence window of the channel of an input. *)
Definition window (c : Callback) : nat :=
  match c with
  | SearchCallback => 300
  | FilterCallback => 150
  end.

(** A burst: each input arrives [gap] milliseconds after the event
    before it. *)
Fixpoint runBurst (burst : list (nat * Input)) (r : Runtime) : Runtime :=
  match burst with
  | [] => r
  | (gap, i) :: rest => runBurst rest (onInput i (advance gap r))
  end.

(** The states a burst goes through: the starting state, then the state
    after each input. *)
Fixpoint burstTrace (burst : list (nat * Input)) (r : Runtime) : list Runtime :=
  r :: match burst with
       | [] => []
       | (gap, i) :: rest => burstTrace rest (onInput i (advance gap r))
       end.

(** Timers armed for a channel. *)
Definition armedFor (c : Callback) (r : Runtime) : list Timer :=
  List.filter
    (fun t => match callback t, c with
              | SearchCallback, SearchCallback => true
              | FilterCallback, FilterCallback => true
              | _, _ => false
              end)
    (timers r).

(** What happens to the page over time: an input arrives on a
    debounced channel, or time passes. *)
Inductive Event :=
  | Arrive (i : Input)
  | Elapse (ms : nat).

Definition handle (e : Event) (r : Runtime) : Runtime :=
  match e with
  | Arrive i => onInput i r
  | Elapse ms => advance ms r
  end.

Definition runEvents (events : list Event) (r : Runtime) : Runtime :=
  fold_left (fun st e => handle e st) events r.

(** *** Controls filled at start-up *)

(** [populateRegionFilter]: the values of the options appended to the
    region selector. *)
Definition regionOptions (s : App) : list string :=
  sort (setOf (map hotel.region (hotels s))).

(** [populateAmenitiesFilter]: the values of the check boxes it
    creates; reading [amenities] of a record without it raises. *)
Definition amenityOptions (s : App) : completion (list string) :=
  match arrayMap (fun h => match hotel.amenities h with
                           | Some l => Normal l
                           | None => Throw TypeError
                           end) (hotels s) with
  | Throw e => Throw e
  | Normal ls => Normal (sort (setOf (concat ls)))
  end.







(** [getFilterState].  The required amenities are a set without an
    order of insertion in this model, so the array of amenities is
    given up to its order. *)
Record FilterState : Type := mkFilterState {
  stateSearch : string;
  stateRegion : string;
  stateMaxPrice : Z;
  stateAmenities : list string;
  resultCount : nat
}.

Definition getFilterState (s : App) : FilterState :=
  mkFilterState (filters.search (filters s)) (filters.region (filters s))
                (filters.maxPrice (filters s))
                (elements (filters.amenities (filters s)))
                (length (filteredHotels s)).

End Full.

(** ** The simplified variant *)

Module Simple.

Module filters.
Record t : Type := make { macroZone : string }.
End filters.

Record App : Type := mkApp {
  hotels : list hotel.t;
  filteredHotels : list hotel.t;
  filters : filters.t;
  resultsCount : string;
  emptyStateHidden : bool;
  hotelsGrid : list (list Part);
  modalBody : list Part;
  modalHidden : bool
}.

Definition construct (header : string) (emptyHidden modalHid : bool) : App :=
  mkApp [] [] (filters.make EmptyString) header emptyHidden [] [] modalHid.

(** The callback of [applyFilters]. *)
Definition matches (f : filters.t) (h : hotel.t) : bool :=
  if truthy (filters.macroZone f)
  then String.eqb (hotel.macroZone h) (filters.macroZone f)
  else true.

Definition countText (count : nat) : string :=
  numberToString (Z.of_nat count) ++ " "
  ++ (if (count =? 1)%nat then "hotel encontrado" else "hoteles encontrados").

Definition mailto (h : hotel.t) : list Part :=
  [Lit "<a href=~mailto:info@boutique-me.cl?subject=Consulta de disponibilidad: ";
   uriEncoded Name Attribute (hotel.name h);
   Lit "&body=Hola, quisiera consultar la disponibilidad para el hotel ";
   uriEncoded Name Attribute (hotel.name h);
   Lit ".~ class=~cta-button~>Consultar disponibilidad</a>"].

(** [createHotelCard] *)
Definition createHotelCard (h : hotel.t) : list Part :=
  ([Lit "<div class=~hotel-image~><img src=~data:image/svg+xml,%3Csvg xmlns='http://www.w3.org/2000/svg' width='800' height='600'%3E%3C/svg%3E~ data-src=~";
    raw Image Attribute (hotel.image h);
    Lit "~ alt=~";
    escaped Name Attribute (hotel.name h);
    Lit "~ loading=~lazy~></div><div class=~hotel-content~><h3 id=~hotel-name-";
    raw Id Attribute (hotel.id h);
    Lit "~ class=~hotel-name~>";
    escaped Name Content (hotel.name h);
    Lit "</h3><p class=~hotel-location~>";
    escaped Location Content (hotel.location h);
    Lit "</p><p class=~hotel-description~>";
    Interp Description Content HtmlEscaped
           (substringTo 100 (escapeHtml (hotel.description h)));
    Lit "...</p><div class=~hotel-footer~><div class=~hotel-price~>$";
    raw Rate Content (toLocaleString (hotel.nightlyRate h));
    Lit "<span class=~hotel-price-label~>USD por noche</span></div>"]
   ++ mailto h
   ++ [Lit "</div></div>"])%list.

(** The star line of the overlay; the rating is rounded. *)
Definition stars (rating : Z) : completion string :=
  if (rating <? 0)%Z || (5 <? rating)%Z then Throw RangeError
  else Normal (repeatString "★" (Z.to_nat rating)
               ++ repeatString "☆" (Z.to_nat (5 - rating))).

(** The markup [openModal] assigns to the overlay body. *)
Definition modalMarkup (h : hotel.t) : completion (list Part) :=
  match stars (hotel.rating h) with
  | Throw e => Throw e
  | Normal st =>
      match hotel.nearbyAttractions h with
      | None => Throw TypeError
      | Some l =>
          Normal
            ([Lit "<h2>";
              escaped Name Content (hotel.name h);
              Lit "</h2><img src=~";
              raw Image Attribute (hotel.image h);
              Lit "~ alt=~";
              escaped Name Attribute (hotel.name h);
              Lit "~ style=~width:100%; border-radius: var(--radius-md); margin-bottom: var(--space-md);~><p><strong>Ubicación:</strong> ";
              escaped Location Content (hotel.location h);
              Lit "</p><p>";
              escaped Description Content (hotel.description h);
              Lit "</p><p><strong>Lugares fantásticos cerca:</strong></p><ul>"]
             ++ flat_map (fun attr => [Lit "<li>"; escaped Attraction Content attr; Lit "</li>"]) l
             ++ [Lit "</ul><p><strong>Precio:</strong> $";
                 raw Rate Content (toLocaleString (hotel.nightlyRate h));
                 Lit " USD por noche</p><p><strong>Rating:</strong> ";
                 raw Rating Content st;
                 Lit " (";
                 raw Rating Content (numberToString (hotel.rating h));
                 Lit "/5)</p>"]
             ++ mailto h)%list
      end
  end.

(** [renderHotels] *)
Definition renderHotels (s : App) : App :=
  let count := length (filteredHotels s) in
  let header := countText count in
  if (count =? 0)%nat
  then mkApp (hotels s) (filteredHotels s) (filters s) header false []
             (modalBody s) (modalHidden s)
  else mkApp (hotels s) (filteredHotels s) (filters s) header true
             (map createHotelCard (filteredHotels s))
             (modalBody s) (modalHidden s).

(** [applyFilters]; the callback never raises, so [filter] is the plain
    selection of the records it accepts, in order. *)
Definition applyFilters (s : App) : App :=
  renderHotels
    (mkApp (hotels s) (List.filter (matches (filters s)) (hotels s))
           (filters s) (resultsCount s) (emptyStateHidden s) (hotelsGrid s)
           (modalBody s) (modalHidden s)).

(** A click on a zone button; the button [Todos] clears the zone. *)
Definition onZoneClick (zone : string) (s : App) : App :=
  applyFilters
    (mkApp (hotels s) (filteredHotels s)
           (filters.make (if String.eqb zone "Todos" then EmptyString else zone))
           (resultsCount s) (emptyStateHidden s) (hotelsGrid s)
           (modalBody s) (modalHidden s)).


(** [init] after a successful load. *)
Definition init (body : list hotel.t) (s : App) : App :=
  applyFilters
    (mkApp body body (filters s) (resultsCount s) (emptyStateHidden s)
           (hotelsGrid s) (modalBody s) (modalHidden s)).

(** [renderMacroZonas]: the labels of the zone buttons, in order. *)
Definition zoneButtons (s : App) : list string :=
  "Todos" :: setOf (map hotel.macroZone (hotels s)).


End Simple.

(** ** Lazy image loading

    Both variants create one [IntersectionObserver] with the same
    callback.  Image elements are named by numbers.  The host side is
    written after the interface of [IntersectionObserver]: at every
    frame it hands the callback one entry for each watched target whose
    intersection state has changed since the entry it last produced for
    it (a target watched for the first time always gets one), where a
    target intersects when it overlaps the viewport grown by the
    [rootMargin] of the observer.  [step] and [run] describe a host
    that has [IntersectionObserver]; [react] and [play] describe both
    kinds of host, the one without it included, where
    [setupImageObserver] creates nothing and [createHotelCard] loads
    the image of every card it builds. *)

Module Lazy.

Record Entry : Type := mkEntry {
  target : nat;
  isIntersecting : bool
}.

Record Page : Type := mkPage {
  dataSrc : nat → string;
  observed : list nat;
  lastSeen : gmap nat bool;
  requests : list nat
}.

(** [loadImage]: starts the request for the real source. *)
Definition loadImage (img : nat) (p : Page) : Page :=
  if truthy (dataSrc p img)
  then mkPage (dataSrc p) (observed p) (lastSeen p) (requests p ++ [img])
  else p.

(** [imageObserver.unobserve(img)] *)
Definition unobserve (img : nat) (p : Page) : Page :=
  mkPage (dataSrc p) (List.filter (fun j => negb (j =? img)%nat) (observed p))
         (delete img (lastSeen p)) (requests p).

(** [imageObserver.observe(img)] *)
Definition observe (img : nat) (p : Page) : Page :=
  if existsb (Nat.eqb img) (observed p) then p
  else mkPage (dataSrc p) (observed p ++ [img]) (delete img (lastSeen p))
              (requests p).

(** The callback given to the observer. *)
Definition onIntersection (entries : list Entry) (p : Page) : Page :=
  fold_left
    (fun q entry =>
       if isIntersecting entry
       then unobserve (target entry) (loadImage (target entry) q)
       else q)
    entries p.

(** The entries the host produces at a frame in which [within] tells
    the targets that intersect. *)
Definition pendingEntries (within : nat → bool) (p : Page) : list Entry :=
  flat_map
    (fun j =>
       match lastSeen p !! j with
       | Some b => if Bool.eqb b (within j) then [] else [mkEntry j (within j)]
       | None => [mkEntry j (within j)]
       end)
    (observed p).

Definition recordEntries (entries : list Entry) (p : Page) : Page :=
  mkPage (dataSrc p) (observed p)
         (fold_left (fun m e => <[target e := isIntersecting e]> m) entries (lastSeen p))
         (requests p).

Definition frame (within : nat → bool) (p : Page) : Page :=
  let entries := pendingEntries within p in
  onIntersection entries (recordEntries entries p).

Inductive Step :=
  | Observe (img : nat)
  | Frame (within : nat → bool).

Definition step (s : Step) (p : Page) : Page :=
  match s with
  | Observe img => observe img p
  | Frame within => frame within p
  end.

Definition run (steps : list Step) (p : Page) : Page :=
  fold_left (fun q s => step s q) steps p.

(** Number of requests started for [img]. *)
Definition requestCount (img : nat) (p : Page) : nat :=
  length (List.filter (Nat.eqb img) (requests p)).

(** Whether some frame of [steps] finds [img] intersecting. *)
Definition everWithin (img : nat) (steps : list Step) : bool :=
  existsb (fun s => match s with Frame within => within img | Observe _ => false end) steps.

(** Whether [steps] registers [img] with the observer. *)
Definition registers (img : nat) (steps : list Step) : bool :=
  existsb (fun s => match s with Observe j => (j =? img)%nat | Frame _ => false end) steps.

(** How many times [img] is on the watch list. *)
Definition watchCount (img : nat) (p : Page) : nat :=
  length (List.filter (Nat.eqb img) (observed p)).

(** How many entries report [img] as intersecting. *)
Definition hits (img : nat) (entries : list Entry) : nat :=
  length (List.filter (fun e => isIntersecting e && (target e =? img)%nat) entries).

(** Whether the host last reported [img] as intersecting. *)
Definition seenIntersecting (img : nat) (p : Page) : bool :=
  match lastSeen p !! img with
  | Some true => true
  | _ => false
  end.

(** The end of [createHotelCard]: the image of the new card is
    registered when [setupImageObserver] has created an observer, and
    loaded at once otherwise. *)
Definition attach (observer : bool) (img : nat) (p : Page) : Page :=
  if observer then observe img p else loadImage img p.

(** What happens to a page on either kind of host: a card is built
    around an image, or the host renders a frame. *)
Inductive Event :=
  | Card (img : nat)
  | Paint (within : nat → bool).

(** Without an observer no callback exists for a frame to call. *)
Definition react (observer : bool) (e : Event) (p : Page) : Page :=
  match e with
  | Card img => attach observer img p
  | Paint within => if observer then frame within p else p
  end.

Definition play (observer : bool) (events : list Event) (p : Page) : Page :=
  fold_left (fun q e => react observer e q) events p.

(** How many cards [events] builds around [img]. *)
Definition cards (img : nat) (events : list Event) : nat :=
  length (List.filter
            (fun e => match e with Card j => (img =? j)%nat | Paint _ => false end)
            events).

End Lazy.

(** ** The specification's reading of the engine

    The definitions of this module follow the words of the
    specification; the properties below compare them with the code. *)

Module Spec.

(** [sub] occurs in [s] as a contiguous run of characters. *)
Definition substringOf (sub s : string) : Prop :=
  ∃ pre post, s = pre ++ sub ++ post.

(** Name, location, region, description and nearby attractions, all
    lowercased, one after the other with nothing in between. *)
Definition concatenation (h : hotel.t) : string :=
  toLowerCase (hotel.name h) ++ toLowerCase (hotel.location h)
  ++ toLowerCase (hotel.region h) ++ toLowerCase (hotel.description h)
  ++ fold_right (fun attr acc => toLowerCase attr ++ acc) EmptyString
       (default [] (hotel.nearbyAttractions h)).

(** The same texts separated by single spaces. *)
Definition spacedText (h : hotel.t) : string :=
  toLowerCase (hotel.name h) ++ " " ++ toLowerCase (hotel.location h)
  ++ " " ++ toLowerCase (hotel.region h) ++ " "
  ++ toLowerCase (hotel.description h)
  ++ fold_right (fun attr acc => " " ++ toLowerCase attr ++ acc) EmptyString
       (default [] (hotel.nearbyAttractions h)).

(** The amenities of a record as a set; a record without the property
    has none. *)
Definition amenitySet (h : hotel.t) : gset string :=
  list_to_set (default [] (hotel.amenities h)).

Definition passesSearch (f : Full.filters.t) (h : hotel.t) : Prop :=
  Full.filters.search f = EmptyString
  ∨ substringOf (Full.filters.search f) (spacedText h).

Definition passesRegion (f : Full.filters.t) (h : hotel.t) : Prop :=
  Full.filters.region f = EmptyString
  ∨ hotel.region h = Full.filters.region f.

Definition passesPrice (f : Full.filters.t) (h : hotel.t) : Prop :=
  (hotel.nightlyRate h ≤ Full.filters.maxPrice f)%Z.

Definition passesAmenities (f : Full.filters.t) (h : hotel.t) : Prop :=
  Full.filters.amenities f ⊆ amenitySet h.

(** Whether the filter callback accepts a record. *)
Definition accepts (f : Full.filters.t) (h : hotel.t) : bool :=
  match Full.matches f h with
  | Normal true => true
  | _ => false
  end.

(** The record with a missing list of attractions made empty. *)
Definition fillAttractions (h : hotel.t) : hotel.t :=
  hotel.make (hotel.id h) (hotel.name h) (hotel.region h) (hotel.macroZone h)
             (hotel.location h) (hotel.description h) (hotel.nightlyRate h)
             (hotel.rating h) (hotel.rooms h) (hotel.image h) (hotel.amenities h)
             (Some (default [] (hotel.nearbyAttractions h))).

(** The record with a missing list of amenities made empty. *)
Definition fillAmenities (h : hotel.t) : hotel.t :=
  hotel.make (hotel.id h) (hotel.name h) (hotel.region h) (hotel.macroZone h)
             (hotel.location h) (hotel.description h) (hotel.nightlyRate h)
             (hotel.rating h) (hotel.rooms h) (hotel.image h)
             (Some (default [] (hotel.amenities h)))
             (hotel.nearbyAttractions h).

(** A record that carries the properties the code reads without a
    guard. *)
Definition hasAmenities (h : hotel.t) : Prop :=
  is_Some (hotel.amenities h).

(** A record on which the filter callback reads no missing
    [amenities]: the record carries the property, or no amenity is
    required, or the record is rejected by the search, region or price
    constraint, which the callback tests first. *)
Definition readable (f : Full.filters.t) (h : hotel.t) : Prop :=
  hasAmenities h ∨ Full.filters.amenities f = ∅
  ∨ ¬ (passesSearch f h ∧ passesRegion f h ∧ passesPrice f h).

(** The texts of a record that a search looks into. *)
Definition searchedFields (h : hotel.t) : list string :=
  ([hotel.name h; hotel.location h; hotel.region h; hotel.description h]
   ++ default [] (hotel.nearbyAttractions h))%list.

(** A record of which the full variant can build the card: it carries
    [amenities] and its rating is between 0 and 5. *)
Definition renderable (h : hotel.t) : Prop :=
  hasAmenities h ∧ (0 ≤ hotel.rating h ≤ 5)%Z.

(** The record fields the specification names as text to be escaped. *)
Definition dataText (src : Source) : bool :=
  match src with
  | Id | Name | Location | Description | AmenityTag | Attraction | Image => true
  | Rating | Rate | Rooms | AmenityOverflow => false
  end.

Definition isHtmlEscaped (enc : Encoding) : bool :=
  match enc with HtmlEscaped => true | _ => false end.

(** Every substitution of such a field goes through [escapeHtml]. *)
Definition allEscaped (parts : list Part) : bool :=
  forallb
    (fun p => match p with
              | Interp src _ enc _ => implb (dataText src) (isHtmlEscaped enc)
              | Lit _ => true
              end)
    parts.

(** A part that, when it substitutes one of these fields into element
    content, does so through [escapeHtml] and carries no character that
    opens a tag. *)
Definition ContentSafe (p : Part) : Prop :=
  ∀ src enc text,
    p = Interp src Content enc text → dataText src = true →
    enc = HtmlEscaped ∧ includes text "<" = false.

(** The markup of a card of the full variant, empty when building it
    raises. *)
Definition fullCard (h : hotel.t) : list Part :=
  match Full.createHotelCard h with
  | Normal parts => parts
  | Throw _ => []
  end.

(** The markup of the overlay, empty when building it raises. *)
Definition overlay (h : hotel.t) : list Part :=
  match Simple.modalMarkup h with
  | Normal parts => parts
  | Throw _ => []
  end.

(** The configuration held by the engine once the handler of an input
    has returned. *)
Definition committed (i : Full.Input) (f : Full.filters.t) : Full.filters.t :=
  match i with
  | Full.SearchInput _ => f
  | Full.PriceInput v =>
      Full.filters.make (Full.filters.search f) (Full.filters.region f) v
                        (Full.filters.amenities f)
  end.


(** The timer id the engine remembers for a channel. *)
Definition channelTimer (c : Full.Callback) (r : Full.Runtime) : option nat :=
  match c with
  | Full.SearchCallback => Full.searchDebounceTimer r
  | Full.FilterCallback => Full.filterDebounceTimer r
  end.

(** The state between an input of a burst and the next event: one timer
    is armed, for the channel of the burst, due one window after the
    input, and nothing has been recomputed since the burst began in
    configuration [f0] with the log [log]. *)
Definition Armed (c : Full.Callback) (f0 : Full.filters.t)
  (log : list Full.filters.t) (latest : Full.Input) (st : Full.Runtime) : Prop :=
  Full.channelCallback latest = c
  ∧ (∃ tid, Full.timers st
            = [Full.mkTimer tid (Full.clock st + Full.window c) c]
            ∧ channelTimer c st = Some tid)
  ∧ Full.recomputations st = log
  ∧ Full.filters (Full.app st) = committed latest f0
  ∧ (∀ v, latest = Full.SearchInput v → Full.searchInputValue st = v).

(** The three phrasings of the result header. *)
Definition noResults : string := "No se encontraron hoteles".
Definition singular : string := "1 hotel encontrado".
Definition plural (count : nat) : string :=
  numberToString (Z.of_nat count) ++ " hoteles encontrados".

End Spec.

(** ** Sample records and configurations *)

Module Sample.

Definition lodge (name location description : string) (rate : Z)
  (amenities attractions : option (list string)) : hotel.t :=
  hotel.make "lodge-1" name "Atacama" "Norte" location description rate 5 12
             "lodge.jpg" amenities attractions.

(** A record whose description alone mentions the Andes. *)
Definition andean : hotel.t :=
  lodge "Casa Real" "San Pedro" "Vista a los Andes" 300
        (Some ["spa"; "wifi"]) (Some ["Valle de la Luna"]).

(** Three records priced 100, 300 and 500. *)
Definition priced (rate : Z) : hotel.t :=
  lodge "Casa Real" "San Pedro" "Vista a los Andes" rate
        (Some ["spa"; "wifi"]) None.

(** A record named Casa and located at Real. *)
Definition casaReal : hotel.t :=
  lodge "Casa" "Real" "Refugio" 300 (Some []) None.

(** A record whose zone and region differ. *)
Definition twoNames : hotel.t :=
  hotel.make "lodge-2" "Casa Real" "Atacama" "Norte" "San Pedro" "Refugio"
             300 5 12 "lodge.jpg" (Some []) None.

(** Two records whose zone and region agree. *)
Definition north : hotel.t :=
  hotel.make "north-1" "Uno" "Norte" "Norte" "Arica" "Playa" 200 4 8
             "north.jpg" (Some ["wifi"]) None.

Definition south : hotel.t :=
  hotel.make "south-1" "Dos" "Sur" "Sur" "Puerto Varas" "Lago" 900 5 20
             "south.jpg" None None.

(** A record whose texts hold markup. *)
Definition hostile : hotel.t :=
  hotel.make "<u>" "<b>Casa</b>" "Atacama" "Norte" "<i>" "a & b <s>" 300 5 12
             "<img>" (Some ["<spa>"]) (Some ["<em>"]).

(** A record without [amenities] and without [nearbyAttractions]. *)
Definition bare : hotel.t :=
  lodge "Casa Real" "San Pedro" "Vista a los Andes" 300 None None.

(** A record that costs more than the default price ceiling. *)
Definition costly : hotel.t :=
  lodge "Gran Lujo" "Torres del Paine" "Suite" 3000 (Some ["spa"]) None.

(** A record above the default price ceiling, without [amenities]. *)
Definition costlyBare : hotel.t :=
  lodge "Gran Lujo" "Torres del Paine" "Suite" 3000 None None.

(** A record whose name is written in capitals, with a letter outside
    the Basic Latin block. *)
Definition vineyard : hotel.t :=
  lodge "VIÑA Vik" "Millahue" "Entre cerros" 900 (Some ["wine-tasting"]) None.

Definition onlyAmenities (required : gset string) : Full.filters.t :=
  Full.filters.make EmptyString EmptyString 2500 required.

Definition onlySearch (value : string) : Full.filters.t :=
  Full.filters.make (trim (toLowerCase value)) EmptyString 2500 ∅.

Definition onlyPrice (maxPrice : Z) : Full.filters.t :=
  Full.filters.make EmptyString EmptyString maxPrice ∅.

Definition appWith (records : list hotel.t) (f : Full.filters.t) : Full.App :=
  Full.setFilters f
    (Full.setHotels records (Full.construct EmptyString true true)).

(** A state in which spa has just been required while the subset on
    screen is still the one of an earlier recomputation. *)
Definition stale : Full.App :=
  Full.setFilteredHotels [bare]
    (appWith [andean; bare] (onlyAmenities {[ "spa" ]})).

Definition simpleWith (records : list hotel.t) (zone : string) : Simple.App :=
  Simple.mkApp records records (Simple.filters.make zone) EmptyString true []
               [] true.

(** A record with seven amenities and a long description. *)
Definition wellEquipped : hotel.t :=
  hotel.make "lodge-7" "Gran Casa" "Los Lagos" "Sur" "Puerto Varas"
             "Un refugio frente al lago con vistas a los volcanes, cocina de autor, sala de lectura y excursiones guiadas <todo el año> & mucho más."
             450 5 20 "gran.jpg"
             (Some ["spa"; "wifi"; "pool"; "library"; "kayaking"; "hiking";
                    "sea-view"])
             (Some ["Volcán Osorno"]).

(** A runtime of the full variant at rest, and two bursts. *)
Definition atRest : Full.Runtime :=
  Full.mkRuntime (appWith [andean; costly] Full.defaultFilters) EmptyString
                 "$2,500" None None [] 0 0 [].

Definition typing : list (nat * Full.Input) :=
  [(0, Full.SearchInput "A"); (120, Full.SearchInput "An");
   (299, Full.SearchInput "And"); (50, Full.SearchInput " Andes ")].


(** The runtime after lago has been searched for, with a search box
    that now holds a blank, a no-break space and a tab. *)
Definition blankBox : Full.Runtime :=
  Full.mkRuntime (appWith [andean; costly] (onlySearch "lago"))
                 (" " ++ nbsp ++ String (ascii_of_N 9) EmptyString)
                 "$2,500" None None [] 0 0 [].

(** A page on which image 3 has no source. *)
Definition sourcelessPage : Lazy.Page :=
  Lazy.mkPage (fun i => if (i =? 3)%nat then EmptyString else "lodge.jpg") [] ∅ [].

(** Typing and dragging at the same time. *)
Definition mixed : list Full.Event :=
  [Full.Arrive (Full.SearchInput "an"); Full.Elapse 100;
   Full.Arrive (Full.PriceInput 400); Full.Elapse 100;
   Full.Arrive (Full.SearchInput "andes"); Full.Elapse 60;
   Full.Arrive (Full.PriceInput 250)].

(** Cards are built around images 3 and 7, the page is scrolled, and
    cards are built around the two images once more. *)
Definition scrolling : list Lazy.Event :=
  [Lazy.Card 3; Lazy.Card 7; Lazy.Paint (fun _ => false);
   Lazy.Paint (Nat.eqb 3); Lazy.Card 3; Lazy.Card 7;
   Lazy.Paint (fun _ => true)].

(** A page on which nothing is watched yet. *)
Definition blankPage : Lazy.Page :=
  Lazy.mkPage (fun _ => "lodge.jpg") [] ∅ [].

(** Image 3 leaves and enters the margin several times while another
    image is registered. *)
Definition toggling : list Lazy.Step :=
  [Lazy.Frame (fun _ => false); Lazy.Frame (Nat.eqb 3); Lazy.Observe 7;
   Lazy.Frame (fun _ => false); Lazy.Frame (fun _ => true);
   Lazy.Frame (fun _ => false); Lazy.Frame (Nat.eqb 3)].

End Sample.

(** ** Measures used by the further properties *)

Module Measure.

(** Every character of [s] satisfies [p]. *)
Fixpoint allChars (p : ascii → bool) (s : string) : bool :=
  match s with
  | EmptyString => true
  | String c t => p c && allChars p t
  end.

(** A string of whole characters up to U+017F, the range on which the
    case mappings are written out. *)
Definition latin (s : string) : bool :=
  wellFormed s && allChars (fun c => (code c <? 198)%N) s.

(** The characters of one byte that [escapeHtml] rewrites. *)
Definition special (c : ascii) : bool :=
  Ascii.eqb c "&" || Ascii.eqb c "<" || Ascii.eqb c ">".

(** The entity [escapeHtml] writes for such a character. *)
Definition entity (c : ascii) : string :=
  if Ascii.eqb c "&" then "&amp;"
  else if Ascii.eqb c "<" then "&lt;" else "&gt;".

(** The four ways a text is escaped, by the character it begins with:
    nothing for the empty text, an entity for a special character and
    for a no-break space, and the character itself otherwise. *)
Inductive Escaping (text : string) : Prop :=
  | EscEmpty : text = EmptyString → Escaping text
  | EscSpecial c t :
      text = String c t → special c = true →
      escapeHtml text = entity c ++ escapeHtml t → Escaping text
  | EscNbsp c d u :
      text = String c (String d u) → special c = false →
      isWhiteSpace2 c d = true →
      escapeHtml text = "&nbsp;" ++ escapeHtml u → Escaping text
  | EscPlain c t :
      text = String c t → special c = false →
      match t with
      | String d _ => isWhiteSpace2 c d
      | EmptyString => false
      end = false →
      escapeHtml text = String c (escapeHtml t) → Escaping text.

(** The texts of the substitutions of [parts] that come from [src]. *)
Definition textsFrom (src : Source) (parts : list Part) : list string :=
  flat_map
    (fun p => match p with
              | Interp src' _ _ text =>
                  match src, src' with
                  | AmenityTag, AmenityTag | AmenityOverflow, AmenityOverflow
                  | Description, Description | Attraction, Attraction => [text]
                  | _, _ => []
                  end
              | Lit _ => []
              end)
    parts.

(** One configuration filters at least as much as another: its search
    text contains the other's, it names the same region or the other
    names none, its ceiling is not higher and it requires at least the
    same amenities. *)
Definition narrows (f' f : Full.filters.t) : Prop :=
  Spec.substringOf (Full.filters.search f) (Full.filters.search f')
  ∧ (Full.filters.region f = EmptyString
     ∨ Full.filters.region f = Full.filters.region f')
  ∧ (Full.filters.maxPrice f' ≤ Full.filters.maxPrice f)%Z
  ∧ Full.filters.amenities f ⊆ Full.filters.amenities f'.

(** The timer table and the two remembered ids agree: ids are fresh
    and distinct, and an armed timer belongs to a channel exactly when
    its id is the one the engine remembers for that channel. *)
Definition timersConsistent (r : Full.Runtime) : Prop :=
  NoDup (map Full.timerId (Full.timers r))
  ∧ (∀ n, Full.searchDebounceTimer r = Some n → n < Full.nextTimerId r)
  ∧ (∀ n, Full.filterDebounceTimer r = Some n → n < Full.nextTimerId r)
  ∧ Forall (fun t =>
              Full.timerId t < Full.nextTimerId r
              ∧ (Full.callback t = Full.SearchCallback
                 ↔ Full.searchDebounceTimer r = Some (Full.timerId t))
              ∧ (Full.callback t = Full.FilterCallback
                 ↔ Full.filterDebounceTimer r = Some (Full.timerId t)))
           (Full.timers r).

(** The timers of [r'] are among those of [r] and nothing else that
    concerns timers differs. *)
Definition shrinks (r r' : Full.Runtime) : Prop :=
  Full.nextTimerId r' = Full.nextTimerId r
  ∧ Full.searchDebounceTimer r' = Full.searchDebounceTimer r
  ∧ Full.filterDebounceTimer r' = Full.filterDebounceTimer r
  ∧ sublist (Full.timers r') (Full.timers r).

(** A list of strings in ascending order of their code units. *)
Fixpoint Ascending (l : list string) : Prop :=
  match l with
  | [] => True
  | x :: t => Forall (fun y => String.leb x y = true) t ∧ Ascending t
  end.

(** Two states of the full variant that differ at most in the texts
    handed to the live region. *)
Definition sameView (a b : Full.App) : Prop :=
  Full.hotels a = Full.hotels b
  ∧ Full.filteredHotels a = Full.filteredHotels b
  ∧ Full.filters a = Full.filters b
  ∧ Full.resultsCount a = Full.resultsCount b
  ∧ Full.emptyStateHidden a = Full.emptyStateHidden b
  ∧ Full.loadingHidden a = Full.loadingHidden b
  ∧ Full.hotelsGrid a = Full.hotelsGrid b.

End Measure.

(** * Properties *)

(** ** Strings and arrays *)

Lemma string_app_cons (c : ascii) (a b : string) :
  String c a ++ b = String c (a ++ b).
Proof. reflexivity. Qed.

Lemma string_app_nil_l (a : string) : EmptyString ++ a = a.
Proof. reflexivity. Qed.

Lemma string_app_nil_r (a : string) : a ++ EmptyString = a.
Proof.
  induction a as [|c a IH]; [done|]. by rewrite string_app_cons, IH.
Qed.

Lemma string_app_assoc (a b c : string) : (a ++ b) ++ c = a ++ b ++ c.
Proof.
  induction a as [|x a IH]; [done|]. by rewrite !string_app_cons, IH.
Qed.

Lemma length_string_app (a b : string) :
  String.length (a ++ b) = String.length a + String.length b.
Proof.
  induction a as [|c a IH]; [done|]. rewrite string_app_cons. simpl. by rewrite IH.
Qed.

(** Induction on the length of a string, for the functions that read
    several bytes at a time. *)
Lemma string_length_ind (P : string → Prop) :
  (∀ s, (∀ t, (String.length t < String.length s)%nat → P t) → P s) →
  ∀ s, P s.
Proof.
  intros step s.
  assert (∀ n t, (String.length t < n)%nat → P t) as H.
  { induction n as [|n IH]; intros t Ht; [lia|].
    apply step. intros u Hu. apply IH. lia. }
  apply (H (S (String.length s))). lia.
Qed.

Lemma includes_char_cons (c x : ascii) (t : string) :
  includes (String x t) (String c EmptyString)
  = Ascii.eqb c x || includes t (String c EmptyString).
Proof. simpl. by rewrite andb_true_r. Qed.

Lemma includes_char_app (c : ascii) (a b : string) :
  includes (a ++ b) (String c EmptyString)
  = includes a (String c EmptyString) || includes b (String c EmptyString).
Proof.
  induction a as [|x a IH].
  - rewrite string_app_nil_l. simpl. reflexivity.
  - rewrite string_app_cons, !includes_char_cons, IH. by rewrite orb_assoc.
Qed.

Lemma allChars_app (p : ascii → bool) (a b : string) :
  Measure.allChars p (a ++ b) = Measure.allChars p a && Measure.allChars p b.
Proof.
  induction a as [|c a IH]; [done|].
  rewrite string_app_cons. simpl. by rewrite IH, andb_assoc.
Qed.

Lemma allChars_excludes (c : ascii) (s : string) :
  Measure.allChars (fun x => negb (Ascii.eqb c x)) s = true
  ↔ includes s (String c EmptyString) = false.
Proof.
  induction s as [|x s IH]; [done|].
  rewrite includes_char_cons. cbn [Measure.allChars].
  rewrite andb_true_iff, orb_false_iff, negb_true_iff, IH. tauto.
Qed.

Lemma allChars_substring (p : ascii → bool) (a b : nat) (s : string) :
  Measure.allChars p s = true → Measure.allChars p (substring a b s) = true.
Proof.
  revert a b. induction s as [|c s IH]; intros a b H.
  - by destruct a, b.
  - cbn [Measure.allChars] in H. apply andb_true_iff in H as [Hc Hs].
    destruct a as [|a]; [destruct b as [|b]; [done|]|]; cbn [substring].
    + cbn [Measure.allChars]. by rewrite Hc, IH.
    + by apply IH.
Qed.

(** *** Bytes and characters *)

Lemma code_eq (c : ascii) (n : N) :
  (code c =? n)%N = true → c = ascii_of_N n.
Proof.
  intros H. apply N.eqb_eq in H. unfold code in H.
  by rewrite <- H, ascii_N_embedding.
Qed.

Lemma high_byte (n : N) :
  (128 ≤ n < 256)%N → (128 <=? code (ascii_of_N n))%N = true.
Proof.
  intros H. unfold code. rewrite N_ascii_embedding by lia. apply N.leb_le. lia.
Qed.

Lemma high_mod (k : N) :
  (128 <=? code (ascii_of_N (128 + k mod 64)))%N = true.
Proof.
  apply high_byte. assert (k mod 64 < 64)%N as H by (by apply N.mod_lt).
  revert H. generalize (k mod 64)%N. intros m H. lia.
Qed.

Lemma ascii_not_lead (c : ascii) :
  (code c <? 128)%N = true → isLatinLead c = false.
Proof. destruct c as [[] [] [] [] [] [] [] []]; vm_compute; congruence. Qed.

Lemma continuation_not_lead (c : ascii) :
  isContinuation c = true → isLatinLead c = false.
Proof. destruct c as [[] [] [] [] [] [] [] []]; vm_compute; congruence. Qed.

Lemma lead_is_two_byte (c : ascii) :
  isLatinLead c = false ∨ between 194 223 (code c) = true.
Proof. destruct c as [[] [] [] [] [] [] [] []]; vm_compute; tauto. Qed.

Lemma whiteSpace2_bytes (c d : ascii) :
  isWhiteSpace2 c d = true → c = ascii_of_N 194 ∧ d = ascii_of_N 160.
Proof.
  unfold isWhiteSpace2. intros H. apply andb_true_iff in H as [Hc Hd].
  split; by apply code_eq.
Qed.

(** *** Lowercasing *)

Lemma toLowerCase_plain (c : ascii) (t : string) :
  isLatinLead c = false →
  toLowerCase (String c t) = String (lowerChar c) (toLowerCase t).
Proof. intros H. destruct t as [|d u]; cbn [toLowerCase]; by rewrite ?H. Qed.

Lemma toLowerCase_pair (c d : ascii) (u : string) :
  isLatinLead c = true → isContinuation d = true →
  toLowerCase (String c (String d u))
  = encodePoints (lowerPoint (point2 c d)) ++ toLowerCase u.
Proof. intros Hc Hd. cbn [toLowerCase]. by rewrite Hc, Hd. Qed.

(** Lowercasing goes through a concatenation whose first part is made
    of whole characters. *)
Lemma toLowerCase_app (a b : string) :
  wellFormed a = true →
  toLowerCase (a ++ b) = toLowerCase a ++ toLowerCase b.
Proof.
  induction a as [a IH] using string_length_ind. intros Hwf.
  destruct a as [|c t]; [done|].
  cbn [wellFormed] in Hwf.
  destruct (code c <? 128)%N eqn:H1.
  { rewrite string_app_cons, !toLowerCase_plain by (by apply ascii_not_lead).
    rewrite string_app_cons, IH; [done | simpl; lia | done]. }
  destruct (between 194 223 (code c)) eqn:H2.
  { destruct t as [|d u]; [done|]. apply andb_true_iff in Hwf as [Hd Hu].
    rewrite !string_app_cons.
    destruct (isLatinLead c) eqn:Hc.
    - rewrite !toLowerCase_pair by done.
      rewrite string_app_assoc, IH; [done | simpl; lia | done].
    - rewrite !(toLowerCase_plain c) by done.
      rewrite !(toLowerCase_plain d) by (by apply continuation_not_lead).
      rewrite !string_app_cons, IH; [done | simpl; lia | done]. }
  assert (isLatinLead c = false) as Hc.
  { destruct (lead_is_two_byte c) as [?|?]; congruence. }
  destruct (between 224 239 (code c)) eqn:H3.
  { destruct t as [|d [|e u]]; [done..|].
    apply andb_true_iff in Hwf as [Hwf Hu].
    apply andb_true_iff in Hwf as [Hd He].
    rewrite !string_app_cons.
    rewrite !(toLowerCase_plain c) by done.
    rewrite !(toLowerCase_plain d) by (by apply continuation_not_lead).
    rewrite !(toLowerCase_plain e) by (by apply continuation_not_lead).
    rewrite !string_app_cons, IH; [done | simpl; lia | done]. }
  destruct (between 240 244 (code c)) eqn:H4; [|done].
  destruct t as [|d [|e [|f u]]]; [done..|].
  apply andb_true_iff in Hwf as [Hwf Hu].
  apply andb_true_iff in Hwf as [Hwf Hf].
  apply andb_true_iff in Hwf as [Hd He].
  rewrite !string_app_cons.
  rewrite !(toLowerCase_plain c) by done.
  rewrite !(toLowerCase_plain d) by (by apply continuation_not_lead).
  rewrite !(toLowerCase_plain e) by (by apply continuation_not_lead).
  rewrite !(toLowerCase_plain f) by (by apply continuation_not_lead).
  rewrite !string_app_cons, IH; [done | simpl; lia | done].
Qed.

Lemma startsWith_spec (s sub : string) :
  startsWith s sub = true ↔ ∃ post, s = sub ++ post.
Proof.
  revert s. induction sub as [|a sub IH]; intros s; simpl.
  - split; [intros _; by exists s | done].
  - destruct s as [|b s]; simpl.
    + split; [done | intros [post H]; discriminate].
    + rewrite andb_true_iff, IH. split.
      * intros [Hab [post ->]]. apply Ascii.eqb_eq in Hab as ->. by exists post.
      * intros [post H]. rewrite string_app_cons in H. injection H as -> ->.
        split; [apply Ascii.eqb_refl | by exists post].
Qed.

Lemma includes_spec (s sub : string) :
  includes s sub = true ↔ Spec.substringOf sub s.
Proof.
  unfold Spec.substringOf.
  induction s as [|c s IH]; simpl.
  - rewrite orb_false_r, startsWith_spec. split.
    + intros [post H]. by exists EmptyString, post.
    + intros [pre [post H]]. destruct pre; [by exists post | discriminate].
  - rewrite orb_true_iff, startsWith_spec, IH. split.
    + intros [[post H] | [pre [post H]]].
      * by exists EmptyString, post.
      * exists (String c pre), post. by rewrite string_app_cons, H.
    + intros [pre [post H]]. destruct pre as [|c' pre].
      * left. by exists post.
      * right. rewrite string_app_cons in H. injection H as -> ->. by exists pre, post.
Qed.

Lemma truthy_false (s : string) : truthy s = false ↔ s = EmptyString.
Proof. destruct s; simpl; split; congruence. Qed.

Lemma arrayIncludes_spec (l : list string) (x : string) :
  arrayIncludes l x = true ↔ x ∈ l.
Proof.
  unfold arrayIncludes. rewrite existsb_exists. split.
  - intros [y [Hy Heq]]. apply String.eqb_eq in Heq as ->. by apply list_elem_of_In.
  - intros Hx. exists x. split; [by apply list_elem_of_In | apply String.eqb_refl].
Qed.

Lemma requiredAmenities_spec (l : list string) (X : gset string) :
  forallb (arrayIncludes l) (elements X) = true ↔ X ⊆ list_to_set l.
Proof.
  rewrite forallb_forall. split.
  - intros H x Hx. apply elem_of_list_to_set, arrayIncludes_spec, H.
    by apply list_elem_of_In, elem_of_elements.
  - intros H x Hx. apply arrayIncludes_spec.
    apply list_elem_of_In, elem_of_elements in Hx.
    apply H in Hx. by apply elem_of_list_to_set in Hx.
Qed.

Lemma size_zero_ltb (X : gset string) : (0 <? size X)%nat = false ↔ X = ∅.
Proof.
  rewrite Nat.ltb_ge. split.
  - intros H. apply leibniz_equiv, size_empty_iff. lia.
  - intros ->. by rewrite size_empty.
Qed.

Lemma join_space_cons (x : string) (l : list string) :
  join " " (x :: l) = x ++ fold_right (fun a acc => " " ++ a ++ acc) EmptyString l.
Proof.
  revert x. induction l as [|y l IH]; intros x.
  - simpl. by rewrite string_app_nil_r.
  - change (join " " (x :: y :: l)) with (x ++ " " ++ join " " (y :: l)).
    by rewrite IH.
Qed.

Lemma fold_spaced_map (l : list string) :
  fold_right (fun a acc => " " ++ a ++ acc) EmptyString (map toLowerCase l)
  = fold_right (fun attr acc => " " ++ toLowerCase attr ++ acc) EmptyString l.
Proof. induction l as [|a l IH]; simpl; [done | by rewrite IH]. Qed.

(** The text built by the search filter is the spaced text. *)
Lemma searchTerms_spacedText (h : hotel.t) :
  Full.searchTerms h = Spec.spacedText h.
Proof.
  unfold Full.searchTerms, Spec.spacedText.
  cbn [app]. rewrite join_space_cons. cbn [fold_right].
  by rewrite fold_spaced_map.
Qed.

(** ** The filter predicate *)

Lemma search_clause (f : Full.filters.t) (h : hotel.t) :
  truthy (Full.filters.search f)
  && negb (includes (Full.searchTerms h) (Full.filters.search f)) = false
  ↔ Spec.passesSearch f h.
Proof.
  unfold Spec.passesSearch. rewrite <- searchTerms_spacedText, <- includes_spec.
  rewrite andb_false_iff, negb_false_iff, truthy_false. tauto.
Qed.

Lemma region_clause (f : Full.filters.t) (h : hotel.t) :
  truthy (Full.filters.region f)
  && negb (String.eqb (hotel.region h) (Full.filters.region f)) = false
  ↔ Spec.passesRegion f h.
Proof.
  unfold Spec.passesRegion.
  rewrite andb_false_iff, negb_false_iff, truthy_false, String.eqb_eq. tauto.
Qed.

Lemma price_clause (f : Full.filters.t) (h : hotel.t) :
  (hotel.nightlyRate h >? Full.filters.maxPrice f)%Z = false
  ↔ Spec.passesPrice f h.
Proof. unfold Spec.passesPrice. rewrite Z.gtb_ltb, Z.ltb_ge. tauto. Qed.

Lemma matches_true_iff (f : Full.filters.t) (h : hotel.t) :
  Full.matches f h = Normal true
  ↔ Spec.passesSearch f h ∧ Spec.passesRegion f h
    ∧ Spec.passesPrice f h ∧ Spec.passesAmenities f h.
Proof.
  rewrite <- search_clause, <- region_clause, <- price_clause.
  unfold Full.matches, Spec.passesAmenities, Spec.amenitySet.
  destruct (truthy (Full.filters.search f) && _) eqn:Hs; [intuition congruence|].
  destruct (truthy (Full.filters.region f) && _) eqn:Hr; [intuition congruence|].
  destruct (hotel.nightlyRate h >? _)%Z eqn:Hp; [intuition congruence|].
  destruct (0 <? size (Full.filters.amenities f))%nat eqn:Hz.
  - destruct (hotel.amenities h) as [l|] eqn:Ha; simpl.
    + destruct (forallb _ _) eqn:Hall.
      * apply requiredAmenities_spec in Hall. naive_solver.
      * split; [done|]. intros (_ & _ & _ & Hsub).
        apply requiredAmenities_spec in Hsub. congruence.
    + split; [done|]. intros (_ & _ & _ & Hsub).
      apply Nat.ltb_lt in Hz.
      assert (Full.filters.amenities f = ∅) as Hempty by set_solver.
      rewrite Hempty, size_empty in Hz. lia.
  - apply size_zero_ltb in Hz. rewrite Hz. split; [|done].
    intros _. repeat split. set_solver.
Qed.

Lemma matches_total (f : Full.filters.t) (h : hotel.t) :
  Spec.hasAmenities h ∨ Full.filters.amenities f = ∅ →
  ∃ b, Full.matches f h = Normal b.
Proof.
  intros Hwf. unfold Full.matches.
  destruct (truthy (Full.filters.search f) && _); [by eexists|].
  destruct (truthy (Full.filters.region f) && _); [by eexists|].
  destruct (hotel.nightlyRate h >? _)%Z; [by eexists|].
  destruct (0 <? size (Full.filters.amenities f))%nat eqn:Hz; [|by eexists].
  destruct Hwf as [[l Hl] | Hempty].
  - rewrite Hl. destruct (forallb _ _); by eexists.
  - rewrite Hempty, size_empty in Hz. discriminate.
Qed.

Lemma matches_accepts (f : Full.filters.t) (h : hotel.t) :
  Spec.accepts f h = true ↔ Full.matches f h = Normal true.
Proof.
  unfold Spec.accepts. destruct (Full.matches f h) as [[|]|]; split; congruence.
Qed.

Lemma arrayFilter_total (f : Full.filters.t) (R : list hotel.t) :
  Forall Spec.hasAmenities R ∨ Full.filters.amenities f = ∅ →
  arrayFilter (Full.matches f) R = Normal (List.filter (Spec.accepts f) R).
Proof.
  intros Hwf. induction R as [|h R IH]; [done|].
  assert (Spec.hasAmenities h ∨ Full.filters.amenities f = ∅) as Hh.
  { destruct Hwf as [Hall | He]; [left; by inversion Hall | by right]. }
  assert (Forall Spec.hasAmenities R ∨ Full.filters.amenities f = ∅) as HR.
  { destruct Hwf as [Hall | He]; [left; by inversion Hall | by right]. }
  destruct (matches_total f h Hh) as [b Hb].
  simpl. unfold Spec.accepts at 1. rewrite Hb, (IH HR). by destruct b.
Qed.

Lemma filteredHotels_renderHotels (s : Full.App) :
  Full.filteredHotels (fst (Full.renderHotels s)) = Full.filteredHotels s.
Proof.
  unfold Full.renderHotels.
  destruct (length (Full.filteredHotels s) =? 0)%nat; [done|].
  by destruct (arrayMap Full.createHotelCard (Full.filteredHotels s)).
Qed.

Lemma filteredHotels_applyFilters (s : Full.App) (kept : list hotel.t) :
  arrayFilter (Full.matches (Full.filters s)) (Full.hotels s) = Normal kept →
  Full.filteredHotels (fst (Full.applyFilters s)) = kept.
Proof.
  intros H. unfold Full.applyFilters. rewrite H.
  by rewrite filteredHotels_renderHotels.
Qed.

Lemma sublist_List_filter {A : Type} (p : A → bool) (l : list A) :
  sublist (List.filter p l) l.
Proof.
  induction l as [|x l IH]; simpl; [constructor|].
  destruct (p x); by constructor.
Qed.

Lemma elem_of_List_filter {A : Type} (p : A → bool) (l : list A) (x : A) :
  x ∈ List.filter p l ↔ x ∈ l ∧ p x = true.
Proof. rewrite !list_elem_of_In. apply filter_In. Qed.

(** The callback completes exactly on the records it can read. *)
Lemma matches_readable (f : Full.filters.t) (h : hotel.t) :
  (Spec.readable f h ∧ ∃ b, Full.matches f h = Normal b)
  ∨ (¬ Spec.readable f h ∧ Full.matches f h = Throw TypeError).
Proof.
  unfold Spec.readable.
  rewrite <- search_clause, <- region_clause, <- price_clause.
  unfold Full.matches.
  destruct (truthy (Full.filters.search f) && _) eqn:Hs.
  { left. split; [|by eexists]. right; right. intros (H & _). congruence. }
  destruct (truthy (Full.filters.region f) && _) eqn:Hr.
  { left. split; [|by eexists]. right; right. intros (_ & H & _). congruence. }
  destruct (hotel.nightlyRate h >? _)%Z eqn:Hp.
  { left. split; [|by eexists]. right; right. intros (_ & _ & H). congruence. }
  destruct (0 <? size (Full.filters.amenities f))%nat eqn:Hz.
  - destruct (hotel.amenities h) as [l|] eqn:Ha.
    + left. split; [left; unfold Spec.hasAmenities; rewrite Ha; by eexists|].
      destruct (forallb _ _); by eexists.
    + right. split; [|done]. unfold Spec.hasAmenities. rewrite Ha.
      intros [[l Hl] | [He | Hno]]; [done | | by apply Hno].
      rewrite He, size_empty in Hz. discriminate.
  - left. split; [|by eexists]. right; left. by apply size_zero_ltb.
Qed.

(** The filtering step either completes on a set it can read, with the
    records the callback accepts, or raises on a set it cannot. *)
Lemma arrayFilter_outcome (f : Full.filters.t) (R : list hotel.t) :
  (Forall (Spec.readable f) R
   ∧ arrayFilter (Full.matches f) R = Normal (List.filter (Spec.accepts f) R))
  ∨ (¬ Forall (Spec.readable f) R
     ∧ arrayFilter (Full.matches f) R = Throw TypeError).
Proof.
  induction R as [|h R IH]; [left; by split|].
  cbn [arrayFilter List.filter]. unfold Spec.accepts at 1.
  destruct (matches_readable f h) as [[Hh [b Hb]] | [Hh Hb]]; rewrite Hb.
  - destruct IH as [[HR ->] | [HR ->]].
    + left. split; [by constructor | by destruct b].
    + right. split; [|done]. intros H. apply HR. by inversion H.
  - right. split; [|done]. intros H. apply Hh. by inversion H.
Qed.

Lemma simple_filteredHotels_renderHotels (s : Simple.App) :
  Simple.filteredHotels (Simple.renderHotels s) = Simple.filteredHotels s.
Proof.
  unfold Simple.renderHotels.
  by destruct (length (Simple.filteredHotels s) =? 0)%nat.
Qed.

(** C1 (amended). On a record set the filter callback can read (every
    record carries [amenities], or no amenity is required, or the
    records without [amenities] are rejected by the search, region or
    price constraint), [applyFilters] keeps exactly the records the
    callback accepts, in the order of the loaded set.  On any other set
    it raises a [TypeError] and leaves the state, the previous subset
    included, as it was.  The simplified variant, whose callback reads
    no optional property, keeps the accepted records on every set.
    Three records priced 100, 300 and 500 under a price ceiling of 300
    with nothing else active leave the first two, in order: the ceiling
    is inclusive. *)
Theorem applyFilters_selects_matching :
  (∀ s : Full.App,
     Forall (Spec.readable (Full.filters s)) (Full.hotels s) →
     let kept := Full.filteredHotels (fst (Full.applyFilters s)) in
     kept = List.filter (Spec.accepts (Full.filters s)) (Full.hotels s)
     ∧ sublist kept (Full.hotels s)
     ∧ ∀ h, h ∈ kept
            ↔ h ∈ Full.hotels s ∧ Full.matches (Full.filters s) h = Normal true)
  ∧ (∀ s : Full.App,
       ¬ Forall (Spec.readable (Full.filters s)) (Full.hotels s) →
       Full.applyFilters s = (s, Throw TypeError))
  ∧ (∀ s : Simple.App,
       let kept := Simple.filteredHotels (Simple.applyFilters s) in
       sublist kept (Simple.hotels s)
       ∧ ∀ h, h ∈ kept
              ↔ h ∈ Simple.hotels s ∧ Simple.matches (Simple.filters s) h = true)
  ∧ (∀ (s : Full.App) (h1 h2 h3 : hotel.t),
       Full.hotels s = [h1; h2; h3] →
       hotel.nightlyRate h1 = 100%Z → hotel.nightlyRate h2 = 300%Z →
       hotel.nightlyRate h3 = 500%Z →
       Full.filters s = Full.filters.make EmptyString EmptyString 300 ∅ →
       Full.filteredHotels (fst (Full.applyFilters s)) = [h1; h2]).
Proof.
  split; [|split; [|split]].
  - intros s Hwf kept. subst kept.
    destruct (arrayFilter_outcome (Full.filters s) (Full.hotels s))
      as [[_ Hkept] | [Hno _]]; [|done].
    rewrite (filteredHotels_applyFilters s _ Hkept).
    split; [done|]. split; [apply sublist_List_filter|].
    intros h. by rewrite elem_of_List_filter, matches_accepts.
  - intros s Hno.
    destruct (arrayFilter_outcome (Full.filters s) (Full.hotels s))
      as [[Hwf _] | [_ Hthrow]]; [done|].
    unfold Full.applyFilters. by rewrite Hthrow.
  - intros s kept. subst kept. unfold Simple.applyFilters.
    rewrite simple_filteredHotels_renderHotels. cbn [Simple.filteredHotels].
    split; [apply sublist_List_filter|].
    intros h. apply elem_of_List_filter.
  - intros s h1 h2 h3 HR H1 H2 H3 Hf.
    apply filteredHotels_applyFilters. rewrite HR, Hf.
    unfold arrayFilter, Full.matches. simpl. rewrite H1, H2, H3. reflexivity.
Qed.

Lemma applyFilters_selects_matching_witness :
  Forall (Spec.readable (Sample.onlyAmenities {[ "spa" ]}))
         [Sample.andean; Sample.costlyBare]
  ∧ Full.filteredHotels
      (fst (Full.applyFilters
              (Sample.appWith [Sample.andean; Sample.costlyBare]
                              (Sample.onlyAmenities {[ "spa" ]}))))
    = [Sample.andean]
  ∧ Full.filteredHotels
      (fst (Full.applyFilters
              (Sample.appWith [Sample.priced 100; Sample.priced 300; Sample.priced 500]
                              (Sample.onlyPrice 300))))
    = [Sample.priced 100; Sample.priced 300].
Proof.
  assert (Forall (Spec.readable (Sample.onlyAmenities {[ "spa" ]}))
                 [Sample.andean; Sample.costlyBare]) as Hwf.
  { apply Forall_cons_2; [|apply Forall_cons_2; [|apply Forall_nil_2]].
    - left. by eexists.
    - right; right. intros (_ & _ & Hp). unfold Spec.passesPrice in Hp.
      simpl in Hp. lia. }
  destruct applyFilters_selects_matching as (Hgen & _ & _ & Hex).
  split; [exact Hwf|]. split.
  - destruct (Hgen (Sample.appWith [Sample.andean; Sample.costlyBare]
                                   (Sample.onlyAmenities {[ "spa" ]}))
                   Hwf) as [Hkept _].
    etransitivity; [exact Hkept|]. vm_compute. reflexivity.
  - exact (Hex (Sample.appWith
                  [Sample.priced 100; Sample.priced 300; Sample.priced 500]
                  (Sample.onlyPrice 300))
               (Sample.priced 100) (Sample.priced 300) (Sample.priced 500)
               eq_refl eq_refl eq_refl eq_refl eq_refl).
Defined.

(** C1, as stated: with spa required, a set that holds a record with
    the tag and a record without [amenities] makes [applyFilters]
    raise; the subset it leaves is the previous one, which here holds
    the record the callback cannot read and misses the record it
    accepts. *)
Lemma applyFilters_stale_counterexample :
  Sample.andean ∈ Full.hotels Sample.stale
  ∧ Full.matches (Full.filters Sample.stale) Sample.andean = Normal true
  ∧ Full.applyFilters Sample.stale = (Sample.stale, Throw TypeError)
  ∧ Full.filteredHotels (fst (Full.applyFilters Sample.stale)) = [Sample.bare]
  ∧ ¬ (∀ h, h ∈ Full.filteredHotels (fst (Full.applyFilters Sample.stale))
            ↔ h ∈ Full.hotels Sample.stale
              ∧ Full.matches (Full.filters Sample.stale) h = Normal true).
Proof.
  assert (Sample.andean ∈ Full.hotels Sample.stale) as Hin by (by left).
  split; [exact Hin|]. split; [reflexivity|]. split; [reflexivity|].
  split; [reflexivity|].
  intros H. destruct (H Sample.andean) as [_ Hback].
  specialize (Hback (conj Hin eq_refl)).
  change (Sample.andean ∈ [Sample.bare]) in Hback.
  apply list_elem_of_singleton in Hback. discriminate.
Qed.

Lemma matches_false_iff (f : Full.filters.t) (h : hotel.t) :
  Spec.hasAmenities h →
  Full.matches f h = Normal false
  ↔ ¬ (Spec.passesSearch f h ∧ Spec.passesRegion f h
       ∧ Spec.passesPrice f h ∧ Spec.passesAmenities f h).
Proof.
  intros Hwf. rewrite <- matches_true_iff.
  destruct (matches_total f h (or_introl Hwf)) as [[|] Hb]; rewrite Hb.
  - split; [done | intros H; by destruct H].
  - split; [congruence | done].
Qed.

Lemma passesAmenities_superset (f : Full.filters.t) (h : hotel.t) (l : list string) :
  hotel.amenities h = Some l →
  Spec.passesAmenities f h ↔ ∀ a, a ∈ Full.filters.amenities f → a ∈ l.
Proof.
  intros Ha. unfold Spec.passesAmenities, Spec.amenitySet. rewrite Ha. simpl.
  split.
  - intros H a Hin. apply H in Hin. by apply elem_of_list_to_set in Hin.
  - intros H a Hin. apply elem_of_list_to_set. by apply H.
Qed.

(** C2. The filter callback returns true exactly when the record passes
    the search, region, price and amenity constraints together, and on
    a record that carries [amenities] it returns false exactly when one
    of them fails; the amenity constraint passes exactly when every
    required tag is among the record's tags.  With the tags spa and
    wifi, requiring spa, or spa and wifi, changes nothing to the
    outcome, and requiring spa and pool makes the callback return
    false. *)
Theorem matches_is_conjunction (f : Full.filters.t) (h : hotel.t) :
  (Full.matches f h = Normal true
   ↔ Spec.passesSearch f h ∧ Spec.passesRegion f h
     ∧ Spec.passesPrice f h ∧ Spec.passesAmenities f h)
  ∧ (∀ l, hotel.amenities h = Some l →
       (Full.matches f h = Normal false
        ↔ ¬ (Spec.passesSearch f h ∧ Spec.passesRegion f h
             ∧ Spec.passesPrice f h ∧ Spec.passesAmenities f h))
       ∧ (Spec.passesAmenities f h
          ↔ ∀ a, a ∈ Full.filters.amenities f → a ∈ l))
  ∧ (hotel.amenities h = Some ["spa"; "wifi"] →
     let requiring (required : gset string) :=
       Full.matches
         (Full.filters.make (Full.filters.search f) (Full.filters.region f)
                            (Full.filters.maxPrice f) required) h in
     requiring {[ "spa" ]} = requiring ∅
     ∧ requiring {[ "spa"; "wifi" ]} = requiring ∅
     ∧ requiring {[ "spa"; "pool" ]} = Normal false).
Proof.
  split; [apply matches_true_iff|]. split.
  - intros l Ha. split.
    + apply matches_false_iff. by exists l.
    + by apply passesAmenities_superset.
  - intros Ha requiring. subst requiring. unfold Full.matches. simpl.
    rewrite Ha.
    destruct (truthy (Full.filters.search f) && _); [done|].
    destruct (truthy (Full.filters.region f) && _); [done|].
    destruct (hotel.nightlyRate h >? _)%Z; [done|].
    repeat split.
Qed.

Lemma matches_is_conjunction_witness :
  hotel.amenities Sample.andean = Some ["spa"; "wifi"]
  ∧ Full.matches (Sample.onlyAmenities {[ "spa" ]}) Sample.andean = Normal true
  ∧ Full.matches (Sample.onlyAmenities {[ "spa"; "wifi" ]}) Sample.andean = Normal true
  ∧ Full.matches (Sample.onlyAmenities {[ "spa"; "pool" ]}) Sample.andean = Normal false.
Proof.
  split; [reflexivity|].
  destruct (matches_is_conjunction (Sample.onlyAmenities ∅) Sample.andean)
    as (_ & _ & Hex).
  destruct (Hex eq_refl) as (H1 & H2 & H3).
  split; [exact H1|]. split; [exact H2 | exact H3].
Defined.

Lemma substringOf_app_l (sub s pre : string) :
  Spec.substringOf sub s → Spec.substringOf sub (pre ++ s).
Proof.
  intros (a & b & ->). exists (pre ++ a), b. by rewrite string_app_assoc.
Qed.

Lemma substringOf_app_r (sub s post : string) :
  Spec.substringOf sub s → Spec.substringOf sub (s ++ post).
Proof.
  intros (a & b & ->). exists a, (b ++ post). by rewrite !string_app_assoc.
Qed.

Lemma substringOf_description (sub : string) (h : hotel.t) :
  Spec.substringOf sub (toLowerCase (hotel.description h)) →
  Spec.substringOf sub (Spec.spacedText h).
Proof.
  intros H. unfold Spec.spacedText.
  do 6 apply substringOf_app_l. by apply substringOf_app_r.
Qed.

Lemma matches_search_inactive (f : Full.filters.t) (h : hotel.t) :
  Spec.passesSearch f h →
  Full.matches f h
  = Full.matches (Full.filters.make EmptyString (Full.filters.region f)
                                    (Full.filters.maxPrice f)
                                    (Full.filters.amenities f)) h.
Proof.
  intros H. apply search_clause in H. unfold Full.matches. by rewrite H.
Qed.

Lemma substringOf_join (sub x : string) (l : list string) :
  x ∈ l → Spec.substringOf sub x → Spec.substringOf sub (join " " l).
Proof.
  intros Hin Hsub. induction l as [|y l IH]; [by apply elem_of_nil in Hin|].
  rewrite join_space_cons.
  apply elem_of_cons in Hin as [<- | Hin]; [by apply substringOf_app_r|].
  apply substringOf_app_l. destruct l as [|z l]; [by apply elem_of_nil in Hin|].
  cbn [fold_right]. apply substringOf_app_l.
  specialize (IH Hin). by rewrite join_space_cons in IH.
Qed.

Lemma searchTerms_fields (h : hotel.t) :
  Full.searchTerms h = join " " (map toLowerCase (Spec.searchedFields h)).
Proof. unfold Full.searchTerms, Spec.searchedFields. by rewrite map_app. Qed.

(** A run of whole characters of a text is found, lowercased, in the
    lowercased text. *)
Lemma substringOf_lowered (pre w post : string) :
  wellFormed pre = true → wellFormed w = true →
  Spec.substringOf (toLowerCase w) (toLowerCase (pre ++ w ++ post)).
Proof.
  intros Hpre Hw. exists (toLowerCase pre), (toLowerCase post).
  by rewrite (toLowerCase_app pre _ Hpre), (toLowerCase_app w _ Hw).
Qed.

(** C3 (amended). The search constraint passes exactly when the
    lowercased, trimmed search string occurs as a substring of the
    record's name, location, region, description and nearby
    attractions, each lowercased and joined by single spaces: when it
    does not occur the callback returns false, and when it occurs the
    outcome is the one of the same configuration without a search
    text.  A search string that occurs in the lowercased description
    passes whatever the name and the location are.  The match ignores
    case on both sides: a run of whole characters up to U+017F that
    stands in one of these texts, in whatever case it is written there,
    is found by every search string whose lowercased, trimmed form is
    the lowercased run. *)
Theorem search_is_substring_of_spaced_text
  (value region : string) (maxPrice : Z) (required : gset string) (h : hotel.t) :
  let needle := trim (toLowerCase value) in
  let f := Full.filters.make needle region maxPrice required in
  let unsearched := Full.filters.make EmptyString region maxPrice required in
  Full.searchTerms h = Spec.spacedText h
  ∧ (¬ Spec.substringOf needle (Spec.spacedText h) →
     Full.matches f h = Normal false)
  ∧ (Spec.substringOf needle (Spec.spacedText h) →
     Full.matches f h = Full.matches unsearched h)
  ∧ (Spec.substringOf needle (toLowerCase (hotel.description h)) →
     Full.matches f h = Full.matches unsearched h)
  ∧ (∀ field pre w post,
       field ∈ Spec.searchedFields h →
       field = pre ++ w ++ post →
       wellFormed pre = true → Measure.latin w = true →
       toLowerCase w = needle →
       Full.matches f h = Full.matches unsearched h).
Proof.
  intros needle f unsearched.
  split; [apply searchTerms_spacedText|].
  assert (Spec.substringOf needle (Spec.spacedText h) →
          Full.matches f h = Full.matches unsearched h) as Hin.
  { intros H. apply (matches_search_inactive f h). by right. }
  split; [|split; [exact Hin|split]].
  - intros Hno.
    assert (¬ Spec.passesSearch f h) as Hfail.
    { intros [Hempty | Hsub]; [|done]. apply Hno.
      simpl in Hempty. rewrite Hempty. by exists EmptyString, (Spec.spacedText h). }
    rewrite <- search_clause in Hfail. apply not_false_is_true in Hfail.
    unfold Full.matches. by rewrite Hfail.
  - intros H. by apply Hin, substringOf_description.
  - intros field pre w post Hfield -> Hpre Hw Hlow. apply Hin.
    apply andb_true_iff in Hw as [Hw _].
    rewrite <- searchTerms_spacedText, searchTerms_fields, <- Hlow.
    apply (substringOf_join _ (toLowerCase (pre ++ w ++ post))).
    + apply list_elem_of_fmap. by eexists.
    + by apply substringOf_lowered.
Qed.

Lemma search_is_substring_of_spaced_text_witness :
  (hotel.description Sample.andean = "Vista a los " ++ "Andes" ++ EmptyString
   ∧ Measure.latin "Andes" = true
   ∧ toLowerCase "Andes" = trim (toLowerCase "  ANDES ")
   ∧ includes (toLowerCase (hotel.name Sample.andean)) "andes" = false
   ∧ includes (toLowerCase (hotel.location Sample.andean)) "andes" = false
   ∧ Full.matches (Sample.onlySearch "  ANDES ") Sample.andean = Normal true)
  ∧ (hotel.name Sample.vineyard = EmptyString ++ "VIÑA" ++ " Vik"
     ∧ Measure.latin "VIÑA" = true
     ∧ toLowerCase "VIÑA" = trim (toLowerCase "viña")
     ∧ Full.matches (Sample.onlySearch "viña") Sample.vineyard = Normal true)
  ∧ Full.matches (Sample.onlySearch "lago") Sample.andean = Normal false.
Proof.
  split; [|split].
  - split; [reflexivity|]. split; [reflexivity|]. split; [reflexivity|].
    split; [vm_compute; reflexivity|]. split; [vm_compute; reflexivity|].
    pose proof (search_is_substring_of_spaced_text "  ANDES " EmptyString 2500 ∅
                  Sample.andean) as (_ & _ & _ & _ & H).
    assert (hotel.description Sample.andean ∈ Spec.searchedFields Sample.andean)
      as Hin by (by apply (list_elem_of_lookup_2 _ 3)).
    unfold Sample.onlySearch.
    rewrite (H (hotel.description Sample.andean) "Vista a los " "Andes" EmptyString
               Hin eq_refl eq_refl eq_refl eq_refl).
    vm_compute. reflexivity.
  - split; [reflexivity|]. split; [reflexivity|]. split; [reflexivity|].
    pose proof (search_is_substring_of_spaced_text "viña" EmptyString 2500 ∅
                  Sample.vineyard) as (_ & _ & _ & _ & H).
    assert (hotel.name Sample.vineyard ∈ Spec.searchedFields Sample.vineyard)
      as Hin by (by apply (list_elem_of_lookup_2 _ 0)).
    unfold Sample.onlySearch.
    rewrite (H (hotel.name Sample.vineyard) EmptyString "VIÑA" " Vik"
               Hin eq_refl eq_refl eq_refl eq_refl).
    vm_compute. reflexivity.
  - assert (¬ Spec.substringOf (trim (toLowerCase "lago"))
                               (Spec.spacedText Sample.andean)) as Hout.
    { rewrite <- includes_spec. vm_compute. discriminate. }
    pose proof (search_is_substring_of_spaced_text "lago" EmptyString 2500 ∅
                  Sample.andean) as (_ & H & _).
    exact (H Hout).
Defined.

(** C3, as stated: the text searched is not the plain concatenation of
    the fields.  With name Casa and location Real, the search string
    casareal occurs in the concatenation and the callback rejects the
    record; the search string casa real does not occur in it and the
    callback accepts the record. *)
Lemma search_concatenation_counterexample :
  (Spec.substringOf (trim (toLowerCase "casareal"))
                    (Spec.concatenation Sample.casaReal)
   ∧ Full.matches (Sample.onlySearch "casareal") Sample.casaReal = Normal false)
  ∧ (¬ Spec.substringOf (trim (toLowerCase "casa real"))
                        (Spec.concatenation Sample.casaReal)
     ∧ Full.matches (Sample.onlySearch "casa real") Sample.casaReal = Normal true).
Proof.
  split; split.
  - apply includes_spec. vm_compute. reflexivity.
  - vm_compute. reflexivity.
  - rewrite <- includes_spec. vm_compute. discriminate.
  - vm_compute. reflexivity.
Qed.

(** C5 (amended). The filter callback is a function of the record and
    the configuration, and it completes with a boolean on every pair in
    which the record carries [amenities] or no amenity is required.  A
    missing [nearbyAttractions] is read as the empty list, and a
    missing [amenities] is not read when no amenity is required, so
    that in both cases the outcome is the one for the record with the
    list present and empty. *)
Theorem matches_total_on_read_fields (f : Full.filters.t) (h : hotel.t) :
  (Spec.hasAmenities h ∨ Full.filters.amenities f = ∅ →
   ∃ b, Full.matches f h = Normal b)
  ∧ Full.matches f h = Full.matches f (Spec.fillAttractions h)
  ∧ (Full.filters.amenities f = ∅ →
     Full.matches f h = Full.matches f (Spec.fillAmenities h)).
Proof.
  split; [apply matches_total|]. split.
  - unfold Full.matches, Full.searchTerms. simpl.
    by destruct (hotel.nearbyAttractions h).
  - intros He. unfold Full.matches, Full.searchTerms. simpl.
    rewrite He, size_empty. reflexivity.
Qed.

Lemma matches_total_on_read_fields_witness :
  Full.filters.amenities (Sample.onlySearch "andes") = ∅
  ∧ hotel.amenities Sample.bare = None
  ∧ hotel.nearbyAttractions Sample.bare = None
  ∧ Full.matches (Sample.onlySearch "andes") Sample.bare = Normal true.
Proof.
  split; [reflexivity|]. split; [reflexivity|]. split; [reflexivity|].
  destruct (matches_total_on_read_fields (Sample.onlySearch "andes") Sample.bare)
    as (Htotal & _ & Hfill).
  rewrite (Hfill eq_refl). vm_compute. reflexivity.
Defined.

(** C5, as stated: with one required amenity, a record without
    [amenities] that passes the other constraints makes the callback
    raise a [TypeError], and so does [applyFilters] on a set holding
    it. *)
Lemma matches_missing_amenities_counterexample :
  hotel.amenities Sample.bare = None
  ∧ Full.matches (Sample.onlyAmenities {[ "spa" ]}) Sample.bare = Throw TypeError
  ∧ snd (Full.applyFilters
           (Sample.appWith [Sample.andean; Sample.bare]
                           (Sample.onlyAmenities {[ "spa" ]})))
    = Throw TypeError.
Proof. repeat split. Qed.

(** ** The two variants *)

Lemma simple_filteredHotels_applyFilters (s : Simple.App) :
  Simple.filteredHotels (Simple.applyFilters s)
  = List.filter (Simple.matches (Simple.filters s)) (Simple.hotels s).
Proof.
  unfold Simple.applyFilters. by rewrite simple_filteredHotels_renderHotels.
Qed.

Lemma List_filter_ext_Forall {A : Type} (p q : A → bool) (l : list A) :
  Forall (fun x => p x = q x) l → List.filter p l = List.filter q l.
Proof.
  induction 1 as [|x l Hx _ IH]; simpl; [done|]. by rewrite Hx, IH.
Qed.

Lemma List_filter_all {A : Type} (p : A → bool) (l : list A) :
  Forall (fun x => p x = true) l → List.filter p l = l.
Proof.
  induction 1 as [|x l Hx _ IH]; simpl; [done|]. by rewrite Hx, IH.
Qed.

(** C9 (amended). On a record set whose records carry the same value
    as [macroZone] and as [region], and whose rates do not exceed the
    price ceiling, the simplified [applyFilters] with zone [z] keeps
    the same records in the same order as the full [applyFilters] with
    region [z], no search text and no required amenity; with the empty
    zone both keep the whole set. *)
Theorem simplified_filter_restricts_full
  (R : list hotel.t) (z : string) (maxPrice : Z)
  (s : Simple.App) (t : Full.App) :
  Simple.hotels s = R →
  Simple.filters s = Simple.filters.make z →
  Full.hotels t = R →
  Full.filters t = Full.filters.make EmptyString z maxPrice ∅ →
  Forall (fun h => hotel.macroZone h = hotel.region h) R →
  Forall (fun h => (hotel.nightlyRate h ≤ maxPrice)%Z) R →
  arrayFilter (Full.matches (Full.filters t)) (Full.hotels t)
  = Normal (Simple.filteredHotels (Simple.applyFilters s))
  ∧ Full.filteredHotels (fst (Full.applyFilters t))
    = Simple.filteredHotels (Simple.applyFilters s)
  ∧ (z = EmptyString → Simple.filteredHotels (Simple.applyFilters s) = R).
Proof.
  intros Hs Hfs Ht Hft Hzone Hrate.
  assert (arrayFilter (Full.matches (Full.filters t)) (Full.hotels t)
          = Normal (Simple.filteredHotels (Simple.applyFilters s))) as Hsame.
  { rewrite arrayFilter_total by (right; by rewrite Hft).
    rewrite simple_filteredHotels_applyFilters, Hs, Hfs, Ht, Hft. f_equal.
    apply List_filter_ext_Forall.
    apply Forall_forall. intros h Hin.
    pose proof (proj1 (Forall_forall _ _) Hzone h Hin) as Hz.
    pose proof (proj1 (Forall_forall _ _) Hrate h Hin) as Hr.
    simpl in Hz, Hr.
    unfold Spec.accepts, Full.matches, Simple.matches. simpl.
    rewrite Hz.
    replace (hotel.nightlyRate h >? maxPrice)%Z with false
      by (symmetry; rewrite Z.gtb_ltb; by apply Z.ltb_ge).
    destruct (truthy z); simpl; [|done].
    by destruct (String.eqb (hotel.region h) z). }
  split; [exact Hsame|split].
  - by apply filteredHotels_applyFilters.
  - intros ->. rewrite simple_filteredHotels_applyFilters, Hs, Hfs.
    by apply List_filter_all, Forall_forall.
Qed.

Lemma simplified_filter_restricts_full_witness :
  Forall (fun h => hotel.macroZone h = hotel.region h) [Sample.north; Sample.south]
  ∧ Forall (fun h => (hotel.nightlyRate h ≤ 1000)%Z) [Sample.north; Sample.south]
  ∧ Simple.filteredHotels
      (Simple.applyFilters (Sample.simpleWith [Sample.north; Sample.south] "Sur"))
    = [Sample.south]
  ∧ Full.filteredHotels
      (fst (Full.applyFilters
              (Sample.appWith [Sample.north; Sample.south]
                              (Full.filters.make EmptyString "Sur" 1000 ∅))))
    = [Sample.south].
Proof.
  assert (Forall (fun h => hotel.macroZone h = hotel.region h)
                 [Sample.north; Sample.south]) as Hzone
    by (repeat constructor).
  assert (Forall (fun h => (hotel.nightlyRate h ≤ 1000)%Z)
                 [Sample.north; Sample.south]) as Hrate
    by (repeat constructor; simpl; lia).
  split; [exact Hzone|]. split; [exact Hrate|].
  split; [reflexivity|].
  destruct (simplified_filter_restricts_full
              [Sample.north; Sample.south] "Sur" 1000
              (Sample.simpleWith [Sample.north; Sample.south] "Sur")
              (Sample.appWith [Sample.north; Sample.south]
                              (Full.filters.make EmptyString "Sur" 1000 ∅))
              eq_refl eq_refl eq_refl eq_refl Hzone Hrate) as (_ & H & _).
  rewrite H. reflexivity.
Defined.

(** C9, as stated: the simplified variant reads [macroZone] and the
    full one reads [region].  On a record of zone Norte and region
    Atacama, the simplified filter with zone Norte keeps the record and
    the full filter with region Norte, no search text, no required
    amenity and a ceiling above the rate drops it. *)
Lemma zone_and_region_counterexample :
  Simple.filteredHotels
    (Simple.applyFilters (Sample.simpleWith [Sample.twoNames] "Norte"))
  = [Sample.twoNames]
  ∧ Full.applyFilters
      (Sample.appWith [Sample.twoNames]
                      (Full.filters.make EmptyString "Norte" 2500 ∅))
    = (Full.showEmptyState true
         (Full.setHotelsGrid []
            (Full.setResultsCount "No se encontraron hoteles"
               (Full.setFilteredHotels []
                  (Sample.appWith [Sample.twoNames]
                     (Full.filters.make EmptyString "Norte" 2500 ∅))))),
       Normal tt).
Proof. split; vm_compute; reflexivity. Qed.

(** ** Rendering and start-up *)

Lemma stars_total (rating : Z) :
  (0 ≤ rating ≤ 5)%Z → ∃ st, Full.stars rating = Normal st.
Proof.
  intros [H0 H5]. unfold Full.stars.
  replace (rating <? 0)%Z with false by (symmetry; by apply Z.ltb_ge).
  replace (5 <? rating)%Z with false by (symmetry; by apply Z.ltb_ge).
  by eexists.
Qed.

Lemma createHotelCard_total (h : hotel.t) :
  Spec.renderable h → ∃ card, Full.createHotelCard h = Normal card.
Proof.
  intros [[l Hl] Hr]. unfold Full.createHotelCard.
  destruct (stars_total _ Hr) as [st ->]. rewrite Hl. by eexists.
Qed.

Lemma arrayMap_total {A B : Type} (cb : A → completion B) (l : list A) :
  Forall (fun x => ∃ y, cb x = Normal y) l →
  ∃ ys, arrayMap cb l = Normal ys
        ∧ length ys = length l
        ∧ ∀ x, x ∈ l → ∃ y, cb x = Normal y ∧ y ∈ ys.
Proof.
  induction 1 as [|x l [y Hy] _ (ys & Hys & Hlen & Hin)].
  - exists []. repeat split. intros x Hx. by apply elem_of_nil in Hx.
  - exists (y :: ys). simpl. rewrite Hy, Hys. split; [done|].
    split; [by rewrite Hlen|].
    intros x' Hx'. apply elem_of_cons in Hx' as [-> | Hx'].
    + exists y. split; [done | by left].
    + destruct (Hin x' Hx') as (y' & Hy' & Hin'). exists y'.
      split; [done | by right].
Qed.

Lemma renderHotels_header (s : Full.App) :
  Full.resultsCount (fst (Full.renderHotels s))
  = Full.countText (length (Full.filteredHotels s))
  ∧ Full.emptyStateHidden (fst (Full.renderHotels s))
    = negb (length (Full.filteredHotels s) =? 0)%nat.
Proof.
  unfold Full.renderHotels.
  destruct (length (Full.filteredHotels s) =? 0)%nat eqn:Hn; [done|].
  by destruct (arrayMap Full.createHotelCard (Full.filteredHotels s)).
Qed.

Lemma countText_cases (n : nat) :
  Full.countText n
  = match n with
    | 0 => Spec.noResults
    | 1 => Spec.singular
    | _ => Spec.plural n
    end.
Proof. by destruct n as [|[|n]]. Qed.

Lemma simple_countText_cases (n : nat) :
  Simple.countText n
  = match n with
    | 1 => Spec.singular
    | _ => Spec.plural n
    end.
Proof.
  unfold Simple.countText, Spec.plural.
  destruct n as [|[|n]]; [reflexivity | reflexivity |].
  change (S (S n) =? 1)%nat with false. cbv iota.
  reflexivity.
Qed.

(** C4 (amended). After a rendering the result header is a function of
    the number of filtered records.  In the full variant: no record
    gives the no-result message, one record the singular phrase, two
    or more the plural phrase with the count.  In the simplified
    variant: one record gives the singular phrase and every other
    count, zero included, the plural phrase with the count.  In both
    the empty-state indicator is shown exactly when no record is left,
    and a recomputation that completes its filtering renders the
    records it kept. *)
Theorem result_header_follows_count :
  (∀ s : Full.App,
     let n := length (Full.filteredHotels s) in
     Full.filteredHotels (fst (Full.renderHotels s)) = Full.filteredHotels s
     ∧ Full.resultsCount (fst (Full.renderHotels s))
       = match n with
         | 0 => Spec.noResults
         | 1 => Spec.singular
         | _ => Spec.plural n
         end
     ∧ Full.emptyStateHidden (fst (Full.renderHotels s)) = negb (n =? 0)%nat)
  ∧ (∀ s : Full.App,
       Forall Spec.hasAmenities (Full.hotels s)
       ∨ Full.filters.amenities (Full.filters s) = ∅ →
       let s' := fst (Full.applyFilters s) in
       Full.resultsCount s' = Full.countText (length (Full.filteredHotels s'))
       ∧ Full.emptyStateHidden s'
         = negb (length (Full.filteredHotels s') =? 0)%nat)
  ∧ (∀ s : Simple.App,
       let s' := Simple.applyFilters s in
       let n := length (Simple.filteredHotels s') in
       Simple.resultsCount s'
       = match n with
         | 1 => Spec.singular
         | _ => Spec.plural n
         end
       ∧ Simple.emptyStateHidden s' = negb (n =? 0)%nat).
Proof.
  split; [|split].
  - intros s n. split; [apply filteredHotels_renderHotels|].
    destruct (renderHotels_header s) as [Hc He].
    split; [by rewrite Hc, countText_cases | exact He].
  - intros s Hwf s'. subst s'. unfold Full.applyFilters.
    rewrite (arrayFilter_total _ _ Hwf).
    rewrite filteredHotels_renderHotels. apply renderHotels_header.
  - intros s s' n. subst n s'.
    rewrite simple_filteredHotels_applyFilters.
    unfold Simple.applyFilters, Simple.renderHotels. simpl.
    rewrite <- simple_countText_cases.
    by destruct (length _ =? 0)%nat.
Qed.

Lemma result_header_follows_count_witness :
  Full.filters.amenities
    (Full.filters (Sample.appWith [Sample.andean; Sample.costly]
                                  Full.defaultFilters)) = ∅
  ∧ Full.resultsCount
      (fst (Full.applyFilters
              (Sample.appWith [Sample.andean; Sample.costly]
                              Full.defaultFilters)))
    = "1 hotel encontrado".
Proof.
  split; [reflexivity|].
  destruct result_header_follows_count as (_ & Happly & _).
  destruct (Happly (Sample.appWith [Sample.andean; Sample.costly]
                                   Full.defaultFilters)
                   (or_intror eq_refl)) as [Hc _].
  rewrite Hc. vm_compute. reflexivity.
Defined.

(** C4, as stated: in the simplified variant no record gives the
    plural phrase with the count 0, not a message of its own, where the
    full variant writes that no hotel was found. *)
Lemma simplified_header_zero_counterexample :
  Simple.filteredHotels
    (Simple.applyFilters (Sample.simpleWith [Sample.twoNames] "Sur")) = []
  ∧ Simple.resultsCount
      (Simple.applyFilters (Sample.simpleWith [Sample.twoNames] "Sur"))
    = Spec.plural 0
  ∧ Spec.plural 0 = "0 hoteles encontrados"
  ∧ Full.resultsCount
      (fst (Full.applyFilters
              (Sample.appWith [Sample.twoNames]
                              (Full.filters.make EmptyString "Sur" 2500 ∅))))
    = "No se encontraron hoteles".
Proof. repeat split. Qed.

Lemma filteredHotels_init (R : list hotel.t) (s0 : Full.App) :
  Full.filteredHotels (Full.init (Full.Loaded R) s0) = R
  ∧ Full.hotels (Full.init (Full.Loaded R) s0) = R
  ∧ Full.filters (Full.init (Full.Loaded R) s0) = Full.filters s0.
Proof.
  unfold Full.init, Full.loadHotels.
  destruct (Full.populateAmenitiesFilter _); [|done].
  unfold Full.renderHotels. simpl.
  destruct (length R =? 0)%nat; [done|].
  by destruct (arrayMap Full.createHotelCard R).
Qed.

Lemma populateAmenitiesFilter_total (s : Full.App) :
  Forall Spec.hasAmenities (Full.hotels s) →
  Full.populateAmenitiesFilter s = Normal tt.
Proof.
  intros H. unfold Full.populateAmenitiesFilter.
  replace (forallb _ (Full.hotels s)) with true; [done|].
  symmetry. apply forallb_forall. intros h Hin.
  apply bool_decide_eq_true.
  apply (proj1 (Forall_forall _ _) H h). by apply list_elem_of_In.
Qed.

Lemma hotelsGrid_init (R : list hotel.t) (s0 : Full.App) :
  Forall Spec.renderable R →
  arrayMap Full.createHotelCard R
  = Normal (Full.hotelsGrid (Full.init (Full.Loaded R) s0))
  ∧ Full.resultsCount (Full.init (Full.Loaded R) s0)
    = Full.countText (length R).
Proof.
  intros Hr.
  assert (Forall Spec.hasAmenities R) as Ha
    by (eapply Forall_impl; [exact Hr | by intros h [? _]]).
  assert (Forall (fun h => ∃ c, Full.createHotelCard h = Normal c) R) as Hc
    by (eapply Forall_impl; [exact Hr | apply createHotelCard_total]).
  destruct (arrayMap_total _ _ Hc) as (cards & Hcards & _ & _).
  unfold Full.init, Full.loadHotels.
  rewrite populateAmenitiesFilter_total by exact Ha.
  unfold Full.renderHotels. simpl.
  destruct R as [|h R]; [done|]. simpl length. cbv iota beta.
  change (S (length R) =? 0)%nat with false. cbv iota.
  rewrite Hcards. done.
Qed.

Lemma above_ceiling_rejected (f : Full.filters.t) (h : hotel.t) :
  (Full.filters.maxPrice f < hotel.nightlyRate h)%Z →
  Full.matches f h ≠ Normal true.
Proof.
  intros Hlt H. apply matches_true_iff in H as (_ & _ & Hp & _).
  unfold Spec.passesPrice in Hp. lia.
Qed.

(** C10. In the full variant, once the load has succeeded and before
    any filter changes, the filtered subset is the whole loaded set and
    the configuration is still the default one, which has not been
    applied: a record priced above the default ceiling of 2500 is in
    the filtered subset, and when every record can be rendered its card
    is in the grid of the first render and the header counts the whole
    set.  The first recomputation that completes under a ceiling of
    2500 (a change of region among them) removes the record. *)
Theorem initial_render_is_unfiltered
  (R : list hotel.t) (header : string) (emptyHidden loadHidden : bool)
  (h : hotel.t) :
  let s := Full.init (Full.Loaded R)
                     (Full.construct header emptyHidden loadHidden) in
  h ∈ R →
  (2500 < hotel.nightlyRate h)%Z →
  Full.filteredHotels s = R
  ∧ Full.filters s = Full.defaultFilters
  ∧ h ∈ Full.filteredHotels s
  ∧ (Forall Spec.renderable R →
     Full.resultsCount s = Full.countText (length R)
     ∧ length (Full.hotelsGrid s) = length R
     ∧ ∃ card, Full.createHotelCard h = Normal card ∧ card ∈ Full.hotelsGrid s)
  ∧ (∀ region, h ∉ Full.filteredHotels (fst (Full.onRegionChange region s)))
  ∧ (∀ f, Full.filters.maxPrice f = 2500%Z →
          Forall Spec.hasAmenities R ∨ Full.filters.amenities f = ∅ →
          h ∉ Full.filteredHotels (fst (Full.applyFilters (Full.setFilters f s)))).
Proof.
  intros s Hin Hrate.
  destruct (filteredHotels_init R (Full.construct header emptyHidden loadHidden))
    as (Hf & Hh & Hc).
  fold s in Hf, Hh, Hc.
  assert (∀ f, Full.filters.maxPrice f = 2500%Z →
            Forall Spec.hasAmenities R ∨ Full.filters.amenities f = ∅ →
            h ∉ Full.filteredHotels (fst (Full.applyFilters (Full.setFilters f s))))
    as Hgone.
  { intros f Hmax Hwf.
    assert (Full.hotels (Full.setFilters f s) = R) as HR by exact Hh.
    assert (Full.filters (Full.setFilters f s) = f) as HF by reflexivity.
    rewrite (filteredHotels_applyFilters (Full.setFilters f s)
               (List.filter (Spec.accepts f) R)).
    - rewrite elem_of_List_filter, matches_accepts. intros [_ Hm].
      apply (above_ceiling_rejected f h); [lia | done].
    - rewrite HR, HF. by apply arrayFilter_total. }
  split; [exact Hf|]. split; [exact Hc|]. split; [by rewrite Hf|].
  split; [|split; [|exact Hgone]].
  - intros Hr.
    destruct (hotelsGrid_init R (Full.construct header emptyHidden loadHidden) Hr)
      as [Hgrid Hcount].
    fold s in Hgrid, Hcount. split; [exact Hcount|].
    assert (Forall (fun h => ∃ c, Full.createHotelCard h = Normal c) R) as Hcards
      by (eapply Forall_impl; [exact Hr | apply createHotelCard_total]).
    destruct (arrayMap_total _ _ Hcards) as (cards & Hmap & Hlen & Hall).
    rewrite Hmap in Hgrid. injection Hgrid as <-. split; [exact Hlen|].
    by apply Hall.
  - intros region. unfold Full.onRegionChange. rewrite Hc.
    apply Hgone; [done | by right].
Qed.

Lemma initial_render_is_unfiltered_witness :
  Sample.costly ∈ [Sample.andean; Sample.costly]
  ∧ (2500 < hotel.nightlyRate Sample.costly)%Z
  ∧ Full.filteredHotels
      (Full.init (Full.Loaded [Sample.andean; Sample.costly])
                 (Full.construct EmptyString true true))
    = [Sample.andean; Sample.costly]
  ∧ Full.filteredHotels
      (fst (Full.onRegionChange "Atacama"
              (Full.init (Full.Loaded [Sample.andean; Sample.costly])
                         (Full.construct EmptyString true true))))
    = [Sample.andean].
Proof.
  assert (Sample.costly ∈ [Sample.andean; Sample.costly]) as Hin
    by (right; left).
  assert (2500 < hotel.nightlyRate Sample.costly)%Z as Hrate by (simpl; lia).
  split; [exact Hin|]. split; [exact Hrate|].
  destruct (initial_render_is_unfiltered [Sample.andean; Sample.costly]
              EmptyString true true Sample.costly Hin Hrate) as (Hf & _).
  split; [exact Hf|]. vm_compute. reflexivity.
Defined.

(** ** Markup *)

Lemma includes_angle_cons (c : ascii) (t : string) :
  includes (String c t) "<" = Ascii.eqb "<" c || includes t "<".
Proof. simpl. by rewrite andb_true_r. Qed.

Lemma includes_angle_app (a b : string) :
  includes (a ++ b) "<" = includes a "<" || includes b "<".
Proof.
  induction a as [|c a IH].
  - rewrite string_app_nil_l. simpl. reflexivity.
  - rewrite string_app_cons, !includes_angle_cons, IH. by rewrite orb_assoc.
Qed.

Lemma escapeHtml_special (c : ascii) (t : string) :
  Measure.special c = true →
  escapeHtml (String c t) = Measure.entity c ++ escapeHtml t.
Proof.
  unfold Measure.special, Measure.entity. intros H. cbn [escapeHtml].
  destruct (Ascii.eqb c "&"); [done|].
  destruct (Ascii.eqb c "<"); [done|].
  destruct (Ascii.eqb c ">"); [done | discriminate].
Qed.

Lemma escapeHtml_nbsp (c d : ascii) (u : string) :
  isWhiteSpace2 c d = true →
  escapeHtml (String c (String d u)) = "&nbsp;" ++ escapeHtml u.
Proof.
  intros H. destruct (whiteSpace2_bytes c d H) as [-> ->]. reflexivity.
Qed.

Lemma escapeHtml_plain (c : ascii) (t : string) :
  Measure.special c = false →
  match t with String d _ => isWhiteSpace2 c d | EmptyString => false end = false →
  escapeHtml (String c t) = String c (escapeHtml t).
Proof.
  unfold Measure.special. intros H Ht. cbn [escapeHtml].
  apply orb_false_iff in H as [H H3]. apply orb_false_iff in H as [H1 H2].
  rewrite H1, H2, H3. destruct t as [|d u]; [done|]. by rewrite Ht.
Qed.

Lemma escaping (text : string) : Measure.Escaping text.
Proof.
  destruct text as [|c t]; [by apply Measure.EscEmpty|].
  destruct (Measure.special c) eqn:Hc.
  { eapply Measure.EscSpecial; [done | done | by apply escapeHtml_special]. }
  destruct t as [|d u].
  { eapply Measure.EscPlain; [done | done | done | by apply escapeHtml_plain]. }
  destruct (isWhiteSpace2 c d) eqn:H2.
  - eapply Measure.EscNbsp; [done | done | done | by apply escapeHtml_nbsp].
  - eapply Measure.EscPlain; [done | done | done | by apply escapeHtml_plain].
Qed.

Lemma entity_shape (c : ascii) :
  Measure.special c = true →
  (c = "&"%char ∧ Measure.entity c = "&amp;")
  ∨ (c = "<"%char ∧ Measure.entity c = "&lt;")
  ∨ (c = ">"%char ∧ Measure.entity c = "&gt;").
Proof.
  unfold Measure.special, Measure.entity. intros H.
  destruct (Ascii.eqb c "&") eqn:H1; [apply Ascii.eqb_eq in H1; by left|].
  destruct (Ascii.eqb c "<") eqn:H2; [apply Ascii.eqb_eq in H2; right; by left|].
  destruct (Ascii.eqb c ">") eqn:H3; [apply Ascii.eqb_eq in H3; right; by right|].
  discriminate.
Qed.

(** Escaped text holds neither angle bracket and is not shorter than
    the text. *)
Lemma escapeHtml_facts (text : string) :
  includes (escapeHtml text) "<" = false
  ∧ includes (escapeHtml text) ">" = false
  ∧ (String.length text ≤ String.length (escapeHtml text))%nat.
Proof.
  induction text as [text IH] using string_length_ind.
  destruct (escaping text) as [-> | c t -> Hc -> | c d u -> Hc H2 -> | c t -> Hc Ht ->].
  - done.
  - destruct (IH t) as (I1 & I2 & I3); [simpl; lia|].
    rewrite !includes_char_app, I1, I2, length_string_app, !orb_false_r.
    destruct (entity_shape c Hc) as [[-> ->] | [[-> ->] | [-> ->]]];
      repeat split; simpl; (done || lia).
  - destruct (IH u) as (I1 & I2 & I3); [simpl; lia|].
    rewrite !includes_char_app, I1, I2, length_string_app, !orb_false_r.
    repeat split; simpl; (done || lia).
  - destruct (IH t) as (I1 & I2 & I3); [simpl; lia|].
    rewrite !includes_char_cons, I1, I2, !orb_false_r.
    unfold Measure.special in Hc.
    apply orb_false_iff in Hc as [Hc H3]. apply orb_false_iff in Hc as [H1 H2].
    rewrite (Ascii.eqb_sym "<"), (Ascii.eqb_sym ">"), H2, H3.
    repeat split; simpl; lia.
Qed.

(** Escaped text holds no character that opens a tag. *)
Lemma escapeHtml_no_angle (text : string) :
  includes (escapeHtml text) "<" = false.
Proof. apply escapeHtml_facts. Qed.

Lemma allChars_highSurrogate (p : ascii → bool) (s : string) :
  (∀ c, (128 <=? code c)%N = true → p c = true) →
  Measure.allChars p s = true → Measure.allChars p (highSurrogate s) = true.
Proof.
  intros Hp Hs. destruct s as [|c [|d [|e [|f u]]]]; try done.
  cbn [highSurrogate Measure.allChars].
  rewrite !Hp; [done | apply high_mod | apply high_mod | by apply high_byte].
Qed.

(** A cut text holds bytes of the text and, at its end, those of a
    surrogate half. *)
Lemma allChars_substringTo (p : ascii → bool) (n : nat) (s : string) :
  (∀ c, (128 <=? code c)%N = true → p c = true) →
  Measure.allChars p s = true → Measure.allChars p (substringTo n s) = true.
Proof.
  intros Hp. revert s. induction n as [n IH] using lt_wf_ind. intros s Hs.
  destruct n as [|k]; [done|]. destruct s as [|c t]; [done|].
  cbn [substringTo].
  destruct (width c <? 4)%nat.
  - rewrite allChars_app, (allChars_substring p 0 _ _ Hs).
    apply IH; [lia | by apply allChars_substring].
  - destruct k as [|k']; [by apply allChars_highSurrogate|].
    rewrite allChars_app, (allChars_substring p 0 _ _ Hs).
    apply IH; [lia | by apply allChars_substring].
Qed.

Lemma substringTo_no_angle (n : nat) (s : string) :
  includes s "<" = false → includes (substringTo n s) "<" = false.
Proof.
  intros H. apply allChars_excludes. apply allChars_substringTo.
  - intros c. destruct c as [[] [] [] [] [] [] [] []]; vm_compute; congruence.
  - by apply allChars_excludes.
Qed.

Lemma ContentSafe_Lit (s : string) : Spec.ContentSafe (Lit s).
Proof. intros src enc text H. discriminate. Qed.

Lemma ContentSafe_escaped (src : Source) (pos : Position) (v : string) :
  Spec.ContentSafe (escaped src pos v).
Proof.
  intros src' enc text H _. injection H as _ _ <- <-.
  split; [done | apply escapeHtml_no_angle].
Qed.

Lemma ContentSafe_escaped_prefix (src : Source) (pos : Position) (n : nat) (v : string) :
  Spec.ContentSafe (Interp src pos HtmlEscaped (substringTo n (escapeHtml v))).
Proof.
  intros src' enc text H _. injection H as _ _ <- <-.
  split; [done | apply substringTo_no_angle, escapeHtml_no_angle].
Qed.

Lemma ContentSafe_attribute (src : Source) (enc : Encoding) (text : string) :
  Spec.ContentSafe (Interp src Attribute enc text).
Proof. intros src' enc' text' H. discriminate. Qed.

Lemma ContentSafe_computed (src : Source) (enc : Encoding) (text : string) :
  Spec.dataText src = false → Spec.ContentSafe (Interp src Content enc text).
Proof. intros Hs src' enc' text' H Hd. injection H as <- _ _. congruence. Qed.

Ltac content_safe :=
  repeat first
    [ apply Forall_nil_2
    | apply Forall_app_2
    | apply Forall_cons_2
    | apply ContentSafe_Lit
    | apply ContentSafe_escaped
    | apply ContentSafe_escaped_prefix
    | apply ContentSafe_attribute
    | apply ContentSafe_computed; reflexivity ].

Lemma ContentSafe_amenityTags (l : list string) :
  Forall Spec.ContentSafe (Full.amenityTags l).
Proof.
  unfold Full.amenityTags. apply Forall_app_2.
  - induction (take 5 l) as [|a t IH]; simpl; content_safe. exact IH.
  - destruct (5 <? length l)%nat; content_safe.
Qed.

Lemma ContentSafe_attractions (l : list string) :
  Forall Spec.ContentSafe
    (flat_map (fun attr => [Lit "<li>"; escaped Attraction Content attr; Lit "</li>"]) l).
Proof. induction l as [|a t IH]; simpl; content_safe. exact IH. Qed.

Ltac markup_safe :=
  repeat first
    [ apply ContentSafe_amenityTags
    | apply ContentSafe_attractions
    | apply Forall_nil_2
    | apply Forall_app_2
    | apply Forall_cons_2
    | apply ContentSafe_Lit
    | apply ContentSafe_escaped
    | apply ContentSafe_escaped_prefix
    | apply ContentSafe_attribute
    | apply ContentSafe_computed; reflexivity ].

Lemma ContentSafe_fullCard (h : hotel.t) :
  Forall Spec.ContentSafe (Spec.fullCard h).
Proof.
  unfold Spec.fullCard, Full.createHotelCard.
  destruct (Full.stars (hotel.rating h)) as [st|]; [|constructor].
  destruct (hotel.amenities h) as [am|]; [|constructor].
  destruct (hotel.nearbyAttractions h) as [l|]; markup_safe.
Qed.

Lemma ContentSafe_simpleCard (h : hotel.t) :
  Forall Spec.ContentSafe (Simple.createHotelCard h).
Proof. unfold Simple.createHotelCard, Simple.mailto, uriEncoded. markup_safe. Qed.

Lemma ContentSafe_overlay (h : hotel.t) :
  Forall Spec.ContentSafe (Spec.overlay h).
Proof.
  unfold Spec.overlay, Simple.modalMarkup.
  destruct (Simple.stars (hotel.rating h)) as [st|]; [|constructor].
  destruct (hotel.nearbyAttractions h) as [l|]; [|constructor].
  unfold Simple.mailto, uriEncoded. markup_safe.
Qed.

(** C6 (amended). In the card of either variant and in the overlay,
    every substitution of a record text into element content (name,
    location, description, amenity tags, nearby attractions) goes
    through [escapeHtml], and the substituted text holds no character
    that opens a tag.  The image address and the id are substituted
    into attribute values as they are, in both variants. *)
Theorem content_text_is_escaped (h : hotel.t) :
  Forall Spec.ContentSafe (Spec.fullCard h)
  ∧ Forall Spec.ContentSafe (Simple.createHotelCard h)
  ∧ Forall Spec.ContentSafe (Spec.overlay h)
  ∧ (∀ parts, Full.createHotelCard h = Normal parts →
       escaped Name Content (hotel.name h) ∈ parts
       ∧ escaped Location Content (hotel.location h) ∈ parts
       ∧ escaped Description Content (hotel.description h) ∈ parts
       ∧ raw Image Attribute (hotel.image h) ∈ parts
       ∧ raw Id Attribute (hotel.id h) ∈ parts)
  ∧ (escaped Name Content (hotel.name h) ∈ Simple.createHotelCard h
     ∧ escaped Location Content (hotel.location h) ∈ Simple.createHotelCard h
     ∧ raw Image Attribute (hotel.image h) ∈ Simple.createHotelCard h
     ∧ raw Id Attribute (hotel.id h) ∈ Simple.createHotelCard h)
  ∧ (∀ parts, Simple.modalMarkup h = Normal parts →
       escaped Name Content (hotel.name h) ∈ parts
       ∧ raw Image Attribute (hotel.image h) ∈ parts).
Proof.
  split; [apply ContentSafe_fullCard|].
  split; [apply ContentSafe_simpleCard|].
  split; [apply ContentSafe_overlay|].
  split; [|split].
  - intros parts H. unfold Full.createHotelCard in H.
    destruct (Full.stars (hotel.rating h)); [|discriminate].
    destruct (hotel.amenities h); [|discriminate].
    injection H as <-.
    repeat split; rewrite ?elem_of_app, ?elem_of_cons; tauto.
  - unfold Simple.createHotelCard.
    repeat split; rewrite ?elem_of_app, ?elem_of_cons; tauto.
  - intros parts H. unfold Simple.modalMarkup in H.
    destruct (Simple.stars (hotel.rating h)); [|discriminate].
    destruct (hotel.nearbyAttractions h); [|discriminate].
    injection H as <-.
    repeat split; rewrite ?elem_of_app, ?elem_of_cons; tauto.
Qed.

Lemma content_text_is_escaped_witness :
  Full.createHotelCard Sample.hostile = Normal (Spec.fullCard Sample.hostile)
  ∧ Interp Name Content HtmlEscaped "&lt;b&gt;Casa&lt;/b&gt;"
    ∈ Spec.fullCard Sample.hostile
  ∧ Interp Image Attribute Raw "<img>" ∈ Spec.fullCard Sample.hostile.
Proof.
  split; [reflexivity|].
  destruct (content_text_is_escaped Sample.hostile) as (_ & _ & _ & H & _).
  destruct (H (Spec.fullCard Sample.hostile) eq_refl) as (Hn & _ & _ & Hi & _).
  split; [exact Hn | exact Hi].
Defined.

(** C6, as stated: the card of the full variant substitutes the image
    address, the name, the location and the id into attribute values
    without escaping them, the card of the simplified variant and the
    overlay do so for the image address and the id; the markup of a
    card whose image address is a tag holds that tag as it is. *)
Lemma raw_interpolation_counterexample :
  Spec.allEscaped (Spec.fullCard Sample.hostile) = false
  ∧ Spec.allEscaped (Simple.createHotelCard Sample.hostile) = false
  ∧ Spec.allEscaped (Spec.overlay Sample.hostile) = false
  ∧ Interp Image Attribute Raw "<img>" ∈ Spec.fullCard Sample.hostile
  ∧ Interp Name Attribute Raw "<b>Casa</b>" ∈ Spec.fullCard Sample.hostile
  ∧ Interp Id Attribute Raw "<u>" ∈ Simple.createHotelCard Sample.hostile
  ∧ includes (Markup.render (Spec.fullCard Sample.hostile))
             (html "data-src=~<img>~ alt=~<b>Casa</b> - <i>~") = true
  ∧ includes (Markup.render (Simple.createHotelCard Sample.hostile))
             (html "data-src=~<img>~") = true.
Proof.
  split; [vm_compute; reflexivity|].
  split; [vm_compute; reflexivity|].
  split; [vm_compute; reflexivity|].
  split; [by apply (list_elem_of_lookup_2 _ 1)|].
  split; [by apply (list_elem_of_lookup_2 _ 3)|].
  split; [by apply (list_elem_of_lookup_2 _ 5)|].
  split; vm_compute; reflexivity.
Qed.

(** ** Lazy image loading *)

Section LazyLoader.

Import Lazy.

Variable img : nat.

Lemma dataSrc_onIntersection (entries : list Entry) (p : Page) :
  dataSrc (onIntersection entries p) = dataSrc p.
Proof.
  unfold onIntersection. revert p.
  induction entries as [|e es IH]; intros p; simpl; [done|].
  rewrite IH. destruct (isIntersecting e); [|done].
  unfold unobserve, loadImage. simpl. by destruct (truthy _).
Qed.

Lemma requestCount_loadImage (j : nat) (p : Page) :
  requestCount img (loadImage j p)
  = requestCount img p
    + (if truthy (dataSrc p j) && (img =? j)%nat then 1 else 0).
Proof.
  unfold requestCount, loadImage.
  destruct (truthy (dataSrc p j)); simpl; [|lia].
  rewrite List.filter_app, length_app. simpl.
  destruct (img =? j)%nat; simpl; lia.
Qed.

Lemma watchCount_unobserve (j : nat) (p : Page) :
  watchCount img (unobserve j p)
  = if (j =? img)%nat then 0 else watchCount img p.
Proof.
  unfold watchCount, unobserve. simpl.
  induction (observed p) as [|k l IH]; simpl; [by destruct (j =? img)%nat|].
  destruct (k =? j)%nat eqn:Hkj; simpl.
  - apply Nat.eqb_eq in Hkj as ->. rewrite IH, (Nat.eqb_sym img j).
    by destruct (j =? img)%nat.
  - destruct (img =? k)%nat eqn:Hik; simpl; rewrite IH.
    + apply Nat.eqb_eq in Hik as ->. by rewrite Nat.eqb_sym, Hkj.
    + done.
Qed.

(** Effect of the observer callback on one image. *)
Lemma onIntersection_effect (entries : list Entry) (p : Page) :
  requestCount img (onIntersection entries p)
  = requestCount img p
    + (if truthy (dataSrc p img) then hits img entries else 0)
  ∧ watchCount img (onIntersection entries p)
    = (if (0 <? hits img entries)%nat then 0 else watchCount img p)
  ∧ ((hits img entries = 0)%nat →
     lastSeen (onIntersection entries p) !! img = lastSeen p !! img).
Proof.
  unfold onIntersection. revert p.
  induction entries as [|e es IH]; intros p.
  - simpl. destruct (truthy _); repeat split; (done || lia).
  - cbn [fold_left]. unfold hits. cbn [List.filter].
    fold (hits img es).
    destruct (isIntersecting e) eqn:He; cbn [andb].
    + destruct (IH (unobserve (target e) (loadImage (target e) p)))
        as (Hr & Hw & Hl).
      assert (dataSrc (unobserve (target e) (loadImage (target e) p)) = dataSrc p)
        as Hd.
      { unfold unobserve, loadImage. cbn [dataSrc].
        destruct (truthy (dataSrc p (target e))); reflexivity. }
      rewrite Hd in Hr.
      assert (requestCount img (unobserve (target e) (loadImage (target e) p))
              = requestCount img (loadImage (target e) p)) as Hru by reflexivity.
      rewrite Hru, requestCount_loadImage in Hr.
      rewrite watchCount_unobserve in Hw.
      assert (watchCount img (loadImage (target e) p) = watchCount img p) as Hwl.
      { unfold watchCount, loadImage. by destruct (truthy _). }
      rewrite Hwl in Hw.
      destruct (target e =? img)%nat eqn:Ht; cbn [length].
      * apply Nat.eqb_eq in Ht. rewrite Ht in *. rewrite Nat.eqb_refl in Hr.
        rewrite andb_true_r in Hr.
        split; [|split].
        -- rewrite Hr. unfold hits. destruct (truthy (dataSrc p img)); lia.
        -- rewrite Hw. simpl. by destruct (0 <? hits img es)%nat.
        -- intros Hz. lia.
      * assert ((img =? target e)%nat = false) as Ht' by (by rewrite Nat.eqb_sym).
        rewrite Ht', andb_false_r, Nat.add_0_r in Hr.
        split; [exact Hr|]. split; [exact Hw|].
        intros Hz. rewrite (Hl Hz).
        unfold unobserve. cbn [lastSeen]. rewrite lookup_delete_ne.
        -- unfold loadImage. by destruct (truthy (dataSrc p (target e))).
        -- intros Heq. rewrite Heq, Nat.eqb_refl in Ht. discriminate.
    + apply IH.
Qed.

End LazyLoader.

Section LazyLoaderFrames.

Import Lazy.

Variable img : nat.

Lemma hits_app (a b : list Entry) :
  hits img (a ++ b) = hits img a + hits img b.
Proof. unfold hits. by rewrite List.filter_app, length_app. Qed.

Lemma hits_pending (within : nat → bool) (m : gmap nat bool) (l : list nat) :
  hits img
    (flat_map
       (fun j =>
          match m !! j with
          | Some b => if Bool.eqb b (within j) then [] else [mkEntry j (within j)]
          | None => [mkEntry j (within j)]
          end) l)
  = if within img && negb (match m !! img with Some true => true | _ => false end)
    then length (List.filter (Nat.eqb img) l) else 0.
Proof.
  induction l as [|j l IH].
  - simpl. by destruct (_ && _).
  - cbn [flat_map List.filter]. rewrite hits_app, IH. clear IH.
    destruct (img =? j)%nat eqn:Hj.
    + apply Nat.eqb_eq in Hj as <-.
      destruct (m !! img) as [[|]|]; destruct (within img); simpl;
        unfold hits; simpl; rewrite ?Nat.eqb_refl; simpl; reflexivity.
    + assert ((j =? img)%nat = false) as Hj' by (by rewrite Nat.eqb_sym).
      assert (∀ es, (es = [] ∨ es = [mkEntry j (within j)]) → hits img es = 0)
        as Hnone.
      { intros es [-> | ->]; [done|]. unfold hits. simpl.
        by rewrite Hj', andb_false_r. }
      rewrite Hnone.
      * by destruct (_ && _).
      * destruct (m !! j) as [b|]; [|by right].
        destruct (Bool.eqb b (within j)); [by left | by right].
Qed.

Lemma hits_pendingEntries (within : nat → bool) (p : Page) :
  hits img (pendingEntries within p)
  = if within img && negb (seenIntersecting img p)
    then watchCount img p else 0.
Proof. apply hits_pending. Qed.

Lemma pendingEntries_report (within : nat → bool) (p : Page) :
  Forall (fun e => isIntersecting e = within (target e)) (pendingEntries within p).
Proof.
  unfold pendingEntries. induction (observed p) as [|j l IH]; [constructor|].
  cbn [flat_map]. apply Forall_app_2; [|exact IH].
  destruct (lastSeen p !! j) as [b|]; [destruct (Bool.eqb b (within j))|];
    repeat constructor.
Qed.

Lemma recorded_state (within : nat → bool) (entries : list Entry)
  (m : gmap nat bool) :
  Forall (fun e => isIntersecting e = within (target e)) entries →
  fold_left (fun m e => <[target e := isIntersecting e]> m) entries m !! img
  = m !! img
  ∨ fold_left (fun m e => <[target e := isIntersecting e]> m) entries m !! img
    = Some (within img).
Proof.
  intros H. revert m. induction H as [|e es He _ IH]; intros m; [by left|].
  cbn [fold_left].
  destruct (IH (<[target e := isIntersecting e]> m)) as [Hsame | Hset];
    [|by right].
  rewrite Hsame. destruct (decide (target e = img)) as [Heq | Hne].
  - right. by rewrite <- Heq, lookup_insert_eq, He.
  - left. by apply lookup_insert_ne.
Qed.

Lemma seenIntersecting_recordEntries (within : nat → bool) (p : Page) :
  within img = false →
  seenIntersecting img p = false →
  seenIntersecting img (recordEntries (pendingEntries within p) p) = false.
Proof.
  intros Hw Hs. unfold seenIntersecting, recordEntries. cbn [lastSeen].
  destruct (recorded_state within _ (lastSeen p) (pendingEntries_report within p))
    as [-> | ->]; [exact Hs | by rewrite Hw].
Qed.

(** Effect of one frame on an image that is out of the margin: nothing
    is requested and the image stays as it is on the watch list. *)
Lemma frame_outside (within : nat → bool) (p : Page) :
  within img = false →
  seenIntersecting img p = false →
  requestCount img (frame within p) = requestCount img p
  ∧ watchCount img (frame within p) = watchCount img p
  ∧ seenIntersecting img (frame within p) = false
  ∧ dataSrc (frame within p) = dataSrc p.
Proof.
  intros Hw Hs. unfold frame.
  set (q := recordEntries (pendingEntries within p) p).
  assert (hits img (pendingEntries within p) = 0) as Hh
    by (by rewrite hits_pendingEntries, Hw).
  destruct (onIntersection_effect img (pendingEntries within p) q)
    as (Hr & Hc & Hl).
  rewrite Hh in Hr, Hc. split; [|split; [|split]].
  - rewrite Hr. destruct (truthy _); unfold q, requestCount; simpl; lia.
  - rewrite Hc. reflexivity.
  - unfold seenIntersecting. rewrite (Hl Hh).
    by apply seenIntersecting_recordEntries.
  - by rewrite dataSrc_onIntersection.
Qed.

(** Effect of one frame on a watched image that is within the margin:
    its source is requested once and it leaves the watch list. *)
Lemma frame_inside (within : nat → bool) (p : Page) :
  within img = true →
  seenIntersecting img p = false →
  watchCount img p = 1 →
  truthy (dataSrc p img) = true →
  requestCount img (frame within p) = requestCount img p + 1
  ∧ watchCount img (frame within p) = 0
  ∧ dataSrc (frame within p) = dataSrc p.
Proof.
  intros Hw Hs Hc Hd. unfold frame.
  set (q := recordEntries (pendingEntries within p) p).
  assert (hits img (pendingEntries within p) = 1) as Hh
    by (by rewrite hits_pendingEntries, Hw, Hs, Hc).
  destruct (onIntersection_effect img (pendingEntries within p) q)
    as (Hr & Hcount & _).
  rewrite Hh in Hr, Hcount. split; [|split].
  - rewrite Hr. change (dataSrc q img) with (dataSrc p img). by rewrite Hd.
  - exact Hcount.
  - by rewrite dataSrc_onIntersection.
Qed.

(** An image that is not on the watch list is left alone. *)
Lemma frame_unwatched (within : nat → bool) (p : Page) :
  watchCount img p = 0 →
  requestCount img (frame within p) = requestCount img p
  ∧ watchCount img (frame within p) = 0.
Proof.
  intros Hc. unfold frame.
  set (q := recordEntries (pendingEntries within p) p).
  assert (hits img (pendingEntries within p) = 0) as Hh.
  { rewrite hits_pendingEntries, Hc. by destruct (_ && _). }
  destruct (onIntersection_effect img (pendingEntries within p) q)
    as (Hr & Hcount & _).
  rewrite Hh in Hr, Hcount. split.
  - rewrite Hr. destruct (truthy _); unfold q, requestCount; simpl; lia.
  - rewrite Hcount. exact Hc.
Qed.

Lemma observe_other (j : nat) (p : Page) :
  (j =? img)%nat = false →
  requestCount img (observe j p) = requestCount img p
  ∧ watchCount img (observe j p) = watchCount img p
  ∧ seenIntersecting img (observe j p) = seenIntersecting img p
  ∧ dataSrc (observe j p) = dataSrc p.
Proof.
  intros Hj. unfold observe. destruct (existsb _ _); [done|].
  split; [done|]. split; [|split; [|done]].
  - unfold watchCount. cbn [observed]. rewrite List.filter_app, length_app.
    simpl. rewrite Nat.eqb_sym, Hj. simpl. lia.
  - unfold seenIntersecting. cbn [lastSeen]. rewrite lookup_delete_ne; [done|].
    intros ->. by rewrite Nat.eqb_refl in Hj.
Qed.

Lemma observe_fresh (p : Page) :
  existsb (Nat.eqb img) (observed p) = false →
  requestCount img (observe img p) = requestCount img p
  ∧ watchCount img (observe img p) = 1
  ∧ seenIntersecting img (observe img p) = false
  ∧ dataSrc (observe img p) = dataSrc p.
Proof.
  intros Hf. unfold observe. rewrite Hf.
  split; [done|]. split; [|split; [|done]].
  - unfold watchCount. cbn [observed]. rewrite List.filter_app, length_app.
    simpl. rewrite Nat.eqb_refl. simpl.
    assert (List.filter (Nat.eqb img) (observed p) = []) as ->; [|done].
    induction (observed p) as [|k l IH]; [done|]. simpl in Hf |- *.
    apply orb_false_iff in Hf as [Hk Hl]. rewrite Hk. by apply IH.
  - unfold seenIntersecting. cbn [lastSeen]. by rewrite lookup_delete_eq.
Qed.

Lemma run_unwatched (steps : list Step) (p : Page) :
  registers img steps = false →
  watchCount img p = 0 →
  requestCount img (run steps p) = requestCount img p
  ∧ watchCount img (run steps p) = 0.
Proof.
  revert p. induction steps as [|s steps IH]; intros p Hreg Hc; [done|].
  cbn [registers existsb] in Hreg. apply orb_false_iff in Hreg as [Hs Hreg].
  change (run (s :: steps) p) with (run steps (step s p)).
  destruct s as [j | within]; cbn [step].
  - destruct (observe_other j p Hs) as (Hr & Hw & _).
    destruct (IH (observe j p) Hreg) as [Hr' Hw']; [by rewrite Hw|].
    split; [by rewrite Hr', Hr | exact Hw'].
  - destruct (frame_unwatched within p Hc) as [Hr Hw].
    destruct (IH (frame within p) Hreg Hw) as [Hr' Hw'].
    split; [by rewrite Hr', Hr | exact Hw'].
Qed.

Lemma run_watched (steps : list Step) (p : Page) :
  registers img steps = false →
  watchCount img p = 1 →
  seenIntersecting img p = false →
  truthy (dataSrc p img) = true →
  requestCount img (run steps p)
  = requestCount img p + (if everWithin img steps then 1 else 0)
  ∧ watchCount img (run steps p) = (if everWithin img steps then 0 else 1).
Proof.
  revert p. induction steps as [|s steps IH]; intros p Hreg Hc Hs Hd.
  - simpl. split; [lia | exact Hc].
  - cbn [registers existsb] in Hreg. apply orb_false_iff in Hreg as [Hj Hreg].
    change (run (s :: steps) p) with (run steps (step s p)).
    destruct s as [j | within]; cbn [step everWithin existsb orb].
    + destruct (observe_other j p Hj) as (Hr & Hw & Hseen & Hsrc).
      destruct (IH (observe j p) Hreg) as [Hr' Hw'];
        [by rewrite Hw | by rewrite Hseen | by rewrite Hsrc|].
      fold (everWithin img steps).
      split; [by rewrite Hr', Hr | exact Hw'].
    + fold (everWithin img steps).
      destruct (within img) eqn:Hin.
      * destruct (frame_inside within p Hin Hs Hc Hd) as (Hr & Hw & _).
        destruct (run_unwatched steps (frame within p) Hreg Hw) as [Hr' Hw'].
        cbn [orb]. split; [by rewrite Hr', Hr | exact Hw'].
      * destruct (frame_outside within p Hin Hs) as (Hr & Hw & Hseen & Hsrc).
        destruct (IH (frame within p) Hreg) as [Hr' Hw'];
          [by rewrite Hw | exact Hseen | by rewrite Hsrc|].
        cbn [orb]. split; [by rewrite Hr', Hr | exact Hw'].
Qed.

End LazyLoaderFrames.

Lemma watchCount_zero (img : nat) (p : Lazy.Page) :
  Lazy.watchCount img p = 0 ↔ img ∉ Lazy.observed p.
Proof.
  unfold Lazy.watchCount. induction (Lazy.observed p) as [|k l IH]; simpl.
  - split; [intros _; apply not_elem_of_nil | done].
  - rewrite not_elem_of_cons. destruct (img =? k)%nat eqn:Hk; simpl.
    + apply Nat.eqb_eq in Hk. split; [lia | tauto].
    + apply Nat.eqb_neq in Hk. tauto.
Qed.

(** C8. A placeholder registered with the observer, whose real source
    is set, is not requested as long as no frame finds it within the
    margin; it is requested at the first frame that does, and only
    then, however often it crosses the margin afterwards: the number of
    requests for it grows by one if some frame finds it within the
    margin and by none otherwise, and it is on the watch list exactly
    as long as no frame has found it within the margin. *)
Theorem image_requested_once
  (p : Lazy.Page) (img : nat) (steps : list Lazy.Step) :
  existsb (Nat.eqb img) (Lazy.observed p) = false →
  Lazy.registers img steps = false →
  truthy (Lazy.dataSrc p img) = true →
  Lazy.requestCount img (Lazy.run steps (Lazy.observe img p))
  = Lazy.requestCount img p + (if Lazy.everWithin img steps then 1 else 0)
  ∧ (img ∈ Lazy.observed (Lazy.run steps (Lazy.observe img p))
     ↔ Lazy.everWithin img steps = false)
  ∧ (∀ before after,
       steps = (before ++ after)%list →
       Lazy.everWithin img before = false →
       Lazy.requestCount img (Lazy.run before (Lazy.observe img p))
       = Lazy.requestCount img p).
Proof.
  intros Hfresh Hreg Hsrc.
  destruct (observe_fresh img p Hfresh) as (Hr0 & Hw0 & Hs0 & Hd0).
  assert (truthy (Lazy.dataSrc (Lazy.observe img p) img) = true) as Hsrc'
    by (by rewrite Hd0).
  destruct (run_watched img steps (Lazy.observe img p) Hreg Hw0 Hs0 Hsrc')
    as [Hr Hw].
  split; [by rewrite Hr, Hr0|]. split.
  - destruct (Lazy.everWithin img steps).
    + split; [|done]. intros Hin. by apply watchCount_zero in Hw.
    + split; [done|]. intros _.
      destruct (decide (img ∈ Lazy.observed (Lazy.run steps (Lazy.observe img p))))
        as [Hin | Hout]; [done|].
      apply watchCount_zero in Hout. lia.
  - intros before after -> Hnever.
    assert (Lazy.registers img before = false) as Hreg'.
    { unfold Lazy.registers in Hreg |- *. rewrite existsb_app in Hreg.
      by apply orb_false_iff in Hreg as [? _]. }
    destruct (run_watched img before (Lazy.observe img p) Hreg' Hw0 Hs0 Hsrc')
      as [Hr' _].
    rewrite Hr', Hnever, Hr0. lia.
Qed.

Lemma image_requested_once_witness :
  existsb (Nat.eqb 3) (Lazy.observed Sample.blankPage) = false
  ∧ Lazy.registers 3 Sample.toggling = false
  ∧ truthy (Lazy.dataSrc Sample.blankPage 3) = true
  ∧ Lazy.everWithin 3 Sample.toggling = true
  ∧ Lazy.requestCount 3
      (Lazy.run Sample.toggling (Lazy.observe 3 Sample.blankPage)) = 1.
Proof.
  split; [reflexivity|]. split; [reflexivity|]. split; [reflexivity|].
  split; [reflexivity|].
  destruct (image_requested_once Sample.blankPage 3 Sample.toggling
              eq_refl eq_refl eq_refl) as [H _].
  exact H.
Defined.

(** ** Debounced input *)

Section Debounce.

Import Full.

Lemma advance_idle (ms : nat) (r : Runtime) :
  timers r = [] → advance ms r = setClock (clock r + ms) r.
Proof. intros H. unfold advance. by rewrite H. Qed.

Lemma advance_before_due (ms : nat) (r : Runtime) (t : Timer) :
  timers r = [t] → clock r + ms < due t →
  advance ms r = setClock (clock r + ms) r.
Proof.
  intros H Hlt. unfold advance. rewrite H. cbn [length fire]. rewrite H.
  cbn [nextDue].
  replace (due t <=? clock r + ms)%nat with false; [done|].
  symmetry. apply Nat.leb_gt. lia.
Qed.

(** The first input of a burst arms the timer of its channel. *)
Lemma first_input_arms (gap : nat) (i : Input) (r : Runtime) :
  timers r = [] →
  Spec.Armed (channelCallback i) (filters (app r)) (recomputations r) i
             (onInput i (advance gap r)).
Proof.
  intros Hidle. rewrite (advance_idle gap r Hidle).
  destruct r as [a sv pv st ft tm nid ck log]. simpl in Hidle. subst tm.
  destruct i as [v | v]; (split; [reflexivity|]);
    unfold onInput, onSearchInput, onPriceInput, debounce, setTimeout, clearTimeout;
    simpl.
  - destruct st as [n|]; simpl; (split; [by eexists|]); repeat split;
      by intros ? [= ->].
  - destruct ft as [n|]; simpl; (split; [by eexists|]); repeat split; done.
Qed.

(** A further input within the window replaces the armed timer. *)
Lemma next_input_rearms (c : Callback) (f0 : filters.t) (log : list filters.t)
  (prev i : Input) (gap : nat) (st : Runtime) :
  Spec.Armed c f0 log prev st →
  channelCallback i = c →
  gap < window c →
  Spec.Armed c f0 log i (onInput i (advance gap st)).
Proof.
  intros (Hprev & (tid & Htm & Hch) & Hlog & Hf & Hv) Hi Hgap.
  rewrite (advance_before_due gap st _ Htm) by (simpl; lia).
  split; [exact Hi|]. clear Hv.
  destruct st as [a sv pv sdt fdt tm nid ck lg].
  cbn [timers clock recomputations app] in *. subst tm lg.
  destruct i as [v | v]; cbn [channelCallback] in Hi; rewrite <- Hi in *;
    cbn [Spec.channelTimer searchDebounceTimer filterDebounceTimer] in Hch;
    subst;
    unfold onInput, onSearchInput, onPriceInput, debounce, setTimeout, clearTimeout;
    simpl; rewrite Nat.eqb_refl; simpl.
  - split; [by eexists|]. split; [done|]. split.
    + rewrite Hf. by destruct prev.
    + by intros ? [= ->].
  - split; [by eexists|]. split; [done|]. split.
    + rewrite Hf. by destruct prev.
    + done.
Qed.


Lemma armed_count (c : Callback) (f0 : filters.t) (log : list filters.t)
  (latest : Input) (st : Runtime) :
  Spec.Armed c f0 log latest st → length (armedFor c st) = 1.
Proof.
  intros (_ & (tid & Htm & _) & _). unfold armedFor. rewrite Htm. simpl.
  by destruct c.
Qed.

Lemma last_cons_default {A : Type} (x d : A) (l : list A) :
  List.last (x :: l) d = List.last l x.
Proof.
  revert x d. induction l as [|y l IH]; intros x d; [done|].
  change (List.last (x :: y :: l) d) with (List.last (y :: l) d).
  by rewrite !IH.
Qed.

Lemma burst_stays_armed (c : Callback) (f0 : filters.t) (log : list filters.t)
  (rest : list (nat * Input)) (prev : Input) (st : Runtime) :
  Spec.Armed c f0 log prev st →
  Forall (fun e => channelCallback (snd e) = c ∧ fst e < window c) rest →
  Spec.Armed c f0 log (List.last (map snd rest) prev) (runBurst rest st)
  ∧ Forall (fun x => length (armedFor c x) = 1) (burstTrace rest st).
Proof.
  intros Harmed Hrest. revert prev st Harmed.
  induction Hrest as [|[gap i] rest [Hi Hgap] _ IH]; intros prev st Harmed.
  - split; [exact Harmed|]. repeat constructor. by eapply armed_count.
  - cbn [map snd]. rewrite last_cons_default. cbn [runBurst burstTrace].
    simpl in Hi, Hgap.
    pose proof (next_input_rearms c f0 log prev i gap st Harmed Hi Hgap) as Hnext.
    destruct (IH i _ Hnext) as [Hlast Htrace].
    split; [exact Hlast|]. constructor; [by eapply armed_count | exact Htrace].
Qed.

End Debounce.



(** * Further properties of the code *)

(** ** Encoders *)

Lemma escapeHtml_other (c : ascii) (t : string) :
  Measure.special c = false → (code c =? 194)%N = false →
  escapeHtml (String c t) = String c (escapeHtml t).
Proof.
  intros Hc H. apply escapeHtml_plain; [done|].
  destruct t as [|d u]; [done|]. unfold isWhiteSpace2. by rewrite H.
Qed.

Lemma ascii_other (c : ascii) :
  (code c <? 128)%N = true → (code c =? 194)%N = false.
Proof. destruct c as [[] [] [] [] [] [] [] []]; vm_compute; congruence. Qed.

Lemma continuation_other (c : ascii) :
  isContinuation c = true →
  Measure.special c = false ∧ (code c =? 194)%N = false.
Proof. destruct c as [[] [] [] [] [] [] [] []]; vm_compute; split; congruence. Qed.

Lemma lead_other (c : ascii) :
  between 224 239 (code c) = true ∨ between 240 244 (code c) = true →
  Measure.special c = false ∧ (code c =? 194)%N = false.
Proof.
  destruct c as [[] [] [] [] [] [] [] []]; vm_compute;
    (intros [?|?]; split; congruence).
Qed.

Lemma two_byte_plain (c : ascii) :
  between 194 223 (code c) = true → Measure.special c = false.
Proof. destruct c as [[] [] [] [] [] [] [] []]; vm_compute; congruence. Qed.

(** Escaping goes through a concatenation whose first part is made of
    whole characters. *)
Lemma escapeHtml_app (a b : string) :
  wellFormed a = true →
  escapeHtml (a ++ b) = escapeHtml a ++ escapeHtml b.
Proof.
  induction a as [a IH] using string_length_ind. intros Hwf.
  destruct a as [|c t]; [done|].
  cbn [wellFormed] in Hwf.
  destruct (code c <? 128)%N eqn:H1.
  { rewrite string_app_cons. destruct (Measure.special c) eqn:Hc.
    - rewrite !escapeHtml_special by done.
      rewrite string_app_assoc, IH; [done | simpl; lia | done].
    - rewrite !escapeHtml_other by (done || by apply ascii_other).
      rewrite string_app_cons, IH; [done | simpl; lia | done]. }
  destruct (between 194 223 (code c)) eqn:H2.
  { destruct t as [|d u]; [done|]. apply andb_true_iff in Hwf as [Hd Hu].
    rewrite !string_app_cons.
    destruct (isWhiteSpace2 c d) eqn:Hw.
    - rewrite !escapeHtml_nbsp by done.
      rewrite string_app_assoc, IH; [done | simpl; lia | done].
    - destruct (continuation_other d Hd) as [Sd Od].
      rewrite !(escapeHtml_plain c) by (done || by apply two_byte_plain).
      rewrite !(escapeHtml_other d) by done.
      rewrite !string_app_cons, IH; [done | simpl; lia | done]. }
  destruct (between 224 239 (code c)) eqn:H3.
  { destruct t as [|d [|e u]]; [done..|].
    apply andb_true_iff in Hwf as [Hwf Hu].
    apply andb_true_iff in Hwf as [Hd He].
    destruct (lead_other c (or_introl H3)) as [Sc Oc].
    destruct (continuation_other d Hd) as [Sd Od].
    destruct (continuation_other e He) as [Se Oe].
    rewrite !string_app_cons.
    rewrite !(escapeHtml_other c), !(escapeHtml_other d), !(escapeHtml_other e)
      by done.
    rewrite !string_app_cons, IH; [done | simpl; lia | done]. }
  destruct (between 240 244 (code c)) eqn:H4; [|done].
  destruct t as [|d [|e [|f u]]]; [done..|].
  apply andb_true_iff in Hwf as [Hwf Hu].
  apply andb_true_iff in Hwf as [Hwf Hf].
  apply andb_true_iff in Hwf as [Hd He].
  destruct (lead_other c (or_intror H4)) as [Sc Oc].
  destruct (continuation_other d Hd) as [Sd Od].
  destruct (continuation_other e He) as [Se Oe].
  destruct (continuation_other f Hf) as [Sf Of].
  rewrite !string_app_cons.
  rewrite !(escapeHtml_other c), !(escapeHtml_other d), !(escapeHtml_other e),
    !(escapeHtml_other f) by done.
  rewrite !string_app_cons, IH; [done | simpl; lia | done].
Qed.

(** Text without a special character and without a no-break space is
    left as it is. *)
Lemma escapeHtml_id (text : string) :
  Measure.allChars (fun c => negb (Measure.special c)) text = true →
  includes text nbsp = false →
  escapeHtml text = text.
Proof.
  induction text as [|c t IH]; [done|].
  cbn [Measure.allChars]. intros Hall Hno. apply andb_true_iff in Hall as [Hc Ht].
  apply negb_true_iff in Hc.
  cbn [includes] in Hno. apply orb_false_iff in Hno as [Hhead Hno].
  rewrite escapeHtml_plain, IH; try done.
  destruct t as [|d u]; [done|].
  destruct (isWhiteSpace2 c d) eqn:H2; [|done].
  destruct (whiteSpace2_bytes c d H2) as [-> ->]. discriminate.
Qed.

(** X1. Escaped text holds neither of the characters that delimit a
    tag and is never shorter than the text.  A no-break space that
    follows whole characters is written as an entity.  A text without
    an ampersand, an angle bracket or a no-break space is left as it
    is, whatever else it holds (quotes included). *)
Theorem escapeHtml_neutralizes (text : string) :
  includes (escapeHtml text) "<" = false
  ∧ includes (escapeHtml text) ">" = false
  ∧ (String.length text ≤ String.length (escapeHtml text))%nat
  ∧ (∀ rest, wellFormed text = true →
       escapeHtml (text ++ nbsp ++ rest)
       = escapeHtml text ++ "&nbsp;" ++ escapeHtml rest)
  ∧ (Measure.allChars (fun c => negb (Measure.special c)) text = true →
     includes text nbsp = false →
     escapeHtml text = text).
Proof.
  destruct (escapeHtml_facts text) as (Hlt & Hgt & Hlen).
  split; [exact Hlt|]. split; [exact Hgt|]. split; [exact Hlen|].
  split; [|apply escapeHtml_id].
  intros rest Hwf. rewrite (escapeHtml_app text _ Hwf). reflexivity.
Qed.

Lemma escapeHtml_neutralizes_witness :
  (Measure.allChars (fun c => negb (Measure.special c))
                    (html "say ~hola~ 'amigo'") = true
   ∧ includes (html "say ~hola~ 'amigo'") nbsp = false
   ∧ escapeHtml (html "say ~hola~ 'amigo'") = html "say ~hola~ 'amigo'")
  ∧ (wellFormed "Viña" = true
     ∧ escapeHtml ("Viña" ++ nbsp ++ "<Vik>") = "Viña&nbsp;&lt;Vik&gt;").
Proof.
  split.
  - split; [reflexivity|]. split; [reflexivity|].
    destruct (escapeHtml_neutralizes (html "say ~hola~ 'amigo'"))
      as (_ & _ & _ & _ & H).
    exact (H eq_refl eq_refl).
  - split; [reflexivity|].
    destruct (escapeHtml_neutralizes "Viña") as (_ & _ & _ & H & _).
    exact (H "<Vik>" eq_refl).
Defined.

Lemma escapeHtml_empty (b : string) :
  escapeHtml b = EmptyString → b = EmptyString.
Proof.
  intros H. pose proof (escapeHtml_facts b) as (_ & _ & Hlen).
  rewrite H in Hlen. destruct b; [done | simpl in Hlen; lia].
Qed.

Ltac entity_of c Hc H :=
  let E := fresh "E" in
  destruct (entity_shape c Hc) as [[-> E] | [[-> E] | [-> E]]];
  rewrite E in H; clear E.

(** X2. [escapeHtml] loses nothing: two texts with the same escaped
    form are the same text. *)
Theorem escapeHtml_injective (a b : string) :
  escapeHtml a = escapeHtml b ↔ a = b.
Proof.
  split; [|by intros ->].
  revert b. induction a as [a IH] using string_length_ind. intros b H.
  destruct (escaping a) as [-> | c t -> Hc Ha | c d u -> Hc H2 Ha | c t -> Hc Ht Ha].
  { symmetry. by apply escapeHtml_empty. }
  all: destruct (escaping b) as [-> | c' t' -> Hc' Hb | c' d' u' -> Hc' H2' Hb
                                 | c' t' -> Hc' Ht' Hb];
    try (change (escapeHtml EmptyString) with EmptyString in H;
         by apply escapeHtml_empty in H);
    rewrite Ha, Hb in H; clear Ha Hb.
  - entity_of c Hc H; entity_of c' Hc' H;
      rewrite ?string_app_cons, ?string_app_nil_l in H; try discriminate;
      f_equal; (apply IH; [simpl; lia | congruence]).
  - entity_of c Hc H;
      rewrite ?string_app_cons, ?string_app_nil_l in H; discriminate.
  - entity_of c Hc H;
      rewrite ?string_app_cons, ?string_app_nil_l in H;
      injection H as <- _; discriminate.
  - entity_of c' Hc' H;
      rewrite ?string_app_cons, ?string_app_nil_l in H; discriminate.
  - destruct (whiteSpace2_bytes c d H2) as [-> ->].
    destruct (whiteSpace2_bytes c' d' H2') as [-> ->].
    rewrite ?string_app_cons, ?string_app_nil_l in H.
    do 2 f_equal. apply IH; [simpl; lia | congruence].
  - rewrite ?string_app_cons, ?string_app_nil_l in H.
    injection H as <- _. discriminate.
  - entity_of c' Hc' H;
      rewrite ?string_app_cons, ?string_app_nil_l in H;
      injection H as -> _; discriminate.
  - rewrite ?string_app_cons, ?string_app_nil_l in H.
    injection H as -> _. discriminate.
  - injection H as -> H. f_equal. apply IH; [simpl; lia | done].
Qed.

(** ** Failures of a recomputation *)

Lemma matches_throw_iff (f : Full.filters.t) (h : hotel.t) (e : Error) :
  Full.matches f h = Throw e
  ↔ e = TypeError ∧ hotel.amenities h = None
    ∧ Full.filters.amenities f ≠ ∅
    ∧ Spec.passesSearch f h ∧ Spec.passesRegion f h ∧ Spec.passesPrice f h.
Proof.
  rewrite <- search_clause, <- region_clause, <- price_clause.
  unfold Full.matches.
  destruct (truthy (Full.filters.search f) && _) eqn:Hs; [intuition congruence|].
  destruct (truthy (Full.filters.region f) && _) eqn:Hr; [intuition congruence|].
  destruct (hotel.nightlyRate h >? _)%Z eqn:Hp; [intuition congruence|].
  destruct (0 <? size (Full.filters.amenities f))%nat eqn:Hz.
  - assert (Full.filters.amenities f ≠ ∅) as Hne.
    { intros He. rewrite He, size_empty in Hz. discriminate. }
    destruct (hotel.amenities h) as [l|].
    + destruct (forallb _ _); intuition congruence.
    + split; [intros [= <-]; by repeat split | by intros (-> & _)].
  - apply size_zero_ltb in Hz. intuition congruence.
Qed.

Lemma arrayFilter_throw_elim {A : Type} (cb : A → completion bool) (l : list A)
  (e : Error) :
  arrayFilter cb l = Throw e → ∃ x, x ∈ l ∧ cb x = Throw e.
Proof.
  induction l as [|x l IH]; [done|]. simpl.
  destruct (cb x) as [b|e'] eqn:Hx.
  - destruct (arrayFilter cb l) as [r|e'']; [done|].
    intros [= ->]. destruct (IH eq_refl) as (y & Hy & Hcb).
    exists y. split; [by right | done].
  - intros [= ->]. exists x. split; [by left | done].
Qed.

Lemma arrayFilter_throw_intro {A : Type} (cb : A → completion bool) (l : list A)
  (x : A) (e : Error) :
  x ∈ l → cb x = Throw e → ∃ e', arrayFilter cb l = Throw e'.
Proof.
  intros Hin Hx. induction l as [|y l IH]; [by apply elem_of_nil in Hin|].
  simpl. destruct (cb y) as [b|e'] eqn:Hy; [|by eexists].
  apply elem_of_cons in Hin as [-> | Hin]; [congruence|].
  destruct (IH Hin) as [e'' ->]. by eexists.
Qed.

(** X4. The filtering step of [applyFilters] raises exactly when an
    amenity is required and some loaded record has no [amenities] while
    passing the search, region and price constraints; the exception is
    a [TypeError], and [applyFilters] then leaves the whole state as it
    was: the results on screen are the previous ones. *)
Theorem filtering_fails_exactly (s : Full.App) :
  (arrayFilter (Full.matches (Full.filters s)) (Full.hotels s) = Throw TypeError
   ↔ Full.filters.amenities (Full.filters s) ≠ ∅
     ∧ ∃ h, h ∈ Full.hotels s ∧ hotel.amenities h = None
            ∧ Spec.passesSearch (Full.filters s) h
            ∧ Spec.passesRegion (Full.filters s) h
            ∧ Spec.passesPrice (Full.filters s) h)
  ∧ (∀ e, arrayFilter (Full.matches (Full.filters s)) (Full.hotels s) = Throw e →
          e = TypeError ∧ Full.applyFilters s = (s, Throw TypeError)).
Proof.
  split.
  - split.
    + intros H. apply arrayFilter_throw_elim in H as (h & Hin & Hh).
      apply matches_throw_iff in Hh as (_ & Hnone & Hne & Hs & Hr & Hp).
      split; [done|]. by exists h.
    + intros (Hne & h & Hin & Hnone & Hs & Hr & Hp).
      assert (Full.matches (Full.filters s) h = Throw TypeError) as Hh
        by (by apply matches_throw_iff).
      destruct (arrayFilter_throw_intro _ _ h _ Hin Hh) as [e He].
      rewrite He. f_equal.
      apply arrayFilter_throw_elim in He as (h' & _ & Hh').
      by apply matches_throw_iff in Hh' as (-> & _).
  - intros e He.
    assert (e = TypeError) as ->.
    { apply arrayFilter_throw_elim in He as (h' & _ & Hh').
      by apply matches_throw_iff in Hh' as (-> & _). }
    split; [done|]. unfold Full.applyFilters. by rewrite He.
Qed.

Lemma filtering_fails_exactly_witness :
  arrayFilter (Full.matches (Sample.onlyAmenities {[ "spa" ]}))
              [Sample.andean; Sample.bare] = Throw TypeError
  ∧ Full.applyFilters
      (Sample.appWith [Sample.andean; Sample.bare]
                      (Sample.onlyAmenities {[ "spa" ]}))
    = (Sample.appWith [Sample.andean; Sample.bare]
                      (Sample.onlyAmenities {[ "spa" ]}),
       Throw TypeError).
Proof.
  split; [reflexivity|].
  destruct (filtering_fails_exactly
              (Sample.appWith [Sample.andean; Sample.bare]
                              (Sample.onlyAmenities {[ "spa" ]}))) as [_ H].
  exact (proj2 (H TypeError eq_refl)).
Defined.

(** ** Outcome of a rendering *)







(** X6. A rendering hands the live region one text when it completes
    with at least one record and none otherwise; the text for no
    matching hotel is therefore never announced, since it differs from
    the text of every positive count. *)
Theorem zero_results_never_announced (s : Full.App) :
  Full.announcements (fst (Full.renderHotels s))
  = (Full.announcements s
     ++ match snd (Full.renderHotels s), length (Full.filteredHotels s) with
        | Normal _, S n => [Full.announcementText (S n)]
        | _, _ => []
        end)%list
  ∧ ∀ n, Full.announcementText (S n) ≠ Full.announcementText 0.
Proof.
  split.
  - unfold Full.renderHotels.
    destruct (Full.filteredHotels s) as [|h R].
    + simpl. by rewrite app_nil_r.
    + cbn [length]. change (S (length R) =? 0)%nat with false. cbv iota.
      destruct (arrayMap Full.createHotelCard (h :: R)); simpl;
        [done | by rewrite app_nil_r].
  - intros [|n]; [discriminate|].
    unfold Full.announcementText.
    change (S (S n) =? 0)%nat with false. change (S (S n) =? 1)%nat with false.
    cbv iota. change (0 =? 0)%nat with true. cbv iota.
    rewrite !string_app_cons. discriminate.
Qed.

(** X7. Rendering is idempotent on what is shown: a second rendering of
    the same state ends the same way and leaves the header, the
    empty-state indicator, the grid and the engine's fields as the
    first one left them. *)
Theorem renderHotels_idempotent (s : Full.App) :
  snd (Full.renderHotels (fst (Full.renderHotels s))) = snd (Full.renderHotels s)
  ∧ Measure.sameView (fst (Full.renderHotels (fst (Full.renderHotels s))))
                     (fst (Full.renderHotels s)).
Proof.
  unfold Full.renderHotels.
  destruct (Full.filteredHotels s) as [|h R] eqn:HR.
  - simpl. rewrite HR. simpl. by repeat split.
  - cbn [length]. change (S (length R) =? 0)%nat with false. cbv iota.
    destruct (arrayMap Full.createHotelCard (h :: R)) as [cards|e] eqn:Hmap;
      simpl; rewrite HR; cbn [length];
      change (S (length R) =? 0)%nat with false; cbv iota; rewrite Hmap;
      by repeat split.
Qed.

(** ** Narrowing and resetting the configuration *)

Lemma substringOf_trans (a b c : string) :
  Spec.substringOf a b → Spec.substringOf b c → Spec.substringOf a c.
Proof.
  intros (p & q & ->) (p' & q' & ->).
  exists (p' ++ p), (q ++ q'). by rewrite !string_app_assoc.
Qed.

Lemma substringOf_empty (a : string) :
  Spec.substringOf a EmptyString → a = EmptyString.
Proof.
  intros (p & q & H). destruct p; [|discriminate].
  rewrite string_app_nil_l in H. by destruct a.
Qed.

Lemma narrows_accepts (f' f : Full.filters.t) (h : hotel.t) :
  Measure.narrows f' f →
  Full.matches f' h = Normal true → Full.matches f h = Normal true.
Proof.
  intros (Hs & Hr & Hp & Ha). rewrite !matches_true_iff.
  intros (Hs' & Hr' & Hp' & Ha'). repeat split.
  - destruct Hs' as [He | Hsub].
    + left. rewrite He in Hs. by apply substringOf_empty.
    + right. by eapply substringOf_trans.
  - destruct Hr as [He | He]; [by left|].
    destruct Hr' as [He' | He']; [left; congruence | right; congruence].
  - unfold Spec.passesPrice in *. lia.
  - unfold Spec.passesAmenities in *. intros a Hin. by apply Ha', Ha.
Qed.

Lemma sublist_List_filter_impl {A : Type} (p q : A → bool) (l : list A) :
  (∀ x, p x = true → q x = true) →
  sublist (List.filter p l) (List.filter q l).
Proof.
  intros H. induction l as [|x l IH]; simpl; [constructor|].
  destruct (p x) eqn:Hp.
  - rewrite (H x Hp). by constructor.
  - destruct (q x); [by constructor | done].
Qed.

(** X8. Narrowing the configuration never adds a result: when the
    search text is extended, a region is chosen where none was, the
    price ceiling is lowered or a further amenity is required, the
    records kept by the recomputation are among those kept before, in
    the same order (on a record set that carries [amenities]). *)
Theorem narrowing_never_adds (s : Full.App) (f f' : Full.filters.t) :
  Measure.narrows f' f →
  Forall Spec.hasAmenities (Full.hotels s) →
  sublist (Full.filteredHotels (fst (Full.applyFilters (Full.setFilters f' s))))
          (Full.filteredHotels (fst (Full.applyFilters (Full.setFilters f s)))).
Proof.
  intros Hn Hwf.
  rewrite (filteredHotels_applyFilters (Full.setFilters f' s)
             (List.filter (Spec.accepts f') (Full.hotels s)))
    by (apply (arrayFilter_total f'); by left).
  rewrite (filteredHotels_applyFilters (Full.setFilters f s)
             (List.filter (Spec.accepts f) (Full.hotels s)))
    by (apply (arrayFilter_total f); by left).
  apply sublist_List_filter_impl. intros h.
  rewrite !matches_accepts. by apply narrows_accepts.
Qed.

Lemma narrowing_never_adds_witness :
  Measure.narrows (Full.filters.make "andes" "Atacama" 400 {[ "spa" ]})
                  Full.defaultFilters
  ∧ Forall Spec.hasAmenities [Sample.andean; Sample.costly; Sample.north]
  ∧ sublist
      (Full.filteredHotels
         (fst (Full.applyFilters
                 (Full.setFilters
                    (Full.filters.make "andes" "Atacama" 400 {[ "spa" ]})
                    (Sample.appWith [Sample.andean; Sample.costly; Sample.north]
                                    Full.defaultFilters)))))
      [Sample.andean; Sample.north].
Proof.
  assert (Measure.narrows (Full.filters.make "andes" "Atacama" 400 {[ "spa" ]})
                          Full.defaultFilters) as Hn.
  { split; [by exists EmptyString, "andes"|]. split; [by left|].
    split; [simpl; lia | simpl; apply empty_subseteq]. }
  assert (Forall Spec.hasAmenities [Sample.andean; Sample.costly; Sample.north])
    as Hwf by (repeat constructor; by eexists).
  split; [exact Hn|]. split; [exact Hwf|].
  exact (narrowing_never_adds
           (Sample.appWith [Sample.andean; Sample.costly; Sample.north]
                           Full.defaultFilters)
           Full.defaultFilters
           (Full.filters.make "andes" "Atacama" 400 {[ "spa" ]}) Hn Hwf).
Defined.

(** X9. [resetFilters] always completes its filtering, whatever the
    records and the configuration before it: it restores the default
    configuration and keeps exactly the records priced at most 2500, in
    order, records without [amenities] included. *)
Theorem resetFilters_restores_default (s : Full.App) :
  Full.filters (fst (Full.resetFilters s)) = Full.defaultFilters
  ∧ Full.hotels (fst (Full.resetFilters s)) = Full.hotels s
  ∧ Full.filteredHotels (fst (Full.resetFilters s))
    = List.filter (fun h => (hotel.nightlyRate h <=? 2500)%Z) (Full.hotels s).
Proof.
  unfold Full.resetFilters.
  assert (arrayFilter (Full.matches Full.defaultFilters) (Full.hotels s)
          = Normal (List.filter (fun h => (hotel.nightlyRate h <=? 2500)%Z)
                                (Full.hotels s))) as Hkept.
  { rewrite arrayFilter_total by (by right). f_equal.
    apply List_filter_ext_Forall, Forall_forall. intros h _.
    unfold Spec.accepts, Full.matches. simpl.
    rewrite Z.gtb_ltb, Z.leb_antisym. by destruct (2500 <? hotel.nightlyRate h)%Z. }
  split; [|split].
  - unfold Full.applyFilters. cbn [Full.filters Full.hotels Full.setFilters].
    rewrite Hkept. unfold Full.renderHotels. cbn [Full.filteredHotels Full.setFilteredHotels].
    destruct (length _ =? 0)%nat; [done|].
    by destruct (arrayMap Full.createHotelCard _).
  - unfold Full.applyFilters. cbn [Full.filters Full.hotels Full.setFilters].
    rewrite Hkept. unfold Full.renderHotels. cbn [Full.filteredHotels Full.setFilteredHotels].
    destruct (length _ =? 0)%nat; [done|].
    by destruct (arrayMap Full.createHotelCard _).
  - by apply filteredHotels_applyFilters.
Qed.

(** ** Start-up failures *)




(** ** Search text *)

Lemma whiteSpace_lower (c : ascii) :
  isWhiteSpace c = true → isLatinLead c = false ∧ lowerChar c = c.
Proof. destruct c as [[] [] [] [] [] [] [] []]; vm_compute; split; congruence. Qed.

Lemma high_lower (c : ascii) :
  (128 <=? code c)%N = true → lowerChar c = c.
Proof. destruct c as [[] [] [] [] [] [] [] []]; vm_compute; congruence. Qed.

Lemma wide_lead (c : ascii) :
  (224 <=? code c)%N = true → isLatinLead c = false.
Proof. destruct c as [[] [] [] [] [] [] [] []]; vm_compute; congruence. Qed.

(** The bytes of a white-space character of three bytes: a first byte
    from E1 on and two continuation bytes. *)
Lemma whiteSpace3_bytes (c d e : ascii) :
  isWhiteSpace3 c d e = true →
  (224 <=? code c)%N = true ∧ isContinuation d = true ∧ isContinuation e = true.
Proof.
  unfold isWhiteSpace3, isContinuation, between. intros H.
  repeat match goal with
         | H : (_ || _) = true |- _ => apply orb_true_iff in H as [H | H]
         | H : (_ && _) = true |- _ => apply andb_true_iff in H as [? ?]
         | H : (_ =? _)%N = true |- _ => apply N.eqb_eq in H
         | H : (_ <=? _)%N = true |- _ => apply N.leb_le in H
         end;
  rewrite !andb_true_iff, !N.leb_le; lia.
Qed.

Lemma blank_lower (value : string) :
  isBlank value = true → toLowerCase value = value.
Proof.
  induction value as [value IH] using string_length_ind. intros Hb.
  destruct value as [|c t]; [done|]. cbn [isBlank] in Hb.
  destruct (isWhiteSpace c) eqn:Hc.
  { destruct (whiteSpace_lower c Hc) as [Hl He].
    rewrite toLowerCase_plain, He by done.
    f_equal. apply IH; [simpl; lia | done]. }
  destruct t as [|d u]; [done|].
  destruct (isWhiteSpace2 c d) eqn:H2.
  { destruct (whiteSpace2_bytes c d H2) as [-> ->].
    rewrite toLowerCase_pair by reflexivity.
    rewrite IH; [reflexivity | simpl; lia | done]. }
  destruct u as [|e v]; [done|].
  apply andb_true_iff in Hb as [H3 Hv].
  destruct (whiteSpace3_bytes c d e H3) as (Bc & Bd & Be).
  rewrite (toLowerCase_plain c) by (by apply wide_lead).
  rewrite (toLowerCase_plain d), (toLowerCase_plain e)
    by (by apply continuation_not_lead).
  rewrite (high_lower c), (high_lower d), (high_lower e).
  - do 3 f_equal. apply IH; [simpl; lia | done].
  - unfold isContinuation, between in Be. by apply andb_true_iff in Be as [? _].
  - unfold isContinuation, between in Bd. by apply andb_true_iff in Bd as [? _].
  - apply N.leb_le in Bc. apply N.leb_le. lia.
Qed.

Lemma blank_trimStart (value : string) :
  isBlank value = true → trimStart value = EmptyString.
Proof.
  induction value as [value IH] using string_length_ind. intros Hb.
  destruct value as [|c t]; [done|]. cbn [isBlank] in Hb. cbn [trimStart].
  destruct (isWhiteSpace c); [apply IH; [simpl; lia | done]|].
  destruct t as [|d u]; [done|].
  destruct (isWhiteSpace2 c d); [apply IH; [simpl; lia | done]|].
  destruct u as [|e v]; [done|].
  apply andb_true_iff in Hb as [-> Hv]. apply IH; [simpl; lia | done].
Qed.

(** Lowercasing and trimming white space leaves nothing. *)
Lemma trim_blank (value : string) :
  isBlank value = true → trim (toLowerCase value) = EmptyString.
Proof.
  intros H. unfold trim.
  by rewrite (blank_lower value H), (blank_trimStart value H).
Qed.

Lemma applyFilters_keeps (t : Full.App) :
  Full.filters (fst (Full.applyFilters t)) = Full.filters t
  ∧ Full.hotels (fst (Full.applyFilters t)) = Full.hotels t.
Proof.
  unfold Full.applyFilters.
  destruct (arrayFilter _ _) as [kept|]; [|done].
  unfold Full.renderHotels. cbn [Full.filteredHotels Full.setFilteredHotels].
  destruct (length kept =? 0)%nat; [done|].
  by destruct (arrayMap Full.createHotelCard kept).
Qed.

(** X11. When the search box holds white space only (blanks, tabs,
    no-break spaces and the like), the search handler commits the empty
    text and leaves the rest of the configuration: the records it
    accepts are those that pass the region, price and amenity
    constraints, and on a record set that carries [amenities] (or with
    no amenity required) the subset it computes is the one of the
    configuration without a search text. *)
Theorem blank_search_filters_nothing (r : Full.Runtime) :
  isBlank (Full.searchInputValue r) = true →
  let f := Full.filters (Full.app r) in
  let unsearched :=
    Full.filters.make EmptyString (Full.filters.region f)
                      (Full.filters.maxPrice f) (Full.filters.amenities f) in
  let after := Full.app (Full.runCallback Full.SearchCallback r) in
  Full.filters after = unsearched
  ∧ (∀ h, Full.matches (Full.filters after) h = Normal true
          ↔ Spec.passesRegion f h ∧ Spec.passesPrice f h
            ∧ Spec.passesAmenities f h)
  ∧ (Forall Spec.hasAmenities (Full.hotels (Full.app r))
     ∨ Full.filters.amenities f = ∅ →
     Full.filteredHotels after
     = List.filter (Spec.accepts unsearched) (Full.hotels (Full.app r))).
Proof.
  intros Hblank f unsearched after.
  assert (Full.filters after = unsearched) as Hf.
  { subst after. cbn [Full.runCallback Full.recompute Full.app Full.setApp].
    rewrite (proj1 (applyFilters_keeps _)). cbn [Full.filters Full.setFilters].
    by rewrite (trim_blank _ Hblank). }
  split; [exact Hf|]. split.
  - intros h. rewrite Hf, matches_true_iff.
    unfold Spec.passesSearch, Spec.passesRegion, Spec.passesPrice,
      Spec.passesAmenities. subst unsearched. cbn. tauto.
  - intros Hwf. subst after.
    cbn [Full.runCallback Full.recompute Full.app Full.setApp].
    rewrite (trim_blank _ Hblank). fold f. fold unsearched.
    apply filteredHotels_applyFilters. cbn [Full.filters Full.hotels Full.setFilters].
    by apply arrayFilter_total.
Qed.

Lemma blank_search_filters_nothing_witness :
  isBlank (Full.searchInputValue Sample.blankBox) = true
  ∧ Full.filters.search (Full.filters (Full.app Sample.blankBox)) = "lago"
  ∧ Full.filteredHotels
      (Full.app (Full.runCallback Full.SearchCallback Sample.blankBox))
    = [Sample.andean].
Proof.
  split; [reflexivity|]. split; [reflexivity|].
  destruct (blank_search_filters_nothing Sample.blankBox eq_refl) as (_ & _ & H).
  etransitivity; [exact (H (or_intror eq_refl))|]. vm_compute. reflexivity.
Defined.

(** ** Amenity check boxes *)

(** X12. Checking an amenity that was not required and clearing it
    again restores the configuration, also when a recomputation in
    between has raised; checking one that is already required leaves
    the configuration as it is.  On a record set that carries
    [amenities], the filtered subset after the round trip is the one a
    recomputation of the starting state gives. *)
Theorem amenity_check_round_trip (s : Full.App) (amenity : string) :
  (amenity ∉ Full.filters.amenities (Full.filters s) →
   Full.filters
     (fst (Full.onAmenityChange amenity false
             (fst (Full.onAmenityChange amenity true s))))
   = Full.filters s)
  ∧ (amenity ∈ Full.filters.amenities (Full.filters s) →
     Full.filters (fst (Full.onAmenityChange amenity true s)) = Full.filters s)
  ∧ (amenity ∉ Full.filters.amenities (Full.filters s) →
     Forall Spec.hasAmenities (Full.hotels s) →
     Full.filteredHotels
       (fst (Full.onAmenityChange amenity false
               (fst (Full.onAmenityChange amenity true s))))
     = Full.filteredHotels (fst (Full.applyFilters s))).
Proof.
  assert (∀ (t : Full.App),
            Full.filters (fst (Full.applyFilters t)) = Full.filters t
            ∧ Full.hotels (fst (Full.applyFilters t)) = Full.hotels t) as Hkeep.
  { intros t. unfold Full.applyFilters.
    destruct (arrayFilter _ _) as [kept|]; [|done].
    unfold Full.renderHotels. cbn [Full.filteredHotels Full.setFilteredHotels].
    destruct (length kept =? 0)%nat; [done|].
    by destruct (arrayMap Full.createHotelCard kept). }
  assert (amenity ∉ Full.filters.amenities (Full.filters s) →
          Full.filters
            (fst (Full.onAmenityChange amenity false
                    (fst (Full.onAmenityChange amenity true s))))
          = Full.filters s) as Hback.
  { intros Hnew. unfold Full.onAmenityChange.
    rewrite (proj1 (Hkeep _)). cbn [Full.filters Full.setFilters].
    rewrite (proj1 (Hkeep _)). cbn [Full.filters Full.setFilters].
    destruct (Full.filters s) as [sr rg mp am]. simpl in *. f_equal.
    apply leibniz_equiv. intros x. rewrite elem_of_difference, elem_of_union,
      elem_of_singleton.
    split; [tauto|]. intros Hx. split; [by right|]. intros ->. done. }
  split; [exact Hback|]. split.
  - intros Hold. unfold Full.onAmenityChange. rewrite (proj1 (Hkeep _)).
    cbn [Full.filters Full.setFilters].
    destruct (Full.filters s) as [sr rg mp am]. simpl in *. f_equal.
    apply leibniz_equiv. intros x. rewrite elem_of_union, elem_of_singleton.
    split; [intros [-> | ?]; done | by right].
  - intros Hnew Hwf.
    set (s1 := fst (Full.onAmenityChange amenity true s)).
    assert (Full.hotels s1 = Full.hotels s) as Hh1
      by (unfold s1, Full.onAmenityChange; by rewrite (proj2 (Hkeep _))).
    unfold Full.onAmenityChange at 1.
    set (t := Full.setFilters _ s1).
    assert (Full.filters t = Full.filters s) as Hft.
    { pose proof (Hback Hnew) as H. unfold Full.onAmenityChange at 1 in H.
      fold s1 in H. by rewrite (proj1 (Hkeep _)) in H. }
    assert (Full.hotels t = Full.hotels s) as Hht by exact Hh1.
    rewrite (filteredHotels_applyFilters t
               (List.filter (Spec.accepts (Full.filters s)) (Full.hotels s)))
      by (rewrite Hft, Hht; apply arrayFilter_total; by left).
    symmetry. apply filteredHotels_applyFilters, arrayFilter_total. by left.
Qed.

Lemma amenity_check_round_trip_witness :
  ("pool" ∉ Full.filters.amenities (Sample.onlyAmenities {[ "spa" ]}))
  ∧ Full.filters
      (fst (Full.onAmenityChange "pool" false
              (fst (Full.onAmenityChange "pool" true
                      (Sample.appWith [Sample.andean; Sample.bare]
                                      (Sample.onlyAmenities {[ "spa" ]}))))))
    = Sample.onlyAmenities {[ "spa" ]}.
Proof.
  assert ("pool" ∉ Full.filters.amenities (Sample.onlyAmenities {[ "spa" ]}))
    as Hnew by (simpl; rewrite elem_of_singleton; discriminate).
  split; [exact Hnew|].
  destruct (amenity_check_round_trip
              (Sample.appWith [Sample.andean; Sample.bare]
                              (Sample.onlyAmenities {[ "spa" ]})) "pool")
    as (H & _).
  exact (H Hnew).
Defined.

(** ** Displayed amenity names *)

Lemma rev_app_spec (s acc : string) :
  String.rev_app s acc = String.rev s ++ acc.
Proof.
  unfold String.rev. revert acc. induction s as [|c s IH]; intros acc; [done|].
  cbn [String.rev_app]. rewrite IH, (IH (String c EmptyString)).
  by rewrite string_app_assoc.
Qed.

Lemma rev_cons (c : ascii) (s : string) :
  String.rev (String c s) = String.rev s ++ String c EmptyString.
Proof. unfold String.rev at 1. cbn [String.rev_app]. apply rev_app_spec. Qed.

Lemma splitAcc_nonempty (sep : ascii) (cur s : string) : splitAcc sep cur s ≠ [].
Proof.
  revert cur. induction s as [|c s IH]; intros cur; simpl; [done|].
  destruct (Ascii.eqb c sep); [done | apply IH].
Qed.

Lemma join_cons_nonempty (sep x : string) (l : list string) :
  l ≠ [] → join sep (x :: l) = x ++ sep ++ join sep l.
Proof. by destruct l. Qed.

(** Joining the pieces of a split with the separator gives the string
    back. *)
Lemma join_splitAcc (sep : ascii) (cur s : string) :
  join (String sep EmptyString) (splitAcc sep cur s) = String.rev cur ++ s.
Proof.
  revert cur. induction s as [|c s IH]; intros cur.
  - simpl. by rewrite string_app_nil_r.
  - cbn [splitAcc]. destruct (Ascii.eqb c sep) eqn:Hc.
    + apply Ascii.eqb_eq in Hc as ->.
      rewrite join_cons_nonempty by apply splitAcc_nonempty.
      rewrite IH. reflexivity.
    + rewrite IH, rev_cons, string_app_assoc. reflexivity.
Qed.

Lemma allChars_rev (p : ascii → bool) (s : string) :
  Measure.allChars p (String.rev s) = Measure.allChars p s.
Proof.
  induction s as [|c s IH]; [done|].
  rewrite rev_cons, allChars_app, IH. simpl. rewrite andb_true_r. apply andb_comm.
Qed.

Lemma splitAcc_pieces (sep : ascii) (cur s : string) :
  Measure.allChars (fun c => negb (Ascii.eqb c sep)) cur = true →
  Forall (fun piece => Measure.allChars (fun c => negb (Ascii.eqb c sep)) piece = true)
         (splitAcc sep cur s).
Proof.
  revert cur. induction s as [|c s IH]; intros cur Hcur.
  - repeat constructor. by rewrite allChars_rev.
  - cbn [splitAcc]. destruct (Ascii.eqb c sep) eqn:Hc.
    + constructor; [by rewrite allChars_rev | by apply IH].
    + apply IH. simpl. by rewrite Hc.
Qed.

Lemma upperChar_keeps_hyphen_out (c : ascii) :
  negb (Ascii.eqb c "-") = true → negb (Ascii.eqb (upperChar c) "-") = true.
Proof. destruct c as [[] [] [] [] [] [] [] []]; vm_compute; congruence. Qed.

(** The uppercase form of a character of two bytes holds no hyphen. *)
Lemma upperPair_no_hyphen (c d : ascii) :
  isLatinLead c = true → isContinuation d = true →
  Measure.allChars (fun x => negb (Ascii.eqb x "-"))
                   (encodePoints (upperPoint (point2 c d))) = true.
Proof.
  destruct c as [[] [] [] [] [] [] [] []]; intros Hc; vm_compute in Hc;
    try discriminate Hc; clear Hc;
    destruct d as [[] [] [] [] [] [] [] []]; intros Hd; vm_compute in Hd;
    try discriminate Hd; vm_compute; reflexivity.
Qed.

Lemma capitalize_no_hyphen (word : string) :
  Measure.allChars (fun x => negb (Ascii.eqb x "-")) word = true →
  Measure.allChars (fun x => negb (Ascii.eqb x "-")) (Full.capitalize word) = true.
Proof.
  destruct word as [|c [|d u]]; [done | |]; cbn [Full.capitalize Measure.allChars].
  - rewrite !andb_true_r. apply upperChar_keeps_hyphen_out.
  - intros H. apply andb_true_iff in H as [Hc H].
    destruct (isLatinLead c && isContinuation d) eqn:Hpair.
    + apply andb_true_iff in Hpair as [Hl Hd].
      apply andb_true_iff in H as [_ Hu].
      by rewrite allChars_app, (upperPair_no_hyphen c d Hl Hd), Hu.
    + cbn [Measure.allChars]. by rewrite (upperChar_keeps_hyphen_out c Hc), H.
Qed.

Lemma allChars_join_blank (l : list string) :
  Forall (fun piece => Measure.allChars (fun c => negb (Ascii.eqb c "-")) piece = true) l →
  Measure.allChars (fun c => negb (Ascii.eqb c "-")) (join " " l) = true.
Proof.
  induction 1 as [|x l Hx Hl IH]; [done|].
  destruct l as [|y l]; [exact Hx|].
  change (join " " (x :: y :: l)) with (x ++ " " ++ join " " (y :: l)).
  by rewrite !allChars_app, Hx, IH.
Qed.

Lemma allChars_no_hyphen (s : string) :
  Measure.allChars (fun c => negb (Ascii.eqb c "-")) s = true →
  includes s "-" = false.
Proof.
  induction s as [|c s IH]; [done|]. cbn [Measure.allChars]. intros H.
  apply andb_true_iff in H as [Hc Hs].
  rewrite includes_char_cons, (IH Hs), orb_false_r.
  rewrite Ascii.eqb_sym. by apply negb_true_iff.
Qed.

(** X13. The name displayed for an amenity never holds a hyphen,
    whether it is a translation, the text of a member the translation
    table inherits, or the tag with its words capitalized; and a tag
    without a hyphen that is neither translated nor inherited is shown
    capitalized, and as it is when it is empty. *)
Theorem formatAmenityName_display (amenity : string) :
  includes (Full.formatAmenityName amenity) "-" = false
  ∧ (List.find (fun kv => String.eqb (fst kv) amenity) Full.translations = None →
     List.find (fun kv => String.eqb (fst kv) amenity) Full.inherited = None →
     includes amenity "-" = false →
     Full.formatAmenityName amenity = Full.capitalize amenity
     ∧ (amenity = EmptyString → Full.formatAmenityName amenity = EmptyString)).
Proof.
  unfold Full.formatAmenityName.
  destruct (List.find _ Full.translations) as [kv|] eqn:Hfind.
  { split; [|done]. apply List.find_some in Hfind as [Hin _].
    assert (forallb (fun kv => negb (includes (snd kv) "-")) Full.translations = true)
      as Hall by (vm_compute; reflexivity).
    rewrite forallb_forall in Hall. apply negb_true_iff. by apply Hall. }
  destruct (List.find _ Full.inherited) as [kv|] eqn:Hown.
  { split; [|done]. apply List.find_some in Hown as [Hin _].
    assert (forallb (fun kv => negb (includes (snd kv) "-")) Full.inherited = true)
      as Hall by (vm_compute; reflexivity).
    rewrite forallb_forall in Hall. apply negb_true_iff. by apply Hall. }
  split.
  - apply allChars_no_hyphen, allChars_join_blank.
    apply Forall_map.
    eapply Forall_impl; [apply (splitAcc_pieces "-" EmptyString amenity); reflexivity|].
    intros piece Hp. by apply capitalize_no_hyphen.
  - intros _ _ Hno.
    assert (∀ cur s, includes s "-" = false →
              splitAcc "-" cur s = [String.rev cur ++ s]) as Hone.
    { intros cur s. revert cur. induction s as [|c s IH]; intros cur Hs.
      - simpl. by rewrite string_app_nil_r.
      - rewrite includes_char_cons in Hs. apply orb_false_iff in Hs as [Hc Hs].
        cbn [splitAcc]. rewrite Ascii.eqb_sym, Hc, (IH _ Hs), rev_cons.
        by rewrite string_app_assoc. }
    unfold split. rewrite (Hone EmptyString amenity Hno).
    split; [done | by intros ->].
Qed.

Lemma formatAmenityName_display_witness :
  (List.find (fun kv => String.eqb (fst kv) "ñandú") Full.translations = None
   ∧ List.find (fun kv => String.eqb (fst kv) "ñandú") Full.inherited = None
   ∧ includes "ñandú" "-" = false
   ∧ Full.formatAmenityName "ñandú" = "Ñandú")
  ∧ Full.formatAmenityName "sea-view" = "Sea View"
  ∧ Full.formatAmenityName "ßeta-spa" = "SSeta Spa"
  ∧ Full.formatAmenityName "constructor" = "function Object() { [native code] }".
Proof.
  split; [|by repeat split].
  split; [reflexivity|]. split; [reflexivity|]. split; [reflexivity|].
  destruct (formatAmenityName_display "ñandú") as [_ H].
  etransitivity; [exact (proj1 (H eq_refl eq_refl eq_refl))|]. reflexivity.
Defined.

(** ** Previews on the cards *)

Lemma textsFrom_app (src : Source) (a b : list Part) :
  Measure.textsFrom src (a ++ b) = (Measure.textsFrom src a ++ Measure.textsFrom src b)%list.
Proof. unfold Measure.textsFrom. apply flat_map_app. Qed.

Lemma textsFrom_attractionItems (l : list string) :
  Measure.textsFrom AmenityTag (Full.attractionItems l) = []
  ∧ Measure.textsFrom AmenityOverflow (Full.attractionItems l) = [].
Proof. induction l as [|a l [IH1 IH2]]; [done|]. simpl. by rewrite IH1, IH2. Qed.

Lemma textsFrom_amenityTags (l : list string) :
  Measure.textsFrom AmenityTag (Full.amenityTags l)
  = map (fun a => escapeHtml (Full.formatAmenityName a)) (take 5 l)
  ∧ Measure.textsFrom AmenityOverflow (Full.amenityTags l)
    = if (5 <? length l)%nat
      then [numberToString (Z.of_nat (length l) - 5)] else [].
Proof.
  unfold Full.amenityTags. rewrite !textsFrom_app.
  assert (Measure.textsFrom AmenityTag
            (flat_map (fun amenity =>
               [Lit "<span class=~amenity-tag~ role=~listitem~>";
                escaped AmenityTag Content (Full.formatAmenityName amenity);
                Lit "</span>"]) (take 5 l))
          = map (fun a => escapeHtml (Full.formatAmenityName a)) (take 5 l)
          ∧ Measure.textsFrom AmenityOverflow
              (flat_map (fun amenity =>
                 [Lit "<span class=~amenity-tag~ role=~listitem~>";
                  escaped AmenityTag Content (Full.formatAmenityName amenity);
                  Lit "</span>"]) (take 5 l)) = []) as [-> ->].
  { induction (take 5 l) as [|a t [IH1 IH2]]; [done|].
    cbn [flat_map]. rewrite !textsFrom_app, IH1, IH2. done. }
  destruct (5 <? length l)%nat; simpl; by rewrite ?app_nil_r.
Qed.

(** X14. A card of the full variant shows at most five amenity tags,
    the escaped display names of the first five amenities of the
    record in their order, followed by one overflow tag exactly when
    the record has more than five, which gives the number of the
    others. *)
Theorem amenity_preview_is_capped (h : hotel.t) (parts : list Part)
  (amenities : list string) :
  Full.createHotelCard h = Normal parts →
  hotel.amenities h = Some amenities →
  Measure.textsFrom AmenityTag parts
  = map (fun a => escapeHtml (Full.formatAmenityName a)) (take 5 amenities)
  ∧ (length (Measure.textsFrom AmenityTag parts) ≤ 5)%nat
  ∧ Measure.textsFrom AmenityOverflow parts
    = if (5 <? length amenities)%nat
      then [numberToString (Z.of_nat (length amenities) - 5)] else [].
Proof.
  intros Hcard Ham. unfold Full.createHotelCard in Hcard.
  destruct (Full.stars (hotel.rating h)) as [st|]; [|discriminate].
  rewrite Ham in Hcard.
  apply (f_equal (fun c => match c with Normal x => x | Throw _ => [] end)) in Hcard.
  cbv beta iota in Hcard. subst parts.
  assert (∀ l, Measure.textsFrom AmenityTag
                 (match l with
                  | Some l0 =>
                      ([Lit "<div class=~hotel-attractions~><h4>Lugares fantásticos cerca:</h4><ul>"]
                       ++ Full.attractionItems l0 ++ [Lit "</ul></div>"])%list
                  | None => []
                  end) = []
               ∧ Measure.textsFrom AmenityOverflow
                   (match l with
                    | Some l0 =>
                        ([Lit "<div class=~hotel-attractions~><h4>Lugares fantásticos cerca:</h4><ul>"]
                         ++ Full.attractionItems l0 ++ [Lit "</ul></div>"])%list
                    | None => []
                    end) = []) as Hattr.
  { intros [l0|]; [|done]. rewrite !textsFrom_app.
    destruct (textsFrom_attractionItems l0) as [-> ->]. done. }
  destruct (Hattr (hotel.nearbyAttractions h)) as [Ha1 Ha2].
  destruct (textsFrom_amenityTags amenities) as [Ht1 Ht2].
  rewrite !textsFrom_app, Ha1, Ha2, Ht1, Ht2.
  split; [|split].
  - simpl. by rewrite app_nil_r.
  - simpl. rewrite app_nil_r, length_map, length_take. lia.
  - simpl. by rewrite app_nil_r.
Qed.

Lemma amenity_preview_is_capped_witness :
  Full.createHotelCard Sample.wellEquipped = Normal (Spec.fullCard Sample.wellEquipped)
  ∧ Measure.textsFrom AmenityTag (Spec.fullCard Sample.wellEquipped)
    = ["Spa"; "WiFi"; "Piscina"; "Biblioteca"; "Kayak"]
  ∧ Measure.textsFrom AmenityOverflow (Spec.fullCard Sample.wellEquipped) = ["2"].
Proof.
  split; [reflexivity|].
  destruct (amenity_preview_is_capped Sample.wellEquipped
              (Spec.fullCard Sample.wellEquipped) _ eq_refl eq_refl)
    as (Htags & _ & Hmore).
  split; [exact Htags | exact Hmore].
Defined.

(** ** Sets and sorted lists of strings *)

Lemma setOfAcc_elem (seen l : list string) (x : string) :
  x ∈ setOfAcc seen l ↔ x ∈ seen ∨ x ∈ l.
Proof.
  revert seen. induction l as [|y l IH]; intros seen.
  - simpl. rewrite elem_of_nil. tauto.
  - cbn [setOfAcc]. destruct (arrayIncludes seen y) eqn:Hy.
    + apply arrayIncludes_spec in Hy. rewrite IH, elem_of_cons.
      split; [tauto|]. intros [? | [-> | ?]]; tauto.
    + rewrite IH, elem_of_app, list_elem_of_singleton, elem_of_cons. tauto.
Qed.

Lemma setOfAcc_NoDup (seen l : list string) :
  NoDup seen → NoDup (setOfAcc seen l).
Proof.
  revert seen. induction l as [|y l IH]; intros seen Hseen; [done|].
  cbn [setOfAcc]. destruct (arrayIncludes seen y) eqn:Hy; [by apply IH|].
  apply IH. apply NoDup_app. split; [done|]. split; [|apply NoDup_singleton].
  intros x Hx Hx'. apply list_elem_of_singleton in Hx' as ->.
  apply arrayIncludes_spec in Hx. congruence.
Qed.

Lemma setOf_spec (l : list string) :
  NoDup (setOf l) ∧ ∀ x, x ∈ setOf l ↔ x ∈ l.
Proof.
  split; [apply setOfAcc_NoDup, NoDup_nil_2|].
  intros x. unfold setOf. rewrite setOfAcc_elem, elem_of_nil. tauto.
Qed.

Lemma insertSorted_Permutation (x : string) (l : list string) :
  insertSorted x l ≡ₚ x :: l.
Proof.
  induction l as [|y l IH]; [done|]. simpl.
  destruct (String.leb x y); [done|]. rewrite IH. apply Permutation_swap.
Qed.

Lemma sort_Permutation (l : list string) : sort l ≡ₚ l.
Proof.
  induction l as [|x l IH]; [done|]. simpl.
  by rewrite insertSorted_Permutation, IH.
Qed.

Lemma leb_total (x y : string) :
  String.leb x y = false → String.leb y x = true.
Proof.
  intros H. destruct (total String.le x y) as [Hxy | Hyx].
  - apply Is_true_true in Hxy. congruence.
  - by apply Is_true_true in Hyx.
Qed.

Lemma leb_trans (x y z : string) :
  String.leb x y = true → String.leb y z = true → String.leb x z = true.
Proof.
  intros Hxy Hyz. apply Is_true_true. apply Is_true_true in Hxy, Hyz.
  by transitivity y.
Qed.

Lemma insertSorted_Ascending (x : string) (l : list string) :
  Measure.Ascending l → Measure.Ascending (insertSorted x l).
Proof.
  induction l as [|y l IH]; intros Hl; [by repeat split|].
  destruct Hl as [Hy Hl]. cbn [insertSorted].
  destruct (String.leb x y) eqn:Hxy.
  - split; [|by split]. constructor; [done|].
    eapply Forall_impl; [exact Hy|]. intros z Hz. by eapply leb_trans.
  - split; [|by apply IH].
    rewrite insertSorted_Permutation. constructor; [by apply leb_total | done].
Qed.

Lemma sort_Ascending (l : list string) : Measure.Ascending (sort l).
Proof.
  induction l as [|x l IH]; [done|]. simpl. by apply insertSorted_Ascending.
Qed.

Lemma sort_setOf_spec (l : list string) :
  Measure.Ascending (sort (setOf l))
  ∧ NoDup (sort (setOf l))
  ∧ ∀ x, x ∈ sort (setOf l) ↔ x ∈ l.
Proof.
  split; [apply sort_Ascending|]. split.
  - rewrite sort_Permutation. apply setOf_spec.
  - intros x. rewrite sort_Permutation. apply setOf_spec.
Qed.

(** ** Controls filled at start-up *)

Lemma amenity_lists_read (l : list hotel.t) :
  Forall Spec.hasAmenities l →
  arrayMap (fun h => match hotel.amenities h with
                     | Some a => Normal a
                     | None => Throw TypeError
                     end) l
  = Normal (map (fun h => default [] (hotel.amenities h)) l).
Proof.
  induction 1 as [|h l [a Ha] _ IH]; [done|]. simpl. by rewrite Ha, IH.
Qed.

Lemma amenity_lists_fail (l : list hotel.t) :
  ¬ Forall Spec.hasAmenities l →
  arrayMap (fun h => match hotel.amenities h with
                     | Some a => Normal a
                     | None => Throw TypeError
                     end) l
  = Throw TypeError.
Proof.
  induction l as [|h l IH]; intros Hbad; [by destruct Hbad|]. simpl.
  destruct (hotel.amenities h) as [a|] eqn:Ha; [|done].
  rewrite IH; [done|]. intros Hl. apply Hbad. constructor; [by exists a | done].
Qed.

(** X16. The options of the region selector are the regions of the
    loaded records, each once, in ascending order.  The amenity check
    boxes are likewise the amenities of the records, each once, in
    ascending order, when every record carries [amenities]; otherwise
    filling them raises a [TypeError], as [populateAmenitiesFilter]
    does. *)
Theorem controls_are_sorted_sets (s : Full.App) :
  (Measure.Ascending (Full.regionOptions s)
   ∧ NoDup (Full.regionOptions s)
   ∧ ∀ r, r ∈ Full.regionOptions s ↔ ∃ h, h ∈ Full.hotels s ∧ hotel.region h = r)
  ∧ (Forall Spec.hasAmenities (Full.hotels s) →
     Full.populateAmenitiesFilter s = Normal tt
     ∧ ∃ options, Full.amenityOptions s = Normal options
         ∧ Measure.Ascending options ∧ NoDup options
         ∧ ∀ a, a ∈ options
                ↔ ∃ h l, h ∈ Full.hotels s ∧ hotel.amenities h = Some l ∧ a ∈ l)
  ∧ (¬ Forall Spec.hasAmenities (Full.hotels s) →
     Full.amenityOptions s = Throw TypeError
     ∧ Full.populateAmenitiesFilter s = Throw TypeError).
Proof.
  split; [|split].
  - unfold Full.regionOptions.
    destruct (sort_setOf_spec (map hotel.region (Full.hotels s))) as (Ha & Hn & He).
    split; [exact Ha|]. split; [exact Hn|].
    intros r. rewrite He, list_elem_of_fmap. split.
    + intros (h & -> & Hin). by exists h.
    + intros (h & Hin & <-). by exists h.
  - intros Hwf. split; [by apply populateAmenitiesFilter_total|].
    unfold Full.amenityOptions. rewrite (amenity_lists_read _ Hwf).
    eexists. split; [reflexivity|].
    destruct (sort_setOf_spec
                (concat (map (fun h => default [] (hotel.amenities h)) (Full.hotels s))))
      as (Ha & Hn & He).
    split; [exact Ha|]. split; [exact Hn|].
    intros a. rewrite He, list_elem_of_In, in_concat. split.
    + intros (l & Hl & Hal). apply list_elem_of_In, list_elem_of_fmap in Hl
        as (h & -> & Hin).
      destruct (hotel.amenities h) as [l|] eqn:Hh; [|by destruct Hal].
      exists h, l. split; [done|]. split; [done|]. by apply list_elem_of_In.
    + intros (h & l & Hin & Hh & Hal). exists l. split; [|by apply list_elem_of_In].
      apply list_elem_of_In, list_elem_of_fmap. exists h. by rewrite Hh.
  - intros Hbad. split.
    + unfold Full.amenityOptions. by rewrite (amenity_lists_fail _ Hbad).
    + unfold Full.populateAmenitiesFilter.
      destruct (forallb _ (Full.hotels s)) eqn:Hall; [|done].
      exfalso. apply Hbad. apply Forall_forall. intros h Hin.
      rewrite forallb_forall in Hall. apply list_elem_of_In, Hall in Hin.
      by apply bool_decide_eq_true in Hin.
Qed.

Lemma controls_are_sorted_sets_witness :
  Forall Spec.hasAmenities [Sample.wellEquipped; Sample.andean; Sample.north]
  ∧ Full.regionOptions
      (Sample.appWith [Sample.wellEquipped; Sample.andean; Sample.north;
                       Sample.costly] Full.defaultFilters)
    = ["Atacama"; "Los Lagos"; "Norte"]
  ∧ Full.amenityOptions
      (Sample.appWith [Sample.wellEquipped; Sample.andean; Sample.north]
                      Full.defaultFilters)
    = Normal ["hiking"; "kayaking"; "library"; "pool"; "sea-view"; "spa"; "wifi"].
Proof.
  assert (Forall Spec.hasAmenities [Sample.wellEquipped; Sample.andean; Sample.north])
    as Hwf by (repeat constructor; by eexists).
  split; [exact Hwf|]. split; [reflexivity|].
  destruct (controls_are_sorted_sets
              (Sample.appWith [Sample.wellEquipped; Sample.andean; Sample.north]
                              Full.defaultFilters)) as (_ & H & _).
  destruct (H Hwf) as (_ & options & Hopt & _).
  rewrite Hopt. f_equal. vm_compute in Hopt. by injection Hopt as <-.
Defined.

(** ** Destination cards and zone buttons *)

Lemma truthy_true_neq (s : string) : s ≠ EmptyString → truthy s = true.
Proof. by destruct s. Qed.

Lemma List_filter_filter {A : Type} (p q : A → bool) (l : list A) :
  List.filter p (List.filter q l) = List.filter (fun x => q x && p x) l.
Proof.
  induction l as [|x l IH]; [done|]. simpl.
  destruct (q x); simpl; [destruct (p x)|]; by rewrite IH.
Qed.




Lemma simple_applyFilters_view (s : Simple.App) :
  Simple.emptyStateHidden (Simple.applyFilters s)
  = negb (length (Simple.filteredHotels (Simple.applyFilters s)) =? 0)%nat
  ∧ Simple.hotels (Simple.applyFilters s) = Simple.hotels s.
Proof.
  rewrite simple_filteredHotels_applyFilters.
  unfold Simple.applyFilters, Simple.renderHotels. simpl.
  by destruct (length _ =? 0)%nat.
Qed.

(** X18. The zone buttons are Todos followed by the zones of the
    loaded records, each once.  A click on the button Todos, or on the
    button of a zone whose name is empty or is itself Todos, shows every
    record; a click on any other button shows exactly the records of
    its zone, of which there is at least one, so that no button leads
    to the empty state while records are loaded. *)
Theorem zone_buttons_select (s : Simple.App) :
  (∃ zones, Simple.zoneButtons s = "Todos" :: zones ∧ NoDup zones
            ∧ ∀ z, z ∈ zones ↔ ∃ h, h ∈ Simple.hotels s ∧ hotel.macroZone h = z)
  ∧ (∀ z, z = "Todos" ∨ z = EmptyString →
          Simple.filteredHotels (Simple.onZoneClick z s) = Simple.hotels s)
  ∧ (∀ z, z ∈ Simple.zoneButtons s → z ≠ "Todos" → z ≠ EmptyString →
          Simple.filteredHotels (Simple.onZoneClick z s)
          = List.filter (fun h => String.eqb (hotel.macroZone h) z) (Simple.hotels s)
          ∧ Simple.filteredHotels (Simple.onZoneClick z s) ≠ [])
  ∧ (∀ z, z ∈ Simple.zoneButtons s → Simple.hotels s ≠ [] →
          Simple.emptyStateHidden (Simple.onZoneClick z s) = true).
Proof.
  assert (∀ z, z = "Todos" ∨ z = EmptyString →
            Simple.filteredHotels (Simple.onZoneClick z s) = Simple.hotels s) as Hall.
  { intros z Hz. unfold Simple.onZoneClick.
    rewrite simple_filteredHotels_applyFilters. cbn [Simple.filters Simple.hotels].
    apply List_filter_all, Forall_forall. intros h _. unfold Simple.matches.
    by destruct Hz as [-> | ->]. }
  assert (∀ z, z ∈ Simple.zoneButtons s → z ≠ "Todos" → z ≠ EmptyString →
            Simple.filteredHotels (Simple.onZoneClick z s)
            = List.filter (fun h => String.eqb (hotel.macroZone h) z) (Simple.hotels s)
            ∧ Simple.filteredHotels (Simple.onZoneClick z s) ≠ []) as Hzone.
  { intros z Hin Htodos Hname.
    assert (Simple.filteredHotels (Simple.onZoneClick z s)
            = List.filter (fun h => String.eqb (hotel.macroZone h) z) (Simple.hotels s))
      as Hkept.
    { unfold Simple.onZoneClick.
      rewrite simple_filteredHotels_applyFilters. cbn [Simple.filters Simple.hotels].
      apply List_filter_ext_Forall, Forall_forall. intros h _. unfold Simple.matches.
      apply String.eqb_neq in Htodos. rewrite Htodos. simpl.
      by rewrite (truthy_true_neq z Hname). }
    split; [exact Hkept|]. rewrite Hkept.
    unfold Simple.zoneButtons in Hin. apply elem_of_cons in Hin as [-> | Hin]; [done|].
    apply setOf_spec, list_elem_of_fmap in Hin as (h & -> & Hh).
    intros Hnil.
    assert (h ∈ List.filter (fun h0 => String.eqb (hotel.macroZone h0) (hotel.macroZone h))
                            (Simple.hotels s)) as Hmem
      by (apply elem_of_List_filter; split; [done | apply String.eqb_refl]).
    rewrite Hnil in Hmem. by apply elem_of_nil in Hmem. }
  split; [|split; [exact Hall | split; [exact Hzone|]]].
  - exists (setOf (map hotel.macroZone (Simple.hotels s))).
    split; [reflexivity|].
    destruct (setOf_spec (map hotel.macroZone (Simple.hotels s))) as [Hn He].
    split; [exact Hn|]. intros z. rewrite He, list_elem_of_fmap. split.
    + intros (h & -> & Hin). by exists h.
    + intros (h & Hin & <-). by exists h.
  - intros z Hin Hrecords.
    unfold Simple.onZoneClick at 1.
    rewrite (proj1 (simple_applyFilters_view _)).
    fold (Simple.onZoneClick z s).
    apply negb_true_iff, Nat.eqb_neq. intros Hlen. apply length_zero_iff_nil in Hlen.
    destruct (decide (z = "Todos")) as [-> | Htodos];
      [rewrite Hall in Hlen by (by left); done|].
    destruct (decide (z = EmptyString)) as [-> | Hname];
      [rewrite Hall in Hlen by (by right); done|].
    by destruct (Hzone z Hin Htodos Hname) as [_ Hne].
Qed.

Lemma zone_buttons_select_witness :
  Simple.zoneButtons (Sample.simpleWith [Sample.north; Sample.south; Sample.andean] EmptyString)
  = ["Todos"; "Norte"; "Sur"]
  ∧ Simple.filteredHotels
      (Simple.onZoneClick "Norte"
         (Sample.simpleWith [Sample.north; Sample.south; Sample.andean] EmptyString))
    = [Sample.north; Sample.andean].
Proof.
  split; [reflexivity|].
  destruct (zone_buttons_select
              (Sample.simpleWith [Sample.north; Sample.south; Sample.andean] EmptyString))
    as (_ & _ & H & _).
  assert ("Norte" ∈ Simple.zoneButtons
            (Sample.simpleWith [Sample.north; Sample.south; Sample.andean] EmptyString))
    as Hin by (by apply (list_elem_of_lookup_2 _ 1)).
  assert ("Norte" ≠ "Todos") as H1 by discriminate.
  assert ("Norte" ≠ EmptyString) as H2 by discriminate.
  destruct (H "Norte" Hin H1 H2) as [Hkept _]. rewrite Hkept. reflexivity.
Defined.

(** ** Images that are never requested *)

Section LazyEdges.

Import Lazy.

Variable img : nat.

Lemma dataSrc_step (st : Step) (p : Page) : dataSrc (step st p) = dataSrc p.
Proof.
  destruct st as [j | within]; simpl.
  - unfold observe. by destruct (existsb _ _).
  - unfold frame. by rewrite dataSrc_onIntersection.
Qed.

Lemma requestCount_step_sourceless (st : Step) (p : Page) :
  truthy (dataSrc p img) = false →
  requestCount img (step st p) = requestCount img p.
Proof.
  intros Hsrc. destruct st as [j | within]; simpl.
  - unfold observe. by destruct (existsb _ _).
  - unfold frame.
    destruct (onIntersection_effect img (pendingEntries within p)
                (recordEntries (pendingEntries within p) p)) as (Hr & _).
    rewrite Hr. change (dataSrc (recordEntries _ p) img) with (dataSrc p img).
    rewrite Hsrc. unfold requestCount. simpl. lia.
Qed.

Lemma frame_inside_sourceless (within : nat → bool) (p : Page) :
  within img = true →
  seenIntersecting img p = false →
  watchCount img p = 1 →
  watchCount img (frame within p) = 0.
Proof.
  intros Hw Hs Hc. unfold frame.
  assert (hits img (pendingEntries within p) = 1) as Hh
    by (by rewrite hits_pendingEntries, Hw, Hs, Hc).
  destruct (onIntersection_effect img (pendingEntries within p)
              (recordEntries (pendingEntries within p) p)) as (_ & Hcount & _).
  by rewrite Hh in Hcount.
Qed.

Lemma run_watched_sourceless (steps : list Step) (p : Page) :
  registers img steps = false →
  watchCount img p = 1 →
  seenIntersecting img p = false →
  watchCount img (run steps p) = (if everWithin img steps then 0 else 1).
Proof.
  revert p. induction steps as [|s steps IH]; intros p Hreg Hc Hs; [done|].
  cbn [registers existsb] in Hreg. apply orb_false_iff in Hreg as [Hj Hreg].
  change (run (s :: steps) p) with (run steps (step s p)).
  destruct s as [j | within]; cbn [step everWithin existsb orb].
  - destruct (observe_other img j p Hj) as (_ & Hw & Hseen & _).
    fold (everWithin img steps). apply IH; [done | by rewrite Hw | by rewrite Hseen].
  - fold (everWithin img steps). destruct (within img) eqn:Hin; cbn [orb].
    + pose proof (frame_inside_sourceless within p Hin Hs Hc) as Hw.
      by destruct (run_unwatched img steps (frame within p) Hreg Hw) as [_ Hw'].
    + destruct (frame_outside img within p Hin Hs) as (_ & Hw & Hseen & _).
      apply IH; [done | by rewrite Hw | exact Hseen].
Qed.

End LazyEdges.

Lemma loadImage_effect (img j : nat) (p : Lazy.Page) :
  Lazy.dataSrc (Lazy.loadImage j p) = Lazy.dataSrc p
  ∧ Lazy.observed (Lazy.loadImage j p) = Lazy.observed p
  ∧ Lazy.requestCount img (Lazy.loadImage j p)
    = Lazy.requestCount img p
      + (if (img =? j)%nat && truthy (Lazy.dataSrc p j) then 1 else 0).
Proof.
  unfold Lazy.loadImage, Lazy.requestCount.
  destruct (truthy (Lazy.dataSrc p j)); cbn [Lazy.dataSrc Lazy.observed Lazy.requests].
  - split; [done|]. split; [done|].
    rewrite List.filter_app, length_app. cbn [List.filter].
    rewrite andb_true_r. by destruct (img =? j)%nat.
  - rewrite andb_false_r. split; [done|]. split; [done | lia].
Qed.

Lemma react_sourceless (observer : bool) (img : nat) (e : Lazy.Event)
  (p : Lazy.Page) :
  truthy (Lazy.dataSrc p img) = false →
  Lazy.dataSrc (Lazy.react observer e p) = Lazy.dataSrc p
  ∧ Lazy.requestCount img (Lazy.react observer e p) = Lazy.requestCount img p.
Proof.
  intros Hsrc. destruct observer, e as [j | within];
    cbn [Lazy.react Lazy.attach].
  - split; [apply (dataSrc_step (Lazy.Observe j))|].
    by apply (requestCount_step_sourceless img (Lazy.Observe j)).
  - split; [apply (dataSrc_step (Lazy.Frame within))|].
    by apply (requestCount_step_sourceless img (Lazy.Frame within)).
  - destruct (loadImage_effect img j p) as (Hd & _ & Hr).
    split; [exact Hd|]. rewrite Hr.
    destruct (img =? j)%nat eqn:Hj; [|simpl; lia].
    apply Nat.eqb_eq in Hj as <-. rewrite Hsrc. simpl. lia.
  - done.
Qed.

(** X19. An image whose placeholder carries no source is never
    requested, on a host with [IntersectionObserver] and on a host
    without it, whatever cards are built and whatever frames follow; a
    registered placeholder without a source still leaves the watch list
    at the first frame that finds it within the margin.  On a host
    without [IntersectionObserver] nothing is ever watched, and an
    image that has a source is requested once for every card built
    around it, at once and wherever it lies. *)
Theorem images_never_requested
  (observer : bool) (p : Lazy.Page) (img : nat) (events : list Lazy.Event)
  (steps : list Lazy.Step) :
  (truthy (Lazy.dataSrc p img) = false →
   Lazy.requestCount img (Lazy.play observer events p) = Lazy.requestCount img p)
  ∧ (Lazy.requestCount img (Lazy.play false events p)
     = Lazy.requestCount img p
       + (if truthy (Lazy.dataSrc p img) then Lazy.cards img events else 0)
     ∧ Lazy.observed (Lazy.play false events p) = Lazy.observed p)
  ∧ (truthy (Lazy.dataSrc p img) = false →
     existsb (Nat.eqb img) (Lazy.observed p) = false →
     Lazy.registers img steps = false →
     (img ∈ Lazy.observed (Lazy.run steps (Lazy.observe img p))
      ↔ Lazy.everWithin img steps = false)).
Proof.
  split; [|split].
  - revert p. induction events as [|e events IH]; intros p Hsrc; [done|].
    change (Lazy.play observer (e :: events) p)
      with (Lazy.play observer events (Lazy.react observer e p)).
    destruct (react_sourceless observer img e p Hsrc) as [Hd Hr].
    rewrite IH by (by rewrite Hd). exact Hr.
  - revert p. induction events as [|e events IH]; intros p.
    { split; [|done]. change (Lazy.play false [] p) with p.
      unfold Lazy.cards. simpl. destruct (truthy _); lia. }
    change (Lazy.play false (e :: events) p)
      with (Lazy.play false events (Lazy.react false e p)).
    destruct (IH (Lazy.react false e p)) as [Hr Ho]. rewrite Hr, Ho.
    destruct e as [j | within]; cbn [Lazy.react Lazy.attach].
    + destruct (loadImage_effect img j p) as (Hd & Hobs & Hcount).
      rewrite Hd, Hobs, Hcount. split; [|done].
      unfold Lazy.cards. cbn [List.filter].
      destruct (img =? j)%nat eqn:Hj; cbn [andb length].
      * apply Nat.eqb_eq in Hj as <-. destruct (truthy (Lazy.dataSrc p img)); lia.
      * lia.
    + split; [|done]. unfold Lazy.cards. cbn [List.filter]. lia.
  - intros Hsrc Hfresh Hreg.
    destruct (observe_fresh img p Hfresh) as (_ & Hw0 & Hs0 & _).
    pose proof (run_watched_sourceless img steps _ Hreg Hw0 Hs0) as Hw.
    destruct (Lazy.everWithin img steps).
    + split; [|done]. intros Hin. by apply watchCount_zero in Hw.
    + split; [done|]. intros _.
      destruct (decide (img ∈ Lazy.observed (Lazy.run steps (Lazy.observe img p))))
        as [Hin | Hout]; [done|].
      apply watchCount_zero in Hout. lia.
Qed.

Lemma images_never_requested_witness :
  truthy (Lazy.dataSrc Sample.sourcelessPage 3) = false
  ∧ Lazy.requestCount 3 (Lazy.play true Sample.scrolling Sample.sourcelessPage) = 0
  ∧ Lazy.requestCount 3 (Lazy.play false Sample.scrolling Sample.sourcelessPage) = 0
  ∧ Lazy.requestCount 7 (Lazy.play false Sample.scrolling Sample.sourcelessPage) = 2
  ∧ Lazy.observed (Lazy.run Sample.toggling (Lazy.observe 3 Sample.sourcelessPage))
    = [].
Proof.
  split; [reflexivity|].
  destruct (images_never_requested true Sample.sourcelessPage 3
              Sample.scrolling []) as (Hwith & _).
  destruct (images_never_requested false Sample.sourcelessPage 3
              Sample.scrolling []) as (Hwithout & _).
  destruct (images_never_requested false Sample.sourcelessPage 7
              Sample.scrolling []) as (_ & [Hcards _] & _).
  split; [exact (Hwith eq_refl)|]. split; [exact (Hwithout eq_refl)|].
  split; [exact Hcards | reflexivity].
Defined.

(** ** The detail overlay *)



(** ** Timers *)

(** X21. The recomputation of a burst does not run before a full
    window has passed after its last input: after any shorter wait
    nothing has been recomputed and the timer of the channel is still
    armed. *)
Theorem debounce_waits_full_window
  (r : Full.Runtime) (gap : nat) (first : Full.Input)
  (rest : list (nat * Full.Input)) (wait : nat) :
  Full.timers r = [] →
  Forall (fun e => Full.channelCallback (snd e) = Full.channelCallback first
                   ∧ fst e < Full.window (Full.channelCallback first)) rest →
  wait < Full.window (Full.channelCallback first) →
  Full.recomputations
    (Full.advance wait (Full.runBurst ((gap, first) :: rest) r))
  = Full.recomputations r
  ∧ length (Full.armedFor (Full.channelCallback first)
              (Full.advance wait (Full.runBurst ((gap, first) :: rest) r))) = 1.
Proof.
  intros Hidle Hrest Hwait.
  pose proof (first_input_arms gap first r Hidle) as Hfirst.
  destruct (burst_stays_armed _ _ _ rest first _ Hfirst Hrest) as [Hlast _].
  cbn [Full.runBurst].
  set (st := Full.runBurst rest (Full.onInput first (Full.advance gap r))) in *.
  pose proof (armed_count _ _ _ _ _ Hlast) as Hone.
  destruct Hlast as (_ & (tid & Htm & _) & Hlog & _).
  rewrite (advance_before_due wait st _ Htm) by (simpl; lia).
  split; [exact Hlog | exact Hone].
Qed.

Lemma debounce_waits_full_window_witness :
  Full.timers Sample.atRest = []
  ∧ Full.recomputations (Full.advance 299 (Full.runBurst Sample.typing Sample.atRest))
    = []
  ∧ length (Full.timers (Full.advance 299 (Full.runBurst Sample.typing Sample.atRest)))
    = 1.
Proof.
  split; [reflexivity|].
  destruct (debounce_waits_full_window Sample.atRest 0 (Full.SearchInput "A")
              (tl Sample.typing) 299 eq_refl) as [H _].
  - repeat constructor; simpl; lia.
  - simpl. lia.
  - split; [exact H | reflexivity].
Defined.

Lemma Forall_of_sublist {A : Type} (P : A → Prop) (k l : list A) :
  sublist k l → Forall P l → Forall P k.
Proof.
  induction 1 as [|x k l _ IH|x k l _ IH]; intros H; [done| |].
  - apply Forall_cons in H as [Hx Hl]. constructor; [done | by apply IH].
  - apply Forall_cons in H as [_ Hl]. by apply IH.
Qed.

Lemma List_filter_none {A : Type} (p : A → bool) (l : list A) :
  (∀ x, x ∈ l → p x = false) → List.filter p l = [].
Proof.
  induction l as [|x l IH]; intros H; [done|]. simpl.
  rewrite (H x) by (by left). apply IH. intros y Hy. apply H. by right.
Qed.

Section TimerTable.

Import Full.

Lemma shrinks_consistent (r r' : Runtime) :
  Measure.shrinks r r' → Measure.timersConsistent r → Measure.timersConsistent r'.
Proof.
  intros (Hn & Hs & Hf & Hsub) (Hnodup & Hsn & Hfn & Hall).
  unfold Measure.timersConsistent. rewrite Hn, Hs, Hf.
  split; [|split; [done | split; [done|]]].
  - eapply sublist_NoDup; [exact Hnodup | by apply fmap_sublist].
  - eapply Forall_of_sublist; [exact Hsub | exact Hall].
Qed.

Lemma shrinks_fire (fuel t : nat) (r : Runtime) : Measure.shrinks r (fire fuel t r).
Proof.
  revert r. induction fuel as [|k IH]; intros r; [by repeat split|].
  cbn [fire]. destruct (nextDue t (timers r)) as [x|]; [|by repeat split].
  set (r1 := runCallback (callback x)
               (clearTimeout (Some (timerId x))
                  (setClock (Nat.max (clock r) (due x)) r))).
  assert (Measure.shrinks r r1) as H1.
  { unfold r1. destruct (callback x); repeat split; simpl;
      apply sublist_List_filter. }
  destruct (IH r1) as (Hn & Hs & Hf & Hsub).
  destruct H1 as (Hn1 & Hs1 & Hf1 & Hsub1).
  repeat split; [congruence | congruence | congruence |].
  by transitivity (timers r1).
Qed.

Lemma consistent_advance (ms : nat) (r : Runtime) :
  Measure.timersConsistent r → Measure.timersConsistent (advance ms r).
Proof.
  apply shrinks_consistent. unfold advance.
  destruct (shrinks_fire (length (timers r)) (clock r + ms) r) as (Hn & Hs & Hf & Hsub).
  by repeat split.
Qed.

Lemma consistent_rearm_search
  (a a' : App) (sv sv' pv pv' : string) (sdt fdt : option nat)
  (tm keep : list Timer) (nid ck ck' due : nat) (lg lg' : list filters.t) :
  Measure.timersConsistent (mkRuntime a sv pv sdt fdt tm nid ck lg) →
  sublist keep tm →
  (∀ t, t ∈ keep → sdt ≠ Some (timerId t)) →
  Measure.timersConsistent
    (mkRuntime a' sv' pv' (Some nid) fdt
               (keep ++ [mkTimer nid due SearchCallback]) (S nid) ck' lg').
Proof.
  intros (Hnodup & Hsn & Hfn & Hall) Hsub Hkeep. cbn in Hnodup, Hsn, Hfn, Hall.
  assert (Forall (fun t => timerId t < nid
                           ∧ (callback t = SearchCallback ↔ sdt = Some (timerId t))
                           ∧ (callback t = FilterCallback ↔ fdt = Some (timerId t)))
                 keep) as Hk by (eapply Forall_of_sublist; [exact Hsub | exact Hall]).
  unfold Measure.timersConsistent. cbn.
  split; [|split; [|split]].
  - rewrite map_app. apply NoDup_app. split; [|split].
    + eapply sublist_NoDup; [exact Hnodup | by apply fmap_sublist].
    + intros x Hx Hx'. apply list_elem_of_singleton in Hx'. simpl in Hx'. subst x.
      apply list_elem_of_fmap in Hx as (t & Ht & Hin).
      apply (proj1 (Forall_forall _ _) Hk) in Hin as [Hlt _]. lia.
    + apply NoDup_singleton.
  - intros n [= <-]. lia.
  - intros n Hn. apply Hfn in Hn. lia.
  - apply Forall_app. split.
    + apply Forall_forall. intros t Hin.
      pose proof (Hkeep t Hin) as Hnot.
      apply (proj1 (Forall_forall _ _) Hk) in Hin as (Hlt & HS & HF).
      split; [lia|]. split; [|exact HF].
      split; [intros Hc; by apply HS in Hc | intros [= Heq]; lia].
    + apply Forall_singleton. cbn. split; [lia|]. split.
      * by split.
      * split; [discriminate|]. intros H. apply Hfn in H. lia.
Qed.

Lemma consistent_rearm_filter
  (a a' : App) (sv sv' pv pv' : string) (sdt fdt : option nat)
  (tm keep : list Timer) (nid ck ck' due : nat) (lg lg' : list filters.t) :
  Measure.timersConsistent (mkRuntime a sv pv sdt fdt tm nid ck lg) →
  sublist keep tm →
  (∀ t, t ∈ keep → fdt ≠ Some (timerId t)) →
  Measure.timersConsistent
    (mkRuntime a' sv' pv' sdt (Some nid)
               (keep ++ [mkTimer nid due FilterCallback]) (S nid) ck' lg').
Proof.
  intros (Hnodup & Hsn & Hfn & Hall) Hsub Hkeep. cbn in Hnodup, Hsn, Hfn, Hall.
  assert (Forall (fun t => timerId t < nid
                           ∧ (callback t = SearchCallback ↔ sdt = Some (timerId t))
                           ∧ (callback t = FilterCallback ↔ fdt = Some (timerId t)))
                 keep) as Hk by (eapply Forall_of_sublist; [exact Hsub | exact Hall]).
  unfold Measure.timersConsistent. cbn.
  split; [|split; [|split]].
  - rewrite map_app. apply NoDup_app. split; [|split].
    + eapply sublist_NoDup; [exact Hnodup | by apply fmap_sublist].
    + intros x Hx Hx'. apply list_elem_of_singleton in Hx'. simpl in Hx'. subst x.
      apply list_elem_of_fmap in Hx as (t & Ht & Hin).
      apply (proj1 (Forall_forall _ _) Hk) in Hin as [Hlt _]. lia.
    + apply NoDup_singleton.
  - intros n Hn. apply Hsn in Hn. lia.
  - intros n [= <-]. lia.
  - apply Forall_app. split.
    + apply Forall_forall. intros t Hin.
      pose proof (Hkeep t Hin) as Hnot.
      apply (proj1 (Forall_forall _ _) Hk) in Hin as (Hlt & HS & HF).
      split; [lia|]. split; [exact HS|].
      split; [intros Hc; by apply HF in Hc | intros [= Heq]; lia].
    + apply Forall_singleton. cbn. split; [lia|]. split.
      * split; [discriminate|]. intros H. apply Hsn in H. lia.
      * by split.
Qed.

Lemma kept_after_clear (remembered : option nat) (tm : list Timer) :
  let keep := match remembered with
              | Some n => List.filter (fun t => negb (timerId t =? n)%nat) tm
              | None => tm
              end in
  sublist keep tm ∧ ∀ t, t ∈ keep → remembered ≠ Some (timerId t).
Proof.
  destruct remembered as [n|]; simpl; [|by split].
  split; [apply sublist_List_filter|].
  intros t Hin [= ->]. apply elem_of_List_filter in Hin as [_ Hin].
  by rewrite Nat.eqb_refl in Hin.
Qed.

Lemma consistent_onInput (i : Input) (r : Runtime) :
  Measure.timersConsistent r → Measure.timersConsistent (onInput i r).
Proof.
  intros Hr. destruct r as [a sv pv sdt fdt tm nid ck lg].
  destruct i as [v | v].
  - destruct (kept_after_clear sdt tm) as [Hsub Hkeep].
    unfold onInput, onSearchInput, debounce, setTimeout, clearTimeout.
    destruct sdt as [n|]; cbn;
      eapply consistent_rearm_search; [exact Hr | exact Hsub | exact Hkeep
                                      | exact Hr | exact Hsub | exact Hkeep].
  - destruct (kept_after_clear fdt tm) as [Hsub Hkeep].
    unfold onInput, onPriceInput, debounce, setTimeout, clearTimeout.
    destruct fdt as [n|]; cbn;
      eapply consistent_rearm_filter; [exact Hr | exact Hsub | exact Hkeep
                                      | exact Hr | exact Hsub | exact Hkeep].
Qed.

Lemma at_most_one_armed (c : Callback) (r : Runtime) :
  Measure.timersConsistent r → (length (armedFor c r) ≤ 1)%nat.
Proof.
  intros (Hnodup & _ & _ & Hall).
  set (remembered := Spec.channelTimer c r).
  assert (Forall (fun t => match callback t, c with
                           | SearchCallback, SearchCallback
                           | FilterCallback, FilterCallback => true
                           | _, _ => false
                           end = true → remembered = Some (timerId t))
                 (timers r)) as Hid.
  { eapply Forall_impl; [exact Hall|]. intros t (_ & HS & HF).
    unfold remembered. destruct c, (callback t); simpl; (done || by intros _; (apply HS || apply HF)). }
  unfold armedFor. clear Hall. revert Hnodup Hid.
  generalize (timers r). intros l Hnodup Hid.
  induction l as [|x l IH]; [simpl; lia|].
  apply Forall_cons in Hid as [Hx Hl]. cbn [map] in Hnodup.
  apply NoDup_cons in Hnodup as [Hfresh Hnodup].
  cbn [List.filter].
  destruct (match callback x, c with
            | SearchCallback, SearchCallback | FilterCallback, FilterCallback => true
            | _, _ => false
            end) eqn:Hmine; [|by apply IH].
  assert (List.filter
            (fun t => match callback t, c with
                      | SearchCallback, SearchCallback
                      | FilterCallback, FilterCallback => true
                      | _, _ => false
                      end) l = []) as ->; [|simpl; lia].
  apply List_filter_none. intros t Hin.
  destruct (match callback t, c with
            | SearchCallback, SearchCallback | FilterCallback, FilterCallback => true
            | _, _ => false
            end) eqn:Ht; [|done].
  exfalso. apply Hfresh. apply list_elem_of_fmap. exists t.
  pose proof (proj1 (Forall_forall _ _) Hl t Hin Ht) as Hrt.
  pose proof (Hx eq_refl) as Hrx. split; [congruence | done].
Qed.

End TimerTable.

(** X22. Whatever inputs arrive on the two debounced channels and
    however time passes between them, the timer table stays consistent
    with the two ids the engine remembers, and at most one timer is
    armed for the search box and at most one for the price range; an
    input on one channel never disarms the timer of the other.  A
    runtime with no timer and no remembered id is consistent. *)
Theorem one_timer_per_channel (events : list Full.Event) (r : Full.Runtime) :
  (Full.timers r = [] → Full.searchDebounceTimer r = None →
   Full.filterDebounceTimer r = None → Measure.timersConsistent r)
  ∧ (Measure.timersConsistent r →
     Measure.timersConsistent (Full.runEvents events r)
     ∧ (∀ c, (length (Full.armedFor c (Full.runEvents events r)) ≤ 1)%nat)
     ∧ (∀ v, Full.armedFor Full.FilterCallback (Full.onInput (Full.SearchInput v) r)
             = Full.armedFor Full.FilterCallback r)
     ∧ (∀ v, Full.armedFor Full.SearchCallback (Full.onInput (Full.PriceInput v) r)
             = Full.armedFor Full.SearchCallback r)).
Proof.
  split.
  - intros Ht Hs Hf. unfold Measure.timersConsistent. rewrite Ht, Hs, Hf.
    split; [apply NoDup_nil_2|]. split; [done|]. split; [done | constructor].
  - intros Hr.
    assert (Measure.timersConsistent (Full.runEvents events r)) as Hend.
    { unfold Full.runEvents. revert r Hr.
      induction events as [|e events IH]; intros r Hr; [done|].
      cbn [fold_left]. apply IH. destruct e as [i | ms]; simpl;
        [by apply consistent_onInput | by apply consistent_advance]. }
    split; [exact Hend|]. split; [intros c; by apply at_most_one_armed|].
    destruct Hr as (_ & _ & _ & Hall).
    destruct r as [a sv pv sdt fdt tm nid ck lg]. cbn in Hall.
    split; intros v; unfold Full.armedFor, Full.onInput, Full.onSearchInput,
      Full.onPriceInput, Full.debounce, Full.setTimeout, Full.clearTimeout.
    + destruct sdt as [n|]; cbn; rewrite List.filter_app; cbn; rewrite app_nil_r;
        [|done].
      rewrite List_filter_filter. apply List_filter_ext_Forall.
      eapply Forall_impl; [exact Hall|]. intros t (_ & HS & _).
      destruct (Full.callback t) eqn:Hc; [apply andb_false_r|].
      rewrite andb_true_r.
      destruct (Full.timerId t =? n)%nat eqn:Hid; [|done].
      apply Nat.eqb_eq in Hid. subst n. exfalso.
      destruct HS as [_ HS]. by specialize (HS eq_refl).
    + destruct fdt as [n|]; cbn; rewrite List.filter_app; cbn; rewrite app_nil_r;
        [|done].
      rewrite List_filter_filter. apply List_filter_ext_Forall.
      eapply Forall_impl; [exact Hall|]. intros t (_ & _ & HF).
      destruct (Full.callback t) eqn:Hc; [|apply andb_false_r].
      rewrite andb_true_r.
      destruct (Full.timerId t =? n)%nat eqn:Hid; [|done].
      apply Nat.eqb_eq in Hid. subst n. exfalso.
      destruct HF as [_ HF]. by specialize (HF eq_refl).
Qed.

Lemma one_timer_per_channel_witness :
  Measure.timersConsistent Sample.atRest
  ∧ Full.armedFor Full.SearchCallback (Full.runEvents Sample.mixed Sample.atRest)
    = [Full.mkTimer 2 500 Full.SearchCallback]
  ∧ Full.armedFor Full.FilterCallback (Full.runEvents Sample.mixed Sample.atRest)
    = [Full.mkTimer 3 410 Full.FilterCallback]
  ∧ (length (Full.armedFor Full.SearchCallback
               (Full.runEvents Sample.mixed Sample.atRest)) ≤ 1)%nat.
Proof.
  destruct (one_timer_per_channel Sample.mixed Sample.atRest) as [Hbase Hstep].
  pose proof (Hbase eq_refl eq_refl eq_refl) as Hrest.
  split; [exact Hrest|]. split; [reflexivity|]. split; [reflexivity|].
  destruct (Hstep Hrest) as (_ & Hone & _). exact (Hone Full.SearchCallback).
Defined.

(** ** What the engine reports *)

Lemma arrayMap_length {A B : Type} (cb : A → completion B) (l : list A)
  (ys : list B) :
  arrayMap cb l = Normal ys → length ys = length l.
Proof.
  revert ys. induction l as [|x l IH]; intros ys; simpl; [by intros [= <-]|].
  destruct (cb x) as [y|]; [|done].
  destruct (arrayMap cb l) as [r|]; [|done].
  intros [= <-]. simpl. by rewrite (IH r).
Qed.

(** X23. After a recomputation that completes, the number of cards in
    the grid, the count in the header, the empty-state indicator and
    the result count reported by [getFilterState] agree, and the
    reported configuration is the one that was applied. *)
Theorem counts_agree_after_recomputation (s : Full.App) :
  snd (Full.applyFilters s) = Normal tt →
  length (Full.hotelsGrid (fst (Full.applyFilters s)))
  = Full.resultCount (Full.getFilterState (fst (Full.applyFilters s)))
  ∧ Full.resultsCount (fst (Full.applyFilters s))
    = Full.countText (Full.resultCount (Full.getFilterState (fst (Full.applyFilters s))))
  ∧ Full.emptyStateHidden (fst (Full.applyFilters s))
    = negb (Full.resultCount (Full.getFilterState (fst (Full.applyFilters s))) =? 0)%nat
  ∧ Full.stateMaxPrice (Full.getFilterState (fst (Full.applyFilters s)))
    = Full.filters.maxPrice (Full.filters s)
  ∧ arrayFilter (Full.matches (Full.filters s)) (Full.hotels s)
    = Normal (Full.filteredHotels (fst (Full.applyFilters s))).
Proof.
  unfold Full.applyFilters, Full.getFilterState.
  destruct (arrayFilter _ _) as [kept|e]; [|discriminate].
  unfold Full.renderHotels. cbn [Full.filteredHotels Full.setFilteredHotels].
  destruct kept as [|h kept]; [by intros _|].
  cbn [length]. change (S (length kept) =? 0)%nat with false. cbv iota.
  destruct (arrayMap Full.createHotelCard (h :: kept)) as [cards|] eqn:Hmap;
    [|discriminate].
  intros _. apply arrayMap_length in Hmap. simpl in Hmap |- *. by rewrite Hmap.
Qed.

Lemma counts_agree_after_recomputation_witness :
  snd (Full.applyFilters
         (Sample.appWith [Sample.andean; Sample.costly; Sample.north]
                         Full.defaultFilters)) = Normal tt
  ∧ length (Full.hotelsGrid
              (fst (Full.applyFilters
                      (Sample.appWith [Sample.andean; Sample.costly; Sample.north]
                                      Full.defaultFilters)))) = 2
  ∧ Full.resultsCount
      (fst (Full.applyFilters
              (Sample.appWith [Sample.andean; Sample.costly; Sample.north]
                              Full.defaultFilters)))
    = "2 hoteles encontrados".
Proof.
  split; [reflexivity|].
  destruct (counts_agree_after_recomputation
              (Sample.appWith [Sample.andean; Sample.costly; Sample.north]
                              Full.defaultFilters) eq_refl) as (Hg & Hc & _).
  split; [exact Hg | exact Hc].
Defined.
